(** * WebRTC video platform: rooms, signaling, recording and the client
      participant list

    A shallow embedding of the session layer of the platform:
    - [RoomService], [MediasoupService] (src/modules/webrtc/room.service.ts),
    - [RecordingService] (src/modules/webrtc/recording.service.ts),
    - [WebRTCGateway] (the signaling handlers),
    - the participant bookkeeping of the [VideoCall] component together with
      the event dispatch of [WebRTCClient].

    Conventions.
    - A JavaScript [Map] iterates in insertion order; the maps that the code
      iterates ([rooms], [peers], [transports], [producers], [consumers],
      [recordings]) are insertion-ordered association lists ([JsMap]).  Maps
      that are only looked up ([routers], [activeRecorders]) and the [Set]
      [recentlyProcessedPeers] are stdpp [gmap]/[gset].
    - The media engine (mediasoup), FFmpeg, the clock and [uuidv4] are outside
      the program: their answers are arguments of the operation that asks.
    - A service call is modelled as running to completion before the next
      one starts (the [await]s of one call are resolved inside that call).
      Where calls that overlap matter, the stretches of a call between its
      [await]s are functions of their own ([startRecording_begin],
      [startRecording_resume], [serves]).
    - Calls on engine objects, mutations of the peer and room registries and
      socket emissions are appended, in program order, to a [trace]. *)

From stdpp Require Import base option list strings gmap.
From Stdlib Require Import Ascii Lia.

(* ===================================================================== *)
(** ** Insertion-ordered maps (JavaScript [Map<string, V>]) *)
(* ===================================================================== *)

Module JsMap.
Section ops.
Context {V : Type}.

Definition t : Type := list (string * V).

Definition empty : t := [].

(** [m.get(k)] *)
Fixpoint get (m : t) (k : string) : option V :=
  match m with
  | [] => None
  | (k', v) :: m' => if String.eqb k' k then Some v else get m' k
  end.

(** [m.has(k)] *)
Definition has (m : t) (k : string) : bool :=
  match get m k with Some _ => true | None => false end.

(** [m.set(k, v)]: an existing key keeps its position, a new key goes
    last. *)
Fixpoint set (m : t) (k : string) (v : V) : t :=
  match m with
  | [] => [(k, v)]
  | (k', v') :: m' =>
      if String.eqb k' k then (k, v) :: m' else (k', v') :: set m' k v
  end.

(** [m.delete(k)]: drops the key (every entry of it, there is one in a
    well-formed map). *)
Fixpoint delete (m : t) (k : string) : t :=
  match m with
  | [] => []
  | (k', v) :: m' =>
      if String.eqb k' k then delete m' k else (k', v) :: delete m' k
  end.

(** [m.size] *)
Definition size (m : t) : nat := length m.

(** [Array.from(m.keys())], [Array.from(m.values())] *)
Definition keys (m : t) : list string := map fst m.
Definition values (m : t) : list V := map snd m.

(** A [Map] holds every key once. *)
Definition wf (m : t) : Prop := NoDup (keys m).
End ops.
Arguments t : clear implicits.
End JsMap.

(* ===================================================================== *)
(** ** Results of fallible calls *)
(* ===================================================================== *)

(** A call either returns or throws [new Error(msg)]. *)
Inductive result (A : Type) : Type :=
| Ok (a : A)
| Throw (msg : string).
Arguments Ok {A} a.
Arguments Throw {A} msg.

Definition is_throw {A} (r : result A) : bool :=
  match r with Ok _ => false | Throw _ => true end.

(* ===================================================================== *)
(** ** Data model (src/interfaces/webrtc.interface.ts) *)
(* ===================================================================== *)

Inductive Direction := Send | Recv.
Inductive MediaKind := Audio | Video.

(** Engine objects, as far as the code reads them. *)
Record Transport := {
  transport_id : string;
  (** [transport.appData?.direction] *)
  transport_appData_direction : option Direction;
}.

Record Producer := {
  producer_id : string;
  producer_kind : MediaKind;
}.

Record Consumer := {
  consumer_id : string;
  consumer_kind : MediaKind;
  consumer_producerId : string;
  consumer_rtpParameters : string;
  consumer_paused : bool;
}.

Record Router := {
  router_rtpCapabilities : string;
}.

Record PeerInfo := {
  peer_id : string;
  peer_name : string;
  transports : JsMap.t Transport;
  producers : JsMap.t Producer;
  consumers : JsMap.t Consumer;
}.

(** [RoomInfo.recording] *)
Record RoomRecording := {
  isRecording : bool;
  rr_recordingId : option string;
  rr_startTime : option nat;
  rr_filePath : option string;
}.

Record RoomInfo := {
  room_id : string;
  room_name : string;
  peers : JsMap.t PeerInfo;
  router : Router;
  recording : RoomRecording;
}.

Inductive RecordingStatus :=
| SRecording | SStopped | SProcessing | SCompleted | SFailed.

Global Instance RecordingStatus_eq_dec : EqDecision RecordingStatus.
Proof. solve_decision. Defined.

Record RecordingInfo := {
  rec_id : string;
  rec_roomId : string;
  rec_filePath : string;
  rec_startTime : nat;
  rec_endTime : option nat;
  rec_status : RecordingStatus;
  rec_participants : list string;
}.

(** The answer of [createPlainTransport]. *)
Record PlainTransport := {
  plain_id : string;
  plain_port : nat;
}.

(** A running [ffmpeg] command, known by the recording it belongs to. *)
Record FfmpegCommand := {
  ffmpeg_recordingId : string;
  ffmpeg_port : nat;
  ffmpeg_output : string;
}.

(* ===================================================================== *)
(** ** Signaling messages and the trace *)
(* ===================================================================== *)

(** Server-to-client events. *)
Inductive Message :=
| MJoined (peerId roomId : string) (rtpCapabilities : option string)
          (isRec : bool)
| MPeerJoined (peerId peerName : string)
| MExistingPeers (ps : list (string * string))
| MPeerLeft (peerId : string)
| MTransportCreated (transportId : string)
| MProduced (producerId : string)
| MNewProducer (peerId producerId : string) (kind : MediaKind)
| MConsumed (consumerId producerId : string) (kind : MediaKind)
            (rtpParameters : string)
| MRecordingStarted (recordingId : string) (startTime : nat)
| MRecordingStopped (recordingId : string) (endTime : option nat)
                    (filePath : string)
| MError (message : string).

(** Who an emission goes to: [socket.emit], [socket.to(room).emit],
    [server.to(room).emit].  A socket is named by the peer id that
    [handleConnection] stored in [socket.data.peerId]. *)
Inductive Target :=
| ToSocket (peerId : string)
| ToRoomExcept (roomId : string) (senderPeerId : string)
| ToRoom (roomId : string).

Inductive Effect :=
| TransportClose (id : string)
| ProducerClose (id : string)
| ConsumerClose (id : string)
| RouterCreate (roomId : string)
| RouterClose (roomId : string)
| PeerSet (roomId peerId : string)
| PeerDelete (roomId peerId : string)
| RoomDelete (roomId : string)
| WebRtcTransportCreate (roomId : string) (d : Direction)
| PlainTransportCreate (roomId : string)
| FfmpegRun (recordingId : string) (port : nat) (filePath : string)
| FfmpegKill (recordingId : string)
| FileUnlink (filePath : string)
| ConsumerCreate (transportId producerId : string)
| Emit (tgt : Target) (msg : Message).

(** The state of the three services. *)
Record World := {
  rooms : JsMap.t RoomInfo;                   (* RoomService.rooms *)
  routers : gmap string Router;               (* MediasoupService.routers *)
  recordings : JsMap.t RecordingInfo;         (* RecordingService.recordings *)
  activeRecorders : gmap string FfmpegCommand;(* RecordingService.activeRecorders *)
  trace : list Effect;                        (* oldest first *)
}.

Definition emptyWorld : World :=
  {| rooms := JsMap.empty; routers := ∅; recordings := JsMap.empty;
     activeRecorders := ∅; trace := [] |}.

Definition set_rooms (f : JsMap.t RoomInfo -> JsMap.t RoomInfo) (w : World) : World :=
  {| rooms := f (rooms w); routers := routers w; recordings := recordings w;
     activeRecorders := activeRecorders w; trace := trace w |}.

Definition set_routers (f : gmap string Router -> gmap string Router) (w : World) : World :=
  {| rooms := rooms w; routers := f (routers w); recordings := recordings w;
     activeRecorders := activeRecorders w; trace := trace w |}.

Definition set_recordings (f : JsMap.t RecordingInfo -> JsMap.t RecordingInfo)
    (w : World) : World :=
  {| rooms := rooms w; routers := routers w; recordings := f (recordings w);
     activeRecorders := activeRecorders w; trace := trace w |}.

Definition set_activeRecorders
    (f : gmap string FfmpegCommand -> gmap string FfmpegCommand) (w : World) : World :=
  {| rooms := rooms w; routers := routers w; recordings := recordings w;
     activeRecorders := f (activeRecorders w); trace := trace w |}.

(** Append effects to the trace. *)
Definition log (es : list Effect) (w : World) : World :=
  {| rooms := rooms w; routers := routers w; recordings := recordings w;
     activeRecorders := activeRecorders w; trace := trace w ++ es |}.

Definition set_peers (f : JsMap.t PeerInfo -> JsMap.t PeerInfo) (r : RoomInfo) : RoomInfo :=
  {| room_id := room_id r; room_name := room_name r; peers := f (peers r);
     router := router r; recording := recording r |}.

Definition set_recording (rr : RoomRecording) (r : RoomInfo) : RoomInfo :=
  {| room_id := room_id r; room_name := room_name r; peers := peers r;
     router := router r; recording := rr |}.

(* ===================================================================== *)
(** ** MediasoupService (router registry) *)
(* ===================================================================== *)

(** [createRouter(roomId)]; [engine] is the answer of
    [worker.createRouter], asked only when the room has no router yet. *)
Definition createRouter (roomId : string) (engine : result Router) (w : World)
    : result Router * World :=
  match routers w !! roomId with
  | Some r => (Ok r, w)
  | None =>
      match engine with
      | Ok r => (Ok r, log [RouterCreate roomId] (set_routers (insert roomId r) w))
      | Throw e => (Throw e, w)
      end
  end.

(** [removeRouter(roomId)] *)
Definition removeRouter (roomId : string) (w : World) : World :=
  match routers w !! roomId with
  | Some _ => set_routers (base.delete roomId) (log [RouterClose roomId] w)
  | None => w
  end.

(** [getRouterRtpCapabilities(roomId)] *)
Definition getRouterRtpCapabilities (roomId : string) (w : World) : option string :=
  router_rtpCapabilities <$> routers w !! roomId.

(* ===================================================================== *)
(** ** RoomService *)
(* ===================================================================== *)

(** [createRoom(roomName)]; [roomId] is the value of [uuidv4()]. *)
Definition createRoom (roomId roomName : string) (engine : result Router) (w : World)
    : result RoomInfo * World :=
  match createRouter roomId engine w with
  | (Ok r, w1) =>
      let room := {| room_id := roomId; room_name := roomName;
                     peers := JsMap.empty; router := r;
                     recording := {| isRecording := false; rr_recordingId := None;
                                     rr_startTime := None; rr_filePath := None |} |} in
      (Ok room, set_rooms (fun rs => JsMap.set rs roomId room) w1)
  | (Throw e, w1) => (Throw e, w1)
  end.

Definition getRoom (roomId : string) (w : World) : option RoomInfo :=
  JsMap.get (rooms w) roomId.

(** [getRoomByName]: the first room, in insertion order, with that name. *)
Definition getRoomByName (roomName : string) (w : World) : option RoomInfo :=
  List.find (fun room => String.eqb (room_name room) roomName) (JsMap.values (rooms w)).

Definition joinRoom (roomId peerId peerName : string) (w : World)
    : result PeerInfo * World :=
  match JsMap.get (rooms w) roomId with
  | None => (Throw ("Room " +:+ roomId +:+ " not found"), w)
  | Some room =>
      if JsMap.has (peers room) peerId
      then (Throw ("Peer " +:+ peerId +:+ " already in room"), w)
      else
        let peer := {| peer_id := peerId; peer_name := peerName;
                       transports := JsMap.empty; producers := JsMap.empty;
                       consumers := JsMap.empty |} in
        let room' := set_peers (fun ps => JsMap.set ps peerId peer) room in
        (Ok peer,
         log [PeerSet roomId peerId]
             (set_rooms (fun rs => JsMap.set rs roomId room') w))
  end.

(** The [close()] calls of [leaveRoom], in program order: transports, then
    producers, then consumers.  [close()] returns; it does not throw. *)
Definition closeAll (peer : PeerInfo) : list Effect :=
  map (fun t => TransportClose (transport_id t)) (JsMap.values (transports peer))
  ++ map (fun p => ProducerClose (producer_id p)) (JsMap.values (producers peer))
  ++ map (fun c => ConsumerClose (consumer_id c)) (JsMap.values (consumers peer)).

(** The loop of [closeRoom]: [leaveRoom] for every peer, in order. *)
Definition closeRoomLoop (leave : string -> World -> option (bool * World))
    : list PeerInfo -> World -> option World :=
  fix loop ps w :=
    match ps with
    | [] => Some w
    | p :: ps' =>
        match leave (peer_id p) w with
        | None => None
        | Some (_, w') => loop ps' w'
        end
    end.

(** [leaveRoom] and [closeRoom] call each other; [fuel] bounds the nesting
    ([None]: fuel exhausted).  [closeRoom] walks the peers of the room as
    they are when the loop starts; every iteration deletes the peer it
    visits. *)
Fixpoint leaveRoom_fuel (fuel : nat) (roomId peerId : string) (w : World)
    : option (bool * World) :=
  match fuel with
  | 0 => None
  | S fuel' =>
      match JsMap.get (rooms w) roomId with
      | None => Some (false, w)
      | Some room =>
          match JsMap.get (peers room) peerId with
          | None => Some (false, w)
          | Some peer =>
              let w1 := log (closeAll peer) w in
              let room' := set_peers (fun ps => JsMap.delete ps peerId) room in
              let w2 := log [PeerDelete roomId peerId]
                            (set_rooms (fun rs => JsMap.set rs roomId room') w1) in
              if Nat.eqb (JsMap.size (peers room')) 0 then
                match closeRoom_fuel fuel' roomId w2 with
                | None => None
                | Some (_, w3) => Some (true, w3)
                end
              else Some (true, w2)
          end
      end
  end
with closeRoom_fuel (fuel : nat) (roomId : string) (w : World)
    : option (bool * World) :=
  match fuel with
  | 0 => None
  | S fuel' =>
      match JsMap.get (rooms w) roomId with
      | None => Some (false, w)
      | Some room =>
          match closeRoomLoop (leaveRoom_fuel fuel' roomId)
                              (JsMap.values (peers room)) w with
          | None => None
          | Some w1 =>
              Some (true,
                    log [RoomDelete roomId]
                        (set_rooms (fun rs => JsMap.delete rs roomId)
                                   (removeRouter roomId w1)))
          end
      end
  end.

(** Two levels of nesting are all [leaveRoom] ever uses, three for
    [closeRoom] (see [leaveRoom_fuel_enough], [closeRoom_fuel_enough]). *)
Definition leaveRoom (roomId peerId : string) (w : World) : bool * World :=
  default (false, w) (leaveRoom_fuel 2 roomId peerId w).

Definition closeRoom (roomId : string) (w : World) : bool * World :=
  default (false, w) (closeRoom_fuel 3 roomId w).

Definition getPeer (roomId peerId : string) (w : World) : option PeerInfo :=
  match JsMap.get (rooms w) roomId with
  | Some room => JsMap.get (peers room) peerId
  | None => None
  end.

Definition getRoomPeers (roomId : string) (w : World) : list PeerInfo :=
  match JsMap.get (rooms w) roomId with
  | Some room => JsMap.values (peers room)
  | None => []
  end.

Definition getRoomPeersExcept (roomId excludePeerId : string) (w : World)
    : list PeerInfo :=
  match JsMap.get (rooms w) roomId with
  | None => []
  | Some room =>
      List.filter (fun peer => negb (String.eqb (peer_id peer) excludePeerId))
                  (JsMap.values (peers room))
  end.

(** [updateRoomRecordingStatus(roomId, isRecording, recordingId?, filePath?)];
    [now] is [new Date()]. *)
Definition updateRoomRecordingStatus (roomId : string) (isRec : bool)
    (recordingId filePath : option string) (now : nat) (w : World) : World :=
  match JsMap.get (rooms w) roomId with
  | Some room =>
      let rr := {| isRecording := isRec; rr_recordingId := recordingId;
                   rr_startTime := if isRec then Some now
                                   else rr_startTime (recording room);
                   rr_filePath := filePath |} in
      set_rooms (fun rs => JsMap.set rs roomId (set_recording rr room)) w
  | None => w
  end.

(** [room?.recording.isRecording || false] *)
Definition isRoomRecording (roomId : string) (w : World) : bool :=
  match JsMap.get (rooms w) roomId with
  | Some room => isRecording (recording room)
  | None => false
  end.

(** Replace one peer of one room in place ([peer.transports.set(...)] and
    the like mutate the object the registry holds). *)
Definition updatePeer (roomId peerId : string) (f : PeerInfo -> PeerInfo) (w : World)
    : World :=
  match JsMap.get (rooms w) roomId with
  | Some room =>
      match JsMap.get (peers room) peerId with
      | Some peer =>
          set_rooms (fun rs =>
            JsMap.set rs roomId
              (set_peers (fun ps => JsMap.set ps peerId (f peer)) room)) w
      | None => w
      end
  | None => w
  end.

(* ===================================================================== *)
(** ** RecordingService *)
(* ===================================================================== *)

(** How [startFFmpegRecording] ends: the ['start'] event, the ['error']
    event before any ['start'], or an exception while the command is
    built. *)
Inductive FfmpegStart :=
| FfmpegStarted
| FfmpegErrored (msg : string)
| FfmpegBuildThrows (msg : string).

(** [s.replace(/[:.]/g, '-')] *)
Fixpoint replaceColonDot (s : string) : string :=
  match s with
  | EmptyString => EmptyString
  | String c s' =>
      String (if (Ascii.eqb c ":" || Ascii.eqb c ".")%bool then "-"%char else c)
             (replaceColonDot s')
  end.

Definition set_status (st : RecordingStatus) (r : RecordingInfo) : RecordingInfo :=
  {| rec_id := rec_id r; rec_roomId := rec_roomId r; rec_filePath := rec_filePath r;
     rec_startTime := rec_startTime r; rec_endTime := rec_endTime r;
     rec_status := st; rec_participants := rec_participants r |}.

Definition set_endTime (t : nat) (r : RecordingInfo) : RecordingInfo :=
  {| rec_id := rec_id r; rec_roomId := rec_roomId r; rec_filePath := rec_filePath r;
     rec_startTime := rec_startTime r; rec_endTime := Some t;
     rec_status := rec_status r; rec_participants := rec_participants r |}.

(** *** [path.join] (Node's [path] module, POSIX flavour)

    [path.join(a, b)] puts a ['/'] between its non-empty arguments and
    normalises the result: empty and ['.'] segments go, a ['..'] segment
    takes the segment before it away (or stays, in a relative path that has
    nothing left to take), a trailing ['/'] is kept, and an empty result is
    ['.']. *)

(** The segments of [s] between ['/']; [cur] is the segment being read. *)
Fixpoint pathSegments (cur s : string) : list string :=
  match s with
  | EmptyString => [cur]
  | String c s' =>
      if Ascii.eqb c "/" then cur :: pathSegments "" s'
      else pathSegments (cur +:+ String c "") s'
  end.

(** One step of [normalizeString]; [acc] holds the segments kept so far,
    the last one first. *)
Definition normalizeSegment (allowAboveRoot : bool) (acc : list string) (seg : string)
    : list string :=
  if (String.eqb seg "" || String.eqb seg ".")%bool then acc
  else if String.eqb seg ".." then
    match acc with
    | last :: rest =>
        if String.eqb last ".."
        then (if allowAboveRoot then ".." :: acc else acc)
        else rest
    | [] => if allowAboveRoot then [".."] else []
    end
  else seg :: acc.

Fixpoint joinSegments (segs : list string) : string :=
  match segs with
  | [] => ""
  | [seg] => seg
  | seg :: segs' => seg +:+ "/" +:+ joinSegments segs'
  end.

Fixpoint endsWithSlash (s : string) : bool :=
  match s with
  | EmptyString => false
  | String c EmptyString => Ascii.eqb c "/"
  | String _ s' => endsWithSlash s'
  end.

Definition startsWithSlash (s : string) : bool :=
  match s with
  | String c _ => Ascii.eqb c "/"
  | EmptyString => false
  end.

(** [path.normalize(path)] *)
Definition path_normalize (path : string) : string :=
  if String.eqb path "" then "."
  else
    let isAbsolute := startsWithSlash path in
    let trailingSeparator := endsWithSlash path in
    let kept := fold_left (normalizeSegment (negb isAbsolute))
                          (pathSegments "" path) [] in
    let path' := joinSegments (rev kept) in
    if String.eqb path' "" then
      if isAbsolute then "/" else if trailingSeparator then "./" else "."
    else
      let path'' := if trailingSeparator then path' +:+ "/" else path' in
      if isAbsolute then "/" +:+ path'' else path''.

(** [path.join(a, b)] *)
Definition path_join (a b : string) : string :=
  if String.eqb a "" then
    if String.eqb b "" then "." else path_normalize b
  else if String.eqb b "" then path_normalize a
  else path_normalize (a +:+ "/" +:+ b).

Section Recording.
(** [mediasoupConfig.recording.outputPath] and [.format]; the
    configuration module is not part of the sources at hand. *)
Variable outputPath : string.
Variable format : string.

(** [path.join(outputPath, filename)] with
    [filename = `recording-${room.name}-${timestamp}.${format}`] and
    [timestamp = isoTime.replace(/[:.]/g, '-')]. *)
Definition recordingFilePath (roomName isoTime : string) : string :=
  path_join outputPath
    ("recording-" +:+ roomName +:+ "-" +:+ replaceColonDot isoTime +:+ "." +:+ format).

(** [startFFmpegRecording(recordingId, plainTransport, filePath)] *)
Definition startFFmpegRecording (recordingId : string) (plain : PlainTransport)
    (filePath : string) (outcome : FfmpegStart) (w : World) : result unit * World :=
  match outcome with
  | FfmpegStarted =>
      let command := {| ffmpeg_recordingId := recordingId;
                        ffmpeg_port := plain_port plain;
                        ffmpeg_output := filePath |} in
      (Ok tt,
       set_activeRecorders (insert recordingId command)
         (log [FfmpegRun recordingId (plain_port plain) filePath] w))
  | FfmpegErrored e =>
      (Throw e,
       set_activeRecorders (base.delete recordingId)
         (log [FfmpegRun recordingId (plain_port plain) filePath] w))
  | FfmpegBuildThrows e => (Throw e, w)
  end.

(** [startRecording(roomId)].  [recordingId] is [uuidv4()], [isoTime] is
    [new Date().toISOString()], [now] is [new Date()]; [plain] answers
    [createPlainTransport] and [outcome] tells how FFmpeg starts.  In the
    [catch] branch the code sets [status = 'failed'] on its local
    [recordingInfo], which is in no map, and rethrows. *)
Definition startRecording (roomId recordingId isoTime : string) (now : nat)
    (plain : result PlainTransport) (outcome : FfmpegStart) (w : World)
    : result RecordingInfo * World :=
  match getRoom roomId w with
  | None => (Throw ("Room " +:+ roomId +:+ " not found"), w)
  | Some room =>
      if isRoomRecording roomId w
      then (Throw ("Room " +:+ roomId +:+ " is already being recorded"), w)
      else
        let filePath := recordingFilePath (room_name room) isoTime in
        let recordingInfo :=
          {| rec_id := recordingId; rec_roomId := roomId; rec_filePath := filePath;
             rec_startTime := now; rec_endTime := None; rec_status := SRecording;
             rec_participants := JsMap.keys (peers room) |} in
        let w1 := log [PlainTransportCreate roomId] w in
        match plain with
        | Throw e => (Throw e, w1)
        | Ok plainTransport =>
            match startFFmpegRecording recordingId plainTransport filePath outcome w1 with
            | (Throw e, w2) => (Throw e, w2)
            | (Ok _, w2) =>
                let w3 := set_recordings
                            (fun rs => JsMap.set rs recordingId recordingInfo) w2 in
                (Ok recordingInfo,
                 updateRoomRecordingStatus roomId true (Some recordingId)
                                           (Some filePath) now w3)
            end
        end
  end.

(** [stopRecording(recordingId)]; [now] is [new Date()], [kill] answers
    [recorder.kill('SIGINT')] and is asked only when a recorder is
    registered. *)
Definition stopRecording (recordingId : string) (now : nat) (kill : result unit)
    (w : World) : result RecordingInfo * World :=
  match JsMap.get (recordings w) recordingId with
  | None => (Throw ("Recording " +:+ recordingId +:+ " not found"), w)
  | Some recording =>
      if decide (rec_status recording = SRecording) then
        let killed :=
          match activeRecorders w !! recordingId with
          | Some _ =>
              match kill with
              | Ok _ => Ok (set_activeRecorders (base.delete recordingId)
                              (log [FfmpegKill recordingId] w))
              | Throw e => Throw e
              end
          | None => Ok w
          end in
        match killed with
        | Ok w1 =>
            let recording' := set_status SStopped (set_endTime now recording) in
            let w2 := set_recordings
                        (fun rs => JsMap.set rs recordingId recording') w1 in
            (Ok recording',
             updateRoomRecordingStatus (rec_roomId recording) false None None now w2)
        | Throw e =>
            (Throw e,
             set_recordings
               (fun rs => JsMap.set rs recordingId (set_status SFailed recording))
               (log [FfmpegKill recordingId] w))
        end
      else (Throw ("Recording " +:+ recordingId +:+ " is not active"), w)
  end.

(** The ['end'] event of a started command. *)
Definition ffmpegEnd (recordingId : string) (w : World) : World :=
  let w1 := set_activeRecorders (base.delete recordingId) w in
  match JsMap.get (recordings w1) recordingId with
  | Some recording =>
      if decide (rec_status recording = SStopped)
      then set_recordings
             (fun rs => JsMap.set rs recordingId (set_status SCompleted recording)) w1
      else w1
  | None => w1
  end.

(** The ['error'] event of a started command. *)
Definition ffmpegError (recordingId : string) (w : World) : World :=
  set_activeRecorders (base.delete recordingId) w.

Definition getRecording (recordingId : string) (w : World) : option RecordingInfo :=
  JsMap.get (recordings w) recordingId.

Definition getAllRecordings (w : World) : list RecordingInfo :=
  JsMap.values (recordings w).

Definition getRoomRecordings (roomId : string) (w : World) : list RecordingInfo :=
  List.filter (fun r => String.eqb (rec_roomId r) roomId) (JsMap.values (recordings w)).

(** [deleteRecording(recordingId)]; [fileExists] answers
    [fs.existsSync].  The promise of the inner [stopRecording] is
    dropped, a rejection included. *)
Definition deleteRecording (recordingId : string) (now : nat) (kill : result unit)
    (fileExists : bool) (w : World) : bool * World :=
  match JsMap.get (recordings w) recordingId with
  | None => (false, w)
  | Some recording =>
      let w1 := if decide (rec_status recording = SRecording)
                then snd (stopRecording recordingId now kill w) else w in
      let w2 := if fileExists then log [FileUnlink (rec_filePath recording)] w1 else w1 in
      (true, set_recordings (fun rs => JsMap.delete rs recordingId) w2)
  end.
End Recording.

(* ===================================================================== *)
(** ** WebRTCGateway (signaling handlers) *)
(* ===================================================================== *)

(** [socket.data]: the peer id given at connection time and the room id
    set by a successful join.  The gateway's [peerSockets] map is written
    and never read; it is left out. *)
Record Socket := {
  data_peerId : string;
  data_roomId : option string;
}.

(** [handleConnection]; [peerId] is [uuidv4()]. *)
Definition handleConnection (peerId : string) : Socket :=
  {| data_peerId := peerId; data_roomId := None |}.

(** JavaScript truthiness of a string. *)
Definition truthy (s : string) : bool := negb (String.eqb s "").

Definition emit (tgt : Target) (msg : Message) (w : World) : World :=
  log [Emit tgt msg] w.

(** [handleDisconnect]: an implicit leave. *)
Definition handleDisconnect (socket : Socket) (w : World) : World :=
  match data_roomId socket with
  | Some roomId =>
      if (truthy roomId && truthy (data_peerId socket))%bool then
        let w1 := snd (leaveRoom roomId (data_peerId socket) w) in
        emit (ToRoomExcept roomId (data_peerId socket))
             (MPeerLeft (data_peerId socket)) w1
      else w
  | None => w
  end.

(** [handleJoin]; [newRoomId] and [engine] answer [uuidv4()] and the
    engine's router creation and are used only when no room has the
    name.  [socket.join(room.id)] is what lets [ToRoom] and [ToRoomExcept]
    emissions reach the socket; membership itself is not tracked. *)
Definition handleJoin (socket : Socket) (roomName peerName newRoomId : string)
    (engine : result Router) (w : World) : Socket * World :=
  let peerId := data_peerId socket in
  let fail e w := (socket, emit (ToSocket peerId) (MError e) w) in
  let found :=
    match getRoomByName roomName w with
    | Some room => (Ok room, w)
    | None => createRoom newRoomId roomName engine w
    end in
  match found with
  | (Throw e, w1) => fail e w1
  | (Ok room, w1) =>
      match joinRoom (room_id room) peerId peerName w1 with
      | (Throw e, w2) => fail e w2
      | (Ok peer, w2) =>
          let socket' := {| data_peerId := peerId;
                            data_roomId := Some (room_id room) |} in
          let rtpCapabilities := getRouterRtpCapabilities (room_id room) w2 in
          let w3 := emit (ToSocket peerId)
                         (MJoined peerId (room_id room) rtpCapabilities
                                  (isRecording (recording room))) w2 in
          let otherPeers := getRoomPeersExcept (room_id room) peerId w3 in
          let w4 := emit (ToRoomExcept (room_id room) peerId)
                         (MPeerJoined peerId peerName) w3 in
          (socket',
           emit (ToSocket peerId)
                (MExistingPeers (map (fun p => (peer_id p, peer_name p)) otherPeers))
                w4)
      end
  end.

(** [handleCreateTransport]; [engine] answers [createWebRtcTransport]. *)
Definition handleCreateTransport (socket : Socket) (peerId : string) (d : Direction)
    (engine : result Transport) (w : World) : World :=
  let fail e w := emit (ToSocket (data_peerId socket)) (MError e) w in
  match data_roomId socket ≫= fun roomId => pair roomId <$> getRoom roomId w with
  | None => fail "Room not found" w
  | Some (roomId, room) =>
      match getPeer roomId peerId w with
      | None => fail "Peer not found" w
      | Some peer =>
          let w1 := log [WebRtcTransportCreate roomId d] w in
          match engine with
          | Throw e => fail e w1
          | Ok transport =>
              let w2 := updatePeer roomId peerId (fun peer =>
                          {| peer_id := peer_id peer; peer_name := peer_name peer;
                             transports := JsMap.set (transports peer)
                                             (transport_id transport) transport;
                             producers := producers peer;
                             consumers := consumers peer |}) w1 in
              emit (ToSocket (data_peerId socket))
                   (MTransportCreated (transport_id transport)) w2
          end
      end
  end.

(** [handleProduce]; [engine] answers [transport.produce]. *)
Definition handleProduce (socket : Socket) (peerId transportId : string)
    (kind : MediaKind) (engine : result Producer) (w : World) : World :=
  let fail e w := emit (ToSocket (data_peerId socket)) (MError e) w in
  match data_roomId socket ≫= fun roomId => pair roomId <$> getPeer roomId peerId w with
  | None => fail "Peer not found" w
  | Some (roomId, peer) =>
      match JsMap.get (transports peer) transportId with
      | None => fail "Transport not found" w
      | Some transport =>
          match engine with
          | Throw e => fail e w
          | Ok producer =>
              let w1 := updatePeer roomId peerId (fun peer =>
                          {| peer_id := peer_id peer; peer_name := peer_name peer;
                             transports := transports peer;
                             producers := JsMap.set (producers peer)
                                            (producer_id producer) producer;
                             consumers := consumers peer |}) w in
              let w2 := emit (ToSocket (data_peerId socket))
                             (MProduced (producer_id producer)) w1 in
              emit (ToRoomExcept roomId (data_peerId socket))
                   (MNewProducer peerId (producer_id producer) kind) w2
          end
      end
  end.

(** [handleConsume]; [canConsume] answers [room.router.canConsume] and
    [engine] answers [recvTransport.consume]. *)
Definition handleConsume (socket : Socket) (peerId producerId : string)
    (canConsume : bool) (engine : result Consumer) (w : World) : World :=
  let fail e w := emit (ToSocket (data_peerId socket)) (MError e) w in
  match data_roomId socket ≫= fun roomId =>
        getRoom roomId w ≫= fun room =>
        getPeer roomId peerId w ≫= fun peer => Some (roomId, room, peer) with
  | None => fail "Room or peer not found" w
  | Some (roomId, room, peer) =>
      match List.find (fun p => JsMap.has (producers p) producerId)
                      (getRoomPeers roomId w) with
      | None => fail "Producer not found" w
      | Some producerPeer =>
          match JsMap.get (producers producerPeer) producerId with
          | None => fail "Producer not found" w
          | Some producer =>
              if negb canConsume then fail "Cannot consume" w
              else
                match List.find
                        (fun t => match transport_appData_direction t with
                                  | Some Recv => true
                                  | _ => false
                                  end)
                        (JsMap.values (transports peer)) with
                | None => fail "Receive transport not found" w
                | Some recvTransport =>
                    let w1 := log [ConsumerCreate (transport_id recvTransport)
                                                  (producer_id producer)] w in
                    match engine with
                    | Throw e => fail e w1
                    | Ok consumer =>
                        let w2 := updatePeer roomId peerId (fun peer =>
                                    {| peer_id := peer_id peer;
                                       peer_name := peer_name peer;
                                       transports := transports peer;
                                       producers := producers peer;
                                       consumers := JsMap.set (consumers peer)
                                                      (consumer_id consumer) consumer |})
                                    w1 in
                        emit (ToSocket (data_peerId socket))
                             (MConsumed (consumer_id consumer) (producer_id producer)
                                        (consumer_kind consumer)
                                        (consumer_rtpParameters consumer)) w2
                    end
                end
          end
      end
  end.

Section GatewayRecording.
Variable outputPath : string.
Variable format : string.

(** [handleStartRecording]; a socket that never joined has
    [socket.data.roomId === undefined]. *)
Definition handleStartRecording (socket : Socket) (recordingId isoTime : string)
    (now : nat) (plain : result PlainTransport) (outcome : FfmpegStart) (w : World)
    : World :=
  match data_roomId socket with
  | None =>
      emit (ToSocket (data_peerId socket)) (MError "Room undefined not found") w
  | Some roomId =>
      match startRecording outputPath format roomId recordingId isoTime now
                           plain outcome w with
      | (Ok recording, w1) =>
          emit (ToRoom roomId)
               (MRecordingStarted (rec_id recording) (rec_startTime recording)) w1
      | (Throw e, w1) => emit (ToSocket (data_peerId socket)) (MError e) w1
      end
  end.

(** [handleStopRecording] *)
Definition handleStopRecording (socket : Socket) (recordingId : string) (now : nat)
    (kill : result unit) (w : World) : World :=
  match stopRecording recordingId now kill w with
  | (Ok recording, w1) =>
      emit (ToRoom (rec_roomId recording))
           (MRecordingStopped (rec_id recording) (rec_endTime recording)
                              (rec_filePath recording)) w1
  | (Throw e, w1) => emit (ToSocket (data_peerId socket)) (MError e) w1
  end.
End GatewayRecording.

(* ===================================================================== *)
(** ** The client: participant list of the VideoCall component *)
(* ===================================================================== *)

Module Client.

Record PeerInfo := {
  peerInfo_id : string;
  peerInfo_name : string;
}.

Record RemoteStream := {
  stream_peerId : string;
  stream_kind : string;
  stream_name : string;
}.

(** The state of the component and of its [WebRTCClient]. *)
Record VideoCall := {
  participants : list PeerInfo;           (* useState<PeerInfo[]>([]) *)
  participantsRef : list PeerInfo;        (* useRef<PeerInfo[]>([]) *)
  localPeerId : option string;            (* useState<string | null>(null) *)
  recentlyProcessedPeers : gset string;   (* useRef<Set<string>>(new Set()) *)
  remoteStreams : JsMap.t RemoteStream;   (* useState<Map<string, RemoteStream>> *)
  client_peerId : option string;          (* WebRTCClient.peerId *)
}.

Definition initial : VideoCall :=
  {| participants := []; participantsRef := []; localPeerId := None;
     recentlyProcessedPeers := ∅; remoteStreams := JsMap.empty;
     client_peerId := None |}.

(** [Array.from(new Map(l.map(p => [p.id, p])).values())] *)
Definition dedupById (l : list PeerInfo) : list PeerInfo :=
  JsMap.values
    (fold_left (fun m p => JsMap.set m (peerInfo_id p) p) l JsMap.empty).

(** [!localPeerId]: [null] and the empty string are falsy. *)
Definition falsy (v : option string) : bool :=
  match v with
  | None => true
  | Some s => String.eqb s ""
  end.

(** [p.id !== localPeerId] *)
Definition differs (id : string) (v : option string) : bool :=
  match v with
  | None => true
  | Some s => negb (String.eqb id s)
  end.

Section Handlers.
(** The handlers are built once, inside [initializeWebRTC]; the
    [localPeerId] they mention is the constant of the render whose
    [initializeWebRTC] ran, not the current state. *)
Variable captured : option string.

(** [next.filter(p => p.id !== localPeerId)], the last step of
    [setParticipantsWithLogging]. *)
Definition safeguard (next : list PeerInfo) : list PeerInfo :=
  List.filter (fun p => differs (peerInfo_id p) captured) next.

Definition with_participants (ps : list PeerInfo) (s : VideoCall) : VideoCall :=
  {| participants := ps; participantsRef := participantsRef s;
     localPeerId := localPeerId s;
     recentlyProcessedPeers := recentlyProcessedPeers s;
     remoteStreams := remoteStreams s; client_peerId := client_peerId s |}.

(** [setParticipantsWithLogging(updater)]: the updater gets the
    current list; it may also touch the refs, so it returns the whole
    state next to the new list.  React applies queued updaters in the
    order of the calls; here each one runs at once. *)
Definition setParticipantsWithLogging
    (updater : list PeerInfo -> VideoCall -> list PeerInfo * VideoCall)
    (s : VideoCall) : VideoCall :=
  let (next, s') := updater (participants s) s in
  with_participants (safeguard next) s'.

(** The socket's ['joined']: [this.peerId = data.peerId] and
    [onJoined], which is [setLocalPeerId]. *)
Definition onJoined (peerId : string) (s : VideoCall) : VideoCall :=
  {| participants := participants s; participantsRef := participantsRef s;
     localPeerId := Some peerId;
     recentlyProcessedPeers := recentlyProcessedPeers s;
     remoteStreams := remoteStreams s; client_peerId := Some peerId |}.

Definition onPeerJoined (peer : PeerInfo) (s : VideoCall) : VideoCall :=
  if bool_decide (peerInfo_id peer ∈ recentlyProcessedPeers s) then s
  else
    setParticipantsWithLogging (fun prev s =>
      if falsy captured then (prev, s)
      else if negb (differs (peerInfo_id peer) captured) then (prev, s)
      else if existsb (fun p => String.eqb (peerInfo_id p) (peerInfo_id peer)) prev
      then (prev, s)
      else
        let deduped := dedupById (prev ++ [peer]) in
        (deduped,
         {| participants := participants s;
            participantsRef := deduped;
            localPeerId := localPeerId s;
            recentlyProcessedPeers :=
              {[ peerInfo_id peer ]} ∪ recentlyProcessedPeers s;
            remoteStreams :=
              map (fun '(key, stream) =>
                     if String.eqb (stream_peerId stream) (peerInfo_id peer)
                     then (key, {| stream_peerId := stream_peerId stream;
                                   stream_kind := stream_kind stream;
                                   stream_name := peerInfo_name peer |})
                     else (key, stream))
                  (remoteStreams s);
            client_peerId := client_peerId s |})) s.

(** The timer set when a peer is added: a second later its id leaves
    [recentlyProcessedPeers].  Time is not modelled: the expiry is an
    input that may come at any point. *)
Definition onRecentlyProcessedTimeout (peerId : string) (s : VideoCall) : VideoCall :=
  {| participants := participants s; participantsRef := participantsRef s;
     localPeerId := localPeerId s;
     recentlyProcessedPeers := recentlyProcessedPeers s ∖ {[ peerId ]};
     remoteStreams := remoteStreams s; client_peerId := client_peerId s |}.

Definition onParticipantList (peers : list PeerInfo) (s : VideoCall) : VideoCall :=
  let deduped := dedupById peers in
  let s1 := setParticipantsWithLogging (fun _ s => (deduped, s)) s in
  {| participants := participants s1; participantsRef := deduped;
     localPeerId := localPeerId s1;
     recentlyProcessedPeers := recentlyProcessedPeers s1;
     remoteStreams := remoteStreams s1; client_peerId := client_peerId s1 |}.

Definition onPeerLeft (peerId : string) (s : VideoCall) : VideoCall :=
  let s1 :=
    setParticipantsWithLogging (fun prev s =>
      let updated :=
        List.filter (fun p => negb (String.eqb (peerInfo_id p) peerId)) prev in
      (updated,
       {| participants := participants s; participantsRef := updated;
          localPeerId := localPeerId s;
          recentlyProcessedPeers := recentlyProcessedPeers s;
          remoteStreams := remoteStreams s;
          client_peerId := client_peerId s |})) s in
  {| participants := participants s1; participantsRef := participantsRef s1;
     localPeerId := localPeerId s1;
     recentlyProcessedPeers := recentlyProcessedPeers s1;
     remoteStreams :=
       List.filter (fun kv => negb (String.eqb (stream_peerId (snd kv)) peerId))
                   (remoteStreams s1);
     client_peerId := client_peerId s1 |}.

(** [onNewStream]: the stream is stored under [`${peerId}-${kind}`],
    named after the participant if [participantsRef] knows the peer and
    after the peer id otherwise.  The participant list is not touched. *)
Definition onNewStream (peerId kind : string) (s : VideoCall) : VideoCall :=
  let name :=
    match List.find (fun p => String.eqb (peerInfo_id p) peerId)
                    (participantsRef s) with
    | Some participant => peerInfo_name participant
    | None => peerId
    end in
  {| participants := participants s; participantsRef := participantsRef s;
     localPeerId := localPeerId s;
     recentlyProcessedPeers := recentlyProcessedPeers s;
     remoteStreams :=
       JsMap.set (remoteStreams s) (peerId +:+ "-" +:+ kind)
                 {| stream_peerId := peerId; stream_kind := kind;
                    stream_name := name |};
     client_peerId := client_peerId s |}.

(** What reaches the component: the socket events that [WebRTCClient]
    dispatches, the streams it announces, and the timer. *)
Inductive Input :=
| Joined (peerId : string)
| ExistingPeers (peers : list PeerInfo)
| PeerJoined (peer : PeerInfo)
| PeerLeft (peerId : string)
| ParticipantList (peers : list PeerInfo)
| NewStream (peerId kind : string)
| RecentlyProcessedTimeout (peerId : string).

(** [handleExistingPeers] calls [onPeerJoined] for each peer. *)
Definition dispatch (s : VideoCall) (i : Input) : VideoCall :=
  match i with
  | Joined peerId => onJoined peerId s
  | ExistingPeers peers => fold_left (fun s p => onPeerJoined p s) peers s
  | PeerJoined peer => onPeerJoined peer s
  | PeerLeft peerId => onPeerLeft peerId s
  | ParticipantList peers => onParticipantList peers s
  | NewStream peerId kind => onNewStream peerId kind s
  | RecentlyProcessedTimeout peerId => onRecentlyProcessedTimeout peerId s
  end.

Definition run (inputs : list Input) (s : VideoCall) : VideoCall :=
  fold_left dispatch inputs s.

(** The inputs the server of this repository produces (it never emits
    ['participantList']). *)
Definition fromGateway (i : Input) : bool :=
  match i with
  | ParticipantList _ => false
  | _ => true
  end.
End Handlers.

(** The component calls [initializeWebRTC] from its mount effect, whose
    closure is the one of the first render: [localPeerId] is [null]
    there. *)
Definition mountCaptured : option string := None.

(** No listed participant has the id the handlers captured. *)
Definition allDiffer (captured : option string) (s : VideoCall) : Prop :=
  ∀ p, In p (participants s) → differs (peerInfo_id p) captured = true.

End Client.

(* ===================================================================== *)
(** ** Vocabulary of the properties *)
(* ===================================================================== *)

(** What [w'] logged after [w]. *)
Definition newEffects (w w' : World) : list Effect :=
  drop (length (trace w)) (trace w').

(** [a] occurs in [l] before the first [b]. *)
Definition precedes (a b : Effect) (l : list Effect) : Prop :=
  ∃ l1 l2, l = l1 ++ b :: l2 ∧ In a l1 ∧ ¬ In b l1.

(** [closeRoom] on a room whose peer map is empty: the router goes, then
    the registry entry. *)
Definition teardown (roomId : string) (w : World) : World :=
  log [RoomDelete roomId]
      (set_rooms (fun rs => JsMap.delete rs roomId) (removeRouter roomId w)).

(** *** Sequences of joins and leaves on one room *)

Inductive RoomOp :=
| OpJoin (peerId peerName : string)
| OpLeave (peerId : string).

(** How many joins and leaves succeeded. *)
Record Tally := {
  joins : nat;
  leaves : nat;
}.

Definition noOps : Tally := {| joins := 0; leaves := 0 |}.

(** One call; a join counts when it returns, a leave when it returns
    [true]. *)
Definition applyOp (roomId : string) (s : World * Tally) (op : RoomOp) : World * Tally :=
  let (w, t) := s in
  match op with
  | OpJoin peerId peerName =>
      match joinRoom roomId peerId peerName w with
      | (Ok _, w') => (w', {| joins := S (joins t); leaves := leaves t |})
      | (Throw _, w') => (w', t)
      end
  | OpLeave peerId =>
      match leaveRoom roomId peerId w with
      | (true, w') => (w', {| joins := joins t; leaves := S (leaves t) |})
      | (false, w') => (w', t)
      end
  end.

Definition runOps (roomId : string) (ops : list RoomOp) (s : World * Tally)
    : World * Tally :=
  fold_left (applyOp roomId) ops s.

(** Since [w0]: the room is out of the registry, its router is out of the
    router registry and was closed. *)
Definition tornDown (roomId : string) (w0 w : World) : Prop :=
  getRoom roomId w = None ∧ routers w !! roomId = None ∧
  In (RouterClose roomId) (newEffects w0 w).

(** Since [w0]: the room and its router are registered and the router was
    not closed. *)
Definition registered (roomId : string) (w0 w : World) : Prop :=
  is_Some (getRoom roomId w) ∧ is_Some (routers w !! roomId) ∧
  ¬ In (RouterClose roomId) (newEffects w0 w).

(** The count came down to zero: some leave succeeded and as many leaves
    as joins did. *)
Definition reachedZero (t : Tally) : bool :=
  (0 <? leaves t) && (joins t - leaves t =? 0).

(** The world right after [room.peers.delete(peerId)]. *)
Definition afterPeerDelete (roomId peerId : string) (room : RoomInfo) (peer : PeerInfo)
    (w : World) : World :=
  log [PeerDelete roomId peerId]
      (set_rooms
         (fun rs => JsMap.set rs roomId
                      (set_peers (fun ps => JsMap.delete ps peerId) room))
         (log (closeAll peer) w)).

(** The room is not registered, or it is and the peer is not in its peer
    map. *)
Definition absent (roomId peerId : string) (w : World) : Prop :=
  getRoom roomId w = None ∨
  ∃ room, getRoom roomId w = Some room ∧ JsMap.get (peers room) peerId = None.

(** What holds of a room created in [w1] after any number of joins and
    leaves: it is registered with as many peers as joins minus leaves, or
    it was torn down when its last peer left. *)
Definition CountInv (roomId : string) (w1 : World) (s : World * Tally) : Prop :=
  let (w, t) := s in
  ∃ es, trace w = trace w1 ++ es ∧ leaves t ≤ joins t ∧
    ((∃ room, getRoom roomId w = Some room ∧ JsMap.wf (peers room) ∧
              JsMap.size (peers room) = joins t - leaves t ∧
              is_Some (routers w !! roomId) ∧
              ¬ In (RouterClose roomId) es ∧ reachedZero t = false)
     ∨ (getRoom roomId w = None ∧ routers w !! roomId = None ∧
        In (RouterClose roomId) es ∧ reachedZero t = true)).

(** *** Recording sessions and the states the services can be in *)

(** The sessions of a room that are stored with status ['recording']. *)
Definition activeRecordings (roomId : string) (w : World) : list RecordingInfo :=
  List.filter (fun r => bool_decide (rec_status r = SRecording))
              (getRoomRecordings roomId w).

(** [uuidv4()] returns an id that is new: no room has it and no stored
    recording remembers it. *)
Definition freshRoomId (roomId : string) (w : World) : Prop :=
  getRoom roomId w = None ∧
  ∀ id r, JsMap.get (recordings w) id = Some r → rec_roomId r ≠ roomId.

Section Reachability.
Variable outputPath : string.
Variable format : string.

(** One call of a service method, one mutation of a peer by a signaling
    handler, one batch of emissions, or one FFmpeg event; calls do not
    overlap. *)
Inductive step : World → World → Prop :=
| step_createRoom roomId roomName engine w :
    freshRoomId roomId w →
    step w (snd (createRoom roomId roomName engine w))
| step_joinRoom roomId peerId peerName w :
    step w (snd (joinRoom roomId peerId peerName w))
| step_leaveRoom roomId peerId w :
    step w (snd (leaveRoom roomId peerId w))
| step_closeRoom roomId w :
    step w (snd (closeRoom roomId w))
| step_updatePeer roomId peerId f w :
    step w (updatePeer roomId peerId f w)
| step_log es w :
    step w (log es w)
| step_startRecording roomId recordingId isoTime now plain outcome w :
    step w (snd (startRecording outputPath format roomId recordingId isoTime now
                                plain outcome w))
| step_stopRecording recordingId now kill w :
    step w (snd (stopRecording recordingId now kill w))
| step_deleteRecording recordingId now kill fileExists w :
    step w (snd (deleteRecording recordingId now kill fileExists w))
| step_ffmpegEnd recordingId w :
    step w (ffmpegEnd recordingId w)
| step_ffmpegError recordingId w :
    step w (ffmpegError recordingId w).

(** The states reached from the services' initial state. *)
Definition reachable (w : World) : Prop := rtc step emptyWorld w.
End Reachability.

(** The room-level mutex, as an invariant: a stored session with status
    ['recording'] has its room flagged (if the room is still registered),
    and no room has two such sessions. *)
Definition RecInv (w : World) : Prop :=
  JsMap.wf (recordings w) ∧
  (∀ id r room, JsMap.get (recordings w) id = Some r → rec_status r = SRecording →
                getRoom (rec_roomId r) w = Some room →
                isRecording (recording room) = true) ∧
  (∀ id1 id2 r1 r2,
     JsMap.get (recordings w) id1 = Some r1 → JsMap.get (recordings w) id2 = Some r2 →
     rec_status r1 = SRecording → rec_status r2 = SRecording →
     rec_roomId r1 = rec_roomId r2 → id1 = id2).

(** [w'] has the recordings of [w], and every room of [w'] is a room of
    [w] with the same recording state. *)
Definition sameFlags (w w' : World) : Prop :=
  recordings w' = recordings w ∧
  ∀ roomId room', getRoom roomId w' = Some room' →
                  ∃ room, getRoom roomId w = Some room ∧ recording room' = recording room.

(** *** Emissions *)

(** No emission in [l]. *)
Definition noEmissions (l : list Effect) : Prop := ∀ tgt msg, ¬ In (Emit tgt msg) l.

(** [peer.transports.set(transport.id, transport)] *)
Definition addTransport (transport : Transport) (peer : PeerInfo) : PeerInfo :=
  {| peer_id := peer_id peer; peer_name := peer_name peer;
     transports := JsMap.set (transports peer) (transport_id transport) transport;
     producers := producers peer; consumers := consumers peer |}.

(* ===================================================================== *)
(** ** A session used in the examples *)
(* ===================================================================== *)

Module Example.
Definition exRouter : Router := {| router_rtpCapabilities := "caps" |}.

(** Two connections. *)
Definition socketA : Socket := handleConnection "peer-a".
Definition socketB : Socket := handleConnection "peer-b".

(** Alice joins the unseen room "standup": it is created as "room-1". *)
Definition joinA : Socket * World :=
  handleJoin socketA "standup" "Alice" "room-1" (Ok exRouter) emptyWorld.
Definition socketA' : Socket := fst joinA.
Definition wA : World := snd joinA.

(** Bob joins the same room. *)
Definition joinB : Socket * World :=
  handleJoin socketB "standup" "Bob" "room-2" (Ok exRouter) wA.
Definition socketB' : Socket := fst joinB.
Definition wAB : World := snd joinB.

(** Engine objects marked with a direction.  What
    [createWebRtcTransport] returns carries no mark ([Example3]). *)
Definition sendTransport : Transport :=
  {| transport_id := "t-send"; transport_appData_direction := Some Send |}.
Definition sendTransport2 : Transport :=
  {| transport_id := "t-send-2"; transport_appData_direction := Some Send |}.
Definition recvTransport : Transport :=
  {| transport_id := "t-recv"; transport_appData_direction := Some Recv |}.
Definition videoProducer : Producer :=
  {| producer_id := "p1"; producer_kind := Video |}.
Definition ownConsumer : Consumer :=
  {| consumer_id := "c1"; consumer_kind := Video; consumer_producerId := "p1";
     consumer_rtpParameters := "rtp"; consumer_paused := true |}.

(** Alice gets a send transport, ... *)
Definition wSend : World :=
  handleCreateTransport socketA' "peer-a" Send (Ok sendTransport) wA.
(** ... asks for a second one, ... *)
Definition wSendTwice : World :=
  handleCreateTransport socketA' "peer-a" Send (Ok sendTransport2) wSend.
(** ... or gets a receive transport and produces video. *)
Definition wRecv : World :=
  handleCreateTransport socketA' "peer-a" Recv (Ok recvTransport) wSend.
Definition wProduced : World :=
  handleProduce socketA' "peer-a" "t-send" Video (Ok videoProducer) wRecv.
(** Alice asks to consume her own producer. *)
Definition wSelfConsumed : World :=
  handleConsume socketA' "peer-a" "p1" true (Ok ownConsumer) wProduced.

(** Recording in Alice's room: a start that works, and starts in which
    the plain transport or FFmpeg fails. *)
Definition isoTime : string := "2024-05-01T10:00:00.000Z".
Definition plain : PlainTransport := {| plain_id := "pt-1"; plain_port := 4004 |}.
Definition wRecording : World :=
  handleStartRecording "recordings" "mp4" socketA' "rec-1" isoTime 100
                       (Ok plain) FfmpegStarted wA.
Definition wStopped : World :=
  handleStopRecording socketA' "rec-1" 200 (Ok tt) wRecording.
Definition wNoPlainTransport : World :=
  handleStartRecording "recordings" "mp4" socketA' "rec-1" isoTime 100
                       (Throw "no port available") FfmpegStarted wA.
Definition wFfmpegFailed : World :=
  handleStartRecording "recordings" "mp4" socketA' "rec-1" isoTime 100
                       (Ok plain) (FfmpegErrored "ffmpeg exited with code 1") wA.

(** The values these runs produce. *)
Definition notRecording : RoomRecording :=
  {| isRecording := false; rr_recordingId := None; rr_startTime := None;
     rr_filePath := None |}.
Definition roomCreated : RoomInfo :=
  {| room_id := "room-1"; room_name := "standup"; peers := JsMap.empty;
     router := exRouter; recording := notRecording |}.
Definition wCreated : World :=
  snd (createRoom "room-1" "standup" (Ok exRouter) emptyWorld).
Definition aliceNew : PeerInfo :=
  {| peer_id := "peer-a"; peer_name := "Alice"; transports := JsMap.empty;
     producers := JsMap.empty; consumers := JsMap.empty |}.
Definition aliceWithSend : PeerInfo := addTransport sendTransport aliceNew.
Definition aliceFull : PeerInfo :=
  {| peer_id := "peer-a"; peer_name := "Alice";
     transports := [("t-send", sendTransport); ("t-recv", recvTransport)];
     producers := [("p1", videoProducer)];
     consumers := [("c1", ownConsumer)] |}.
Definition roomFull : RoomInfo :=
  {| room_id := "room-1"; room_name := "standup";
     peers := [("peer-a", aliceFull)];
     router := exRouter; recording := notRecording |}.
Definition session : RecordingInfo :=
  {| rec_id := "rec-1"; rec_roomId := "room-1";
     rec_filePath := "recordings/recording-standup-2024-05-01T10-00-00-000Z.mp4";
     rec_startTime := 100; rec_endTime := None; rec_status := SRecording;
     rec_participants := ["peer-a"] |}.
Definition stoppedSession : RecordingInfo :=
  set_status SStopped (set_endTime 200 session).

(** Joins and leaves on the room "room-1": two joins succeed, a third
    repeats a peer, a leave names a stranger, two leaves succeed and
    empty the room, and a late join finds no room. *)
Definition ops : list RoomOp :=
  [OpJoin "peer-a" "Alice"; OpJoin "peer-b" "Bob"; OpJoin "peer-a" "Again";
   OpLeave "peer-c"; OpLeave "peer-a"; OpLeave "peer-b"; OpJoin "peer-d" "Dan"].
Definition wFinal : World := fst (runOps "room-1" ops (wCreated, noOps)).

(** What the client of "me" may receive, in an order the gateway does
    not produce: a delta before the acknowledgement, the snapshot, deltas
    naming "me". *)
Definition bob : Client.PeerInfo :=
  {| Client.peerInfo_id := "bob"; Client.peerInfo_name := "Bob" |}.
Definition me : Client.PeerInfo :=
  {| Client.peerInfo_id := "me"; Client.peerInfo_name := "Me" |}.
Definition inputs : list Client.Input :=
  [Client.PeerJoined bob; Client.PeerJoined me; Client.Joined "me";
   Client.ExistingPeers [bob; me]; Client.PeerJoined me;
   Client.RecentlyProcessedTimeout "bob"; Client.PeerJoined bob;
   Client.PeerLeft "bob"; Client.PeerJoined bob].
End Example.

(* ===================================================================== *)
(** ** More of the services *)
(* ===================================================================== *)

(** [getAllRooms()] *)
Definition getAllRooms (w : World) : list RoomInfo := JsMap.values (rooms w).

(** [getRouter(roomId)] *)
Definition getRouter (roomId : string) (w : World) : option Router :=
  routers w !! roomId.

(** What [getRecordingStats()] returns. *)
Record RecordingStats := {
  stats_total : nat;
  stats_active : nat;
  stats_completed : nat;
  stats_failed : nat;
  stats_recordings : list RecordingInfo;
}.

(** [Array.from(this.recordings.values()).filter(r => r.status === st).length] *)
Definition countStatus (st : RecordingStatus) (w : World) : nat :=
  length (List.filter (fun r => bool_decide (rec_status r = st))
                      (JsMap.values (recordings w))).

Definition getRecordingStats (w : World) : RecordingStats :=
  {| stats_total := JsMap.size (recordings w);
     stats_active := countStatus SRecording w;
     stats_completed := countStatus SCompleted w;
     stats_failed := countStatus SFailed w;
     stats_recordings := JsMap.values (recordings w) |}.

(* ===================================================================== *)
(** ** More vocabulary *)
(* ===================================================================== *)

(** Every peer of the room sits under its own id, once. *)
Definition keyedPeers (room : RoomInfo) : Prop :=
  JsMap.wf (peers room) ∧ ∀ k p, In (k, p) (peers room) → peer_id p = k.

(** Rooms and routers go together: a room is registered exactly when a
    router is registered under its id, and that router is the room's. *)
Definition RouterInv (w : World) : Prop :=
  (∀ roomId room, getRoom roomId w = Some room →
                  routers w !! roomId = Some (router room)) ∧
  (∀ roomId, is_Some (routers w !! roomId) → is_Some (getRoom roomId w)).

(** The close calls and the removal that [leaveRoom] logs for one peer. *)
Definition departure (roomId : string) (peer : PeerInfo) : list Effect :=
  closeAll peer ++ [PeerDelete roomId (peer_id peer)].

(** No [':'] and no ['.'] in the string. *)
Fixpoint noColonDot (s : string) : bool :=
  match s with
  | EmptyString => true
  | String c s' =>
      negb (Ascii.eqb c ":" || Ascii.eqb c ".")%bool && noColonDot s'
  end.

(** The ids of a list of participants. *)
Definition ids (l : list Client.PeerInfo) : list string :=
  map Client.peerInfo_id l.

(** How [handleJoin] comes by its room: found by name, or created. *)
Definition foundOrCreated (roomName newRoomId : string) (engine : result Router)
    (w : World) (room : RoomInfo) (w1 : World) : Prop :=
  (getRoomByName roomName w = Some room ∧ w1 = w) ∨
  (getRoomByName roomName w = None ∧
   createRoom newRoomId roomName engine w = (Ok room, w1)).

(** The three emissions of a successful [handleJoin], on the world [w2]
    that [joinRoom] returned. *)
Definition joinEmissions (peerId peerName : string) (room : RoomInfo) (w2 : World)
    : World :=
  emit (ToSocket peerId)
       (MExistingPeers (map (fun p => (peer_id p, peer_name p))
                            (getRoomPeersExcept (room_id room) peerId w2)))
    (emit (ToRoomExcept (room_id room) peerId) (MPeerJoined peerId peerName)
       (emit (ToSocket peerId)
             (MJoined peerId (room_id room)
                      (getRouterRtpCapabilities (room_id room) w2)
                      (isRecording (recording room))) w2)).

(** [peer.producers.set(producer.id, producer)] *)
Definition addProducer (producer : Producer) (peer : PeerInfo) : PeerInfo :=
  {| peer_id := peer_id peer; peer_name := peer_name peer;
     transports := transports peer;
     producers := JsMap.set (producers peer) (producer_id producer) producer;
     consumers := consumers peer |}.

(** [peer.consumers.set(consumer.id, consumer)] *)
Definition addConsumer (consumer : Consumer) (peer : PeerInfo) : PeerInfo :=
  {| peer_id := peer_id peer; peer_name := peer_name peer;
     transports := transports peer; producers := producers peer;
     consumers := JsMap.set (consumers peer) (consumer_id consumer) consumer |}.

(** [t.appData?.direction === 'recv'] *)
Definition isRecv (t : Transport) : bool :=
  match transport_appData_direction t with
  | Some Recv => true
  | _ => false
  end.

(** Some peer of the room holds the producer. *)
Definition producerInRoom (roomId producerId : string) (w : World) : Prop :=
  ∃ p, In p (getRoomPeers roomId w) ∧ JsMap.has (producers p) producerId = true.

(** The session that [startRecording] builds. *)
Definition newSession (outputPath format roomId recordingId isoTime : string)
    (now : nat) (room : RoomInfo) : RecordingInfo :=
  {| rec_id := recordingId; rec_roomId := roomId;
     rec_filePath := recordingFilePath outputPath format (room_name room) isoTime;
     rec_startTime := now; rec_endTime := None; rec_status := SRecording;
     rec_participants := JsMap.keys (peers room) |}.

(** [stopRecording] gets past [recorder.kill]: no recorder is registered,
    or the kill returns. *)
Definition killPasses (recordingId : string) (kill : result unit) (w : World) : Prop :=
  activeRecorders w !! recordingId = None ∨ is_throw kill = false.

(** Entries sit under the id of their value. *)
Definition keyedC (m : JsMap.t Client.PeerInfo) : Prop :=
  ∀ k p, In (k, p) m → Client.peerInfo_id p = k.

(** The [Map] that [dedupById] builds, started from [m]. *)
Definition insertAll (l : list Client.PeerInfo) (m : JsMap.t Client.PeerInfo)
    : JsMap.t Client.PeerInfo :=
  fold_left (fun m p => JsMap.set m (Client.peerInfo_id p) p) l m.

(** The key under which [onNewStream] stores a stream. *)
Definition streamKey (peerId kind : string) : string := peerId +:+ "-" +:+ kind.

(* ===================================================================== *)
(** ** The example session, continued *)
(* ===================================================================== *)

Module Example2.
Import Example.

Definition bobNew : PeerInfo :=
  {| peer_id := "peer-b"; peer_name := "Bob"; transports := JsMap.empty;
     producers := JsMap.empty; consumers := JsMap.empty |}.

(** The room "standup" with Alice alone, and with Alice and Bob. *)
Definition roomA : RoomInfo :=
  {| room_id := "room-1"; room_name := "standup"; peers := [("peer-a", aliceNew)];
     router := exRouter; recording := notRecording |}.
Definition roomAB : RoomInfo :=
  {| room_id := "room-1"; room_name := "standup";
     peers := [("peer-a", aliceNew); ("peer-b", bobNew)];
     router := exRouter; recording := notRecording |}.

(** Alice, with Bob in the room, gets a send transport and produces video;
    Bob gets a receive transport and consumes it. *)
Definition wAliceSends : World :=
  handleCreateTransport socketA' "peer-a" Send (Ok sendTransport) wAB.
Definition wAliceProduces : World :=
  handleProduce socketA' "peer-a" "t-send" Video (Ok videoProducer) wAliceSends.
Definition recvTransportB : Transport :=
  {| transport_id := "t-recv-b"; transport_appData_direction := Some Recv |}.
Definition wBobReceives : World :=
  handleCreateTransport socketB' "peer-b" Recv (Ok recvTransportB) wAliceProduces.
Definition bobConsumer : Consumer :=
  {| consumer_id := "c-b"; consumer_kind := Video; consumer_producerId := "p1";
     consumer_rtpParameters := "rtp"; consumer_paused := true |}.
Definition wBobConsumes : World :=
  handleConsume socketB' "peer-b" "p1" true (Ok bobConsumer) wBobReceives.

Definition aliceSending : PeerInfo := addTransport sendTransport aliceNew.
Definition aliceProducing : PeerInfo := addProducer videoProducer aliceSending.
Definition bobReceiving : PeerInfo := addTransport recvTransportB bobNew.

(** Alice asks to join "standup" a second time. *)
Definition wJoinedTwice : World :=
  snd (handleJoin socketA' "standup" "Alice" "room-3" (Ok exRouter) wA).

(** A list of participants with a repeated id. *)
Definition bobAgain : Client.PeerInfo :=
  {| Client.peerInfo_id := "bob"; Client.peerInfo_name := "Robert" |}.
End Example2.

(* ===================================================================== *)
(** ** The transports the gateway stores *)
(* ===================================================================== *)

(** [createWebRtcTransport(router, direction)]; [engine] answers
    [router.createWebRtcTransport(options)] with the id of the new
    transport.  The options the code builds ([listenIps], [enableUdp],
    [enableTcp], [preferUdp] and one bitrate) have no [appData], so the
    transport carries the engine's default, an empty [appData]:
    [transport.appData.direction] is [undefined], whatever [direction]
    was. *)
Definition createWebRtcTransport (direction : Direction) (engine : result string)
    : result Transport :=
  match engine with
  | Ok id => Ok {| transport_id := id; transport_appData_direction := None |}
  | Throw e => Throw e
  end.

(** No transport held by a peer carries a direction. *)
Definition Untagged (w : World) : Prop :=
  ∀ roomId peerId peer t,
    getPeer roomId peerId w = Some peer →
    In t (JsMap.values (transports peer)) → transport_appData_direction t = None.

(** Every peer of [w'] is a peer of [w], unchanged. *)
Definition noNewPeer (w w' : World) : Prop :=
  ∀ roomId peerId peer,
    getPeer roomId peerId w' = Some peer → getPeer roomId peerId w = Some peer.

(* ===================================================================== *)
(** ** Calls that overlap *)
(* ===================================================================== *)

Section Phases.
Variable outputPath : string.
Variable format : string.

(** [startRecording] up to its first [await] (lines 33-58): the two
    checks, the session object, and the request for the plain transport.
    The state is not written. *)
Definition startRecording_begin (roomId recordingId isoTime : string) (now : nat)
    (w : World) : result RecordingInfo * World :=
  match getRoom roomId w with
  | None => (Throw ("Room " +:+ roomId +:+ " not found"), w)
  | Some room =>
      if isRoomRecording roomId w
      then (Throw ("Room " +:+ roomId +:+ " is already being recorded"), w)
      else (Ok (newSession outputPath format roomId recordingId isoTime now room),
            log [PlainTransportCreate roomId] w)
  end.

(** [startRecording] from the answer of [createPlainTransport] on (lines
    58-81): FFmpeg is started and, once it has, the session is stored and
    the room flagged.  [recordingInfo] is the object built before the
    [await]; the room is not looked at again.  [now] is the [new Date()] of
    [updateRoomRecordingStatus]. *)
Definition startRecording_resume (recordingInfo : RecordingInfo) (now : nat)
    (plain : result PlainTransport) (outcome : FfmpegStart) (w : World)
    : result RecordingInfo * World :=
  match plain with
  | Throw e => (Throw e, w)
  | Ok plainTransport =>
      match startFFmpegRecording (rec_id recordingInfo) plainTransport
                                 (rec_filePath recordingInfo) outcome w with
      | (Throw e, w2) => (Throw e, w2)
      | (Ok _, w2) =>
          let w3 := set_recordings
                      (fun rs => JsMap.set rs (rec_id recordingInfo) recordingInfo) w2 in
          (Ok recordingInfo,
           updateRoomRecordingStatus (rec_roomId recordingInfo) true
                                     (Some (rec_id recordingInfo))
                                     (Some (rec_filePath recordingInfo)) now w3)
      end
  end.

(** What the gateway and the services do to the state between two
    [await]s: a synchronous service call, the storing of an engine object
    that a handler awaited, a stretch of [startRecording], a log entry or
    an FFmpeg event.  Handlers that overlap interleave such steps.  The
    handlers of [connectTransport], [resumeConsumer], [getRoomStats] and
    [getRecordings] write no map; what they emit is a log entry. *)
Inductive serves : World → World → Prop :=
| serves_createRoom roomId roomName engine w :
    serves w (snd (createRoom roomId roomName engine w))
| serves_joinRoom roomId peerId peerName w :
    serves w (snd (joinRoom roomId peerId peerName w))
| serves_leaveRoom roomId peerId w :
    serves w (snd (leaveRoom roomId peerId w))
| serves_closeRoom roomId w :
    serves w (snd (closeRoom roomId w))
| serves_storeTransport roomId peerId d engine transport w :
    createWebRtcTransport d engine = Ok transport →
    serves w (updatePeer roomId peerId (addTransport transport) w)
| serves_storeProducer roomId peerId producer w :
    serves w (updatePeer roomId peerId (addProducer producer) w)
| serves_storeConsumer roomId peerId consumer w :
    serves w (updatePeer roomId peerId (addConsumer consumer) w)
| serves_log es w :
    serves w (log es w)
| serves_startRecording_resume recordingInfo now plain outcome w :
    serves w (snd (startRecording_resume recordingInfo now plain outcome w))
| serves_stopRecording recordingId now kill w :
    serves w (snd (stopRecording recordingId now kill w))
| serves_deleteRecording recordingId now kill fileExists w :
    serves w (snd (deleteRecording recordingId now kill fileExists w))
| serves_ffmpegEnd recordingId w :
    serves w (ffmpegEnd recordingId w)
| serves_ffmpegError recordingId w :
    serves w (ffmpegError recordingId w).

(** The states the server can be in. *)
Definition served (w : World) : Prop := rtc serves emptyWorld w.
End Phases.

Definition isFfmpegRun (e : Effect) : bool :=
  match e with
  | FfmpegRun _ _ _ => true
  | _ => false
  end.

(** Two [startRecording] requests for Alice's and Bob's room, the
    second one handled while the first awaits its plain transport. *)
Module Overlap.
Import Example Example2.

Definition plainB : PlainTransport := {| plain_id := "pt-2"; plain_port := 4006 |}.
Definition isoTimeB : string := "2024-05-01T10:00:00.050Z".

Definition beginA : result RecordingInfo * World :=
  startRecording_begin "recordings" "mp4" "room-1" "rec-1" isoTime 100 wAB.
Definition beginB : result RecordingInfo * World :=
  startRecording_begin "recordings" "mp4" "room-1" "rec-2" isoTimeB 101 (snd beginA).

Definition sessionA : RecordingInfo :=
  {| rec_id := "rec-1"; rec_roomId := "room-1";
     rec_filePath := "recordings/recording-standup-2024-05-01T10-00-00-000Z.mp4";
     rec_startTime := 100; rec_endTime := None; rec_status := SRecording;
     rec_participants := ["peer-a"; "peer-b"] |}.
Definition sessionB : RecordingInfo :=
  {| rec_id := "rec-2"; rec_roomId := "room-1";
     rec_filePath := "recordings/recording-standup-2024-05-01T10-00-00-050Z.mp4";
     rec_startTime := 101; rec_endTime := None; rec_status := SRecording;
     rec_participants := ["peer-a"; "peer-b"] |}.

Definition resumeA : result RecordingInfo * World :=
  startRecording_resume sessionA 102 (Ok plain) FfmpegStarted (snd beginB).
Definition resumeB : result RecordingInfo * World :=
  startRecording_resume sessionB 103 (Ok plainB) FfmpegStarted (snd resumeA).

(** Both are recording. *)
Definition wBoth : World := snd resumeB.

(** The first session is stopped, and a third request comes in, alone. *)
Definition wOneStopped : World := snd (stopRecording "rec-1" 200 (Ok tt) wBoth).
Definition startC : result RecordingInfo * World :=
  startRecording "recordings" "mp4" "room-1" "rec-3" "2024-05-01T10:05:00.000Z" 300
                 (Ok plain) FfmpegStarted wOneStopped.
End Overlap.

(* ===================================================================== *)
(** ** The client, started again *)
(* ===================================================================== *)

(** [initializeWebRTC], as far as the participant list goes: a new
    [WebRTCClient] is made and the handlers given to it are closures of the
    render that runs the function, so the [localPeerId] they mention is the
    state of that render.  The function runs from the mount effect and from
    the start button, which is on screen as long as [hasStarted] is false:
    while the first run is still starting the camera, and for good when a
    run has failed. *)
Definition initializeWebRTC (s : Client.VideoCall) : option string * Client.VideoCall :=
  (Client.localPeerId s,
   {| Client.participants := Client.participants s;
      Client.participantsRef := Client.participantsRef s;
      Client.localPeerId := Client.localPeerId s;
      Client.recentlyProcessedPeers := Client.recentlyProcessedPeers s;
      Client.remoteStreams := Client.remoteStreams s;
      Client.client_peerId := None |}).

(** The component is mounted and its client gets [first]; the start
    button is clicked and the new client gets [second]. *)
Definition mountThenClick (first second : list Client.Input) : Client.VideoCall :=
  let s1 := Client.run Client.mountCaptured first Client.initial in
  let (captured, s2) := initializeWebRTC s1 in
  Client.run captured second s2.

Module Retry.
Definition me1 : Client.PeerInfo :=
  {| Client.peerInfo_id := "me-1"; Client.peerInfo_name := "Me" |}.
Definition me2 : Client.PeerInfo :=
  {| Client.peerInfo_id := "me-2"; Client.peerInfo_name := "Me" |}.

(** The first connection is given the id "me-1"; the second, after the
    click, the id "me-2", and then hears of a peer "me-2". *)
Definition retried : Client.VideoCall :=
  mountThenClick [Client.Joined "me-1"]
                 [Client.Joined "me-2"; Client.PeerJoined me2].
End Retry.

(** Alice's session with the transports as [createWebRtcTransport] makes
    them: she gets a send and a receive transport, produces video and asks
    to consume it. *)
Module Example3.
Import Example.

Definition wSend : World :=
  handleCreateTransport socketA' "peer-a" Send
                        (createWebRtcTransport Send (Ok "t-send")) wA.
Definition wRecv : World :=
  handleCreateTransport socketA' "peer-a" Recv
                        (createWebRtcTransport Recv (Ok "t-recv")) wSend.
Definition wProduced : World :=
  handleProduce socketA' "peer-a" "t-send" Video (Ok videoProducer) wRecv.
Definition wAsked : World :=
  handleConsume socketA' "peer-a" "p1" true (Ok ownConsumer) wProduced.

Definition alice : PeerInfo :=
  {| peer_id := "peer-a"; peer_name := "Alice";
     transports :=
       [("t-send", {| transport_id := "t-send"; transport_appData_direction := None |});
        ("t-recv", {| transport_id := "t-recv"; transport_appData_direction := None |})];
     producers := [("p1", videoProducer)];
     consumers := JsMap.empty |}.
End Example3.

(* ===================================================================== *)
(** ** Insertion-ordered maps: lemmas *)
(* ===================================================================== *)

Section JsMapFacts.
Context {V : Type}.
Implicit Types (m : JsMap.t V) (k : string) (v : V).

Lemma eqb_refl_s k : String.eqb k k = true.
Proof. apply String.eqb_refl. Qed.

Lemma eqb_ne k k' : k ≠ k' → String.eqb k k' = false.
Proof. intros H. by apply String.eqb_neq. Qed.

Lemma get_set_eq m k v : JsMap.get (JsMap.set m k v) k = Some v.
Proof.
  induction m as [|[k' v'] m IH]; simpl.
  - by rewrite eqb_refl_s.
  - destruct (String.eqb k' k) eqn:E; simpl.
    + by rewrite eqb_refl_s.
    + by rewrite E.
Qed.

Lemma get_set_ne m k k' v : k ≠ k' → JsMap.get (JsMap.set m k v) k' = JsMap.get m k'.
Proof.
  intros Hne. induction m as [|[k0 v0] m IH]; simpl.
  - by rewrite eqb_ne.
  - destruct (String.eqb k0 k) eqn:E; simpl.
    + apply String.eqb_eq in E as ->. by rewrite !eqb_ne.
    + by rewrite IH.
Qed.

Lemma get_delete_eq m k : JsMap.get (JsMap.delete m k) k = None.
Proof.
  induction m as [|[k' v'] m IH]; simpl; [done|].
  destruct (String.eqb k' k) eqn:E; simpl; [done|]. by rewrite E.
Qed.

Lemma get_delete_ne m k k' : k ≠ k' → JsMap.get (JsMap.delete m k) k' = JsMap.get m k'.
Proof.
  intros Hne. induction m as [|[k0 v0] m IH]; simpl; [done|].
  destruct (String.eqb k0 k) eqn:E; simpl.
  - apply String.eqb_eq in E as ->. by rewrite eqb_ne.
  - by rewrite IH.
Qed.

Lemma get_None_keys m k : JsMap.get m k = None ↔ ¬ In k (JsMap.keys m).
Proof.
  induction m as [|[k' v'] m IH]; simpl; [tauto|].
  destruct (String.eqb k' k) eqn:E.
  - apply String.eqb_eq in E as ->. split; [done|]. intros H. destruct H. by left.
  - apply String.eqb_neq in E. rewrite IH. tauto.
Qed.

Lemma get_Some_In m k v : JsMap.get m k = Some v → In (k, v) m.
Proof.
  induction m as [|[k' v'] m IH]; simpl; [done|].
  destruct (String.eqb k' k) eqn:E.
  - apply String.eqb_eq in E as ->. intros [= ->]. by left.
  - intros H. right. by apply IH.
Qed.

Lemma In_get_wf m k v : JsMap.wf m → In (k, v) m → JsMap.get m k = Some v.
Proof.
  unfold JsMap.wf. induction m as [|[k' v'] m IH]; simpl; [done|].
  intros Hnd [Heq|Hin].
  - injection Heq as -> ->. by rewrite eqb_refl_s.
  - apply NoDup_cons_1_1 in Hnd as Hnot. apply NoDup_cons_1_2 in Hnd.
    destruct (String.eqb k' k) eqn:E.
    + apply String.eqb_eq in E as ->. exfalso. apply Hnot.
      apply list_elem_of_In. change k with (fst (k, v)). by apply in_map.
    + by apply IH.
Qed.

Lemma size_set_absent m k v :
  JsMap.get m k = None → JsMap.size (JsMap.set m k v) = S (JsMap.size m).
Proof.
  unfold JsMap.size. induction m as [|[k' v'] m IH]; simpl; [done|].
  destruct (String.eqb k' k) eqn:E; [done|]. simpl. intros H. by rewrite IH.
Qed.

Lemma size_set_present m k v :
  is_Some (JsMap.get m k) → JsMap.size (JsMap.set m k v) = JsMap.size m.
Proof.
  unfold JsMap.size. induction m as [|[k' v'] m IH]; simpl.
  - by intros [? ?].
  - destruct (String.eqb k' k) eqn:E; [done|]. simpl. intros H. by rewrite IH.
Qed.

Lemma delete_absent m k : JsMap.get m k = None → JsMap.delete m k = m.
Proof.
  induction m as [|[k' v'] m IH]; simpl; [done|].
  destruct (String.eqb k' k) eqn:E; [done|]. intros H. by rewrite IH.
Qed.

Lemma size_delete_present m k :
  JsMap.wf m → is_Some (JsMap.get m k) →
  S (JsMap.size (JsMap.delete m k)) = JsMap.size m.
Proof.
  unfold JsMap.wf, JsMap.size. induction m as [|[k' v'] m IH]; simpl.
  - by intros _ [? ?].
  - intros Hnd Hs. apply NoDup_cons_1_1 in Hnd as Hnot. apply NoDup_cons_1_2 in Hnd.
    destruct (String.eqb k' k) eqn:E.
    + apply String.eqb_eq in E as ->. rewrite delete_absent; [done|].
      apply get_None_keys. intros Hin. apply Hnot. by apply list_elem_of_In.
    + simpl. by rewrite IH.
Qed.

Lemma keys_set_present m k v :
  is_Some (JsMap.get m k) → JsMap.keys (JsMap.set m k v) = JsMap.keys m.
Proof.
  unfold JsMap.keys. induction m as [|[k' v'] m IH]; simpl.
  - by intros [? ?].
  - destruct (String.eqb k' k) eqn:E; simpl.
    + apply String.eqb_eq in E as ->. done.
    + intros H. by rewrite IH.
Qed.

Lemma keys_set_absent m k v :
  JsMap.get m k = None → JsMap.keys (JsMap.set m k v) = JsMap.keys m ++ [k].
Proof.
  unfold JsMap.keys. induction m as [|[k' v'] m IH]; simpl; [done|].
  destruct (String.eqb k' k) eqn:E; [done|]. simpl. intros H. by rewrite IH.
Qed.

Lemma wf_empty : JsMap.wf (@JsMap.empty V).
Proof. apply NoDup_nil_2. Qed.

Lemma wf_set m k v : JsMap.wf m → JsMap.wf (JsMap.set m k v).
Proof.
  unfold JsMap.wf. intros Hwf.
  destruct (JsMap.get m k) eqn:E.
  - by rewrite keys_set_present.
  - rewrite keys_set_absent by done. apply NoDup_app. split_and!; [done| |].
    + intros x Hx Hx'. apply list_elem_of_singleton in Hx' as ->.
      apply get_None_keys in E. apply E. by apply list_elem_of_In.
    + apply NoDup_singleton.
Qed.

Lemma keys_delete m k : JsMap.keys (JsMap.delete m k) =
                        List.filter (fun k' => negb (String.eqb k' k)) (JsMap.keys m).
Proof.
  unfold JsMap.keys. induction m as [|[k' v'] m IH]; simpl; [done|].
  destruct (String.eqb k' k) eqn:E; simpl; by rewrite IH.
Qed.

Lemma wf_delete m k : JsMap.wf m → JsMap.wf (JsMap.delete m k).
Proof.
  unfold JsMap.wf. rewrite keys_delete. intros H.
  apply NoDup_ListNoDup. apply List.NoDup_filter. by apply NoDup_ListNoDup.
Qed.

Lemma size_0_empty m : JsMap.size m = 0 → m = [].
Proof. by destruct m. Qed.
End JsMapFacts.

(* ===================================================================== *)
(** ** RoomService: [leaveRoom] and [closeRoom] *)
(* ===================================================================== *)

(** [closeRoom] on a room without peers needs one unit of fuel. *)
Lemma closeRoom_fuel_empty fuel roomId room w :
  JsMap.get (rooms w) roomId = Some room →
  peers room = [] →
  closeRoom_fuel (S fuel) roomId w = Some (true, teardown roomId w).
Proof. intros Hroom Hpeers. simpl. by rewrite Hroom, Hpeers. Qed.

(** [leaveRoom], unfolded: the nested [closeRoom] finds the room empty. *)
Lemma leaveRoom_fuel_eq fuel roomId peerId w :
  leaveRoom_fuel (S (S fuel)) roomId peerId w =
  Some
    match JsMap.get (rooms w) roomId with
    | None => (false, w)
    | Some room =>
        match JsMap.get (peers room) peerId with
        | None => (false, w)
        | Some peer =>
            let w2 := afterPeerDelete roomId peerId room peer w in
            (true,
             if Nat.eqb (JsMap.size (JsMap.delete (peers room) peerId)) 0
             then teardown roomId w2 else w2)
        end
    end.
Proof.
  cbn [leaveRoom_fuel].
  destruct (JsMap.get (rooms w) roomId) as [room|] eqn:Hroom; [|done].
  destruct (JsMap.get (peers room) peerId) as [peer|] eqn:Hpeer; [|done].
  cbn [peers set_peers].
  destruct (Nat.eqb (JsMap.size (JsMap.delete (peers room) peerId)) 0) eqn:Hsz; [|done].
  apply Nat.eqb_eq, size_0_empty in Hsz.
  erewrite closeRoom_fuel_empty; [done| |].
  - cbn [rooms log set_rooms]. apply get_set_eq.
  - done.
Qed.

(** Fuel beyond two changes nothing: [leaveRoom] always returns. *)
Lemma leaveRoom_fuel_enough fuel roomId peerId w :
  leaveRoom_fuel (S (S fuel)) roomId peerId w = Some (leaveRoom roomId peerId w).
Proof. unfold leaveRoom. by rewrite !leaveRoom_fuel_eq. Qed.

Lemma leaveRoom_eq roomId peerId w :
  leaveRoom roomId peerId w =
    match JsMap.get (rooms w) roomId with
    | None => (false, w)
    | Some room =>
        match JsMap.get (peers room) peerId with
        | None => (false, w)
        | Some peer =>
            let w2 := afterPeerDelete roomId peerId room peer w in
            (true,
             if Nat.eqb (JsMap.size (JsMap.delete (peers room) peerId)) 0
             then teardown roomId w2 else w2)
        end
    end.
Proof. unfold leaveRoom. by rewrite leaveRoom_fuel_eq. Qed.

(** *** Traces *)

Lemma newEffects_app w w' es : trace w' = trace w ++ es → newEffects w w' = es.
Proof. unfold newEffects. intros ->. by rewrite drop_app_length. Qed.

Lemma newEffects_refl w : newEffects w w = [].
Proof. apply newEffects_app. by rewrite app_nil_r. Qed.

Lemma trace_removeRouter roomId w :
  trace (removeRouter roomId w) =
  trace w ++ (match routers w !! roomId with Some _ => [RouterClose roomId] | None => [] end).
Proof.
  unfold removeRouter. destruct (routers w !! roomId); simpl; [done|].
  by rewrite app_nil_r.
Qed.

Lemma trace_teardown roomId w :
  trace (teardown roomId w) =
  trace w ++ (match routers w !! roomId with Some _ => [RouterClose roomId] | None => [] end)
          ++ [RoomDelete roomId].
Proof. unfold teardown. simpl. by rewrite trace_removeRouter, <- app_assoc. Qed.

Lemma trace_afterPeerDelete roomId peerId room peer w :
  trace (afterPeerDelete roomId peerId room peer w) =
  trace w ++ closeAll peer ++ [PeerDelete roomId peerId].
Proof. unfold afterPeerDelete. simpl. by rewrite <- app_assoc. Qed.

(** A successful [leaveRoom] logs the closes, then the removal, then what
    the teardown of an emptied room adds. *)
Lemma leaveRoom_trace roomId peerId room peer w :
  getRoom roomId w = Some room →
  JsMap.get (peers room) peerId = Some peer →
  ∃ rest, trace (snd (leaveRoom roomId peerId w)) =
          trace w ++ closeAll peer ++ PeerDelete roomId peerId :: rest.
Proof.
  unfold getRoom. intros Hroom Hpeer. rewrite leaveRoom_eq, Hroom, Hpeer. simpl.
  destruct (Nat.eqb _ 0).
  - eexists. rewrite trace_teardown, trace_afterPeerDelete.
    rewrite <- !app_assoc. simpl. reflexivity.
  - exists []. by rewrite trace_afterPeerDelete.
Qed.

Lemma closeAll_no_PeerDelete peer roomId peerId :
  ¬ In (PeerDelete roomId peerId) (closeAll peer).
Proof.
  unfold closeAll. rewrite !in_app_iff, !in_map_iff.
  intros [[? [? _]]|[[? [? _]]|[? [? _]]]]; discriminate.
Qed.

Lemma getPeer_after_leaveRoom roomId peerId w :
  getPeer roomId peerId (snd (leaveRoom roomId peerId w)) = getPeer roomId peerId w
  ∨ getPeer roomId peerId (snd (leaveRoom roomId peerId w)) = None.
Proof.
  rewrite leaveRoom_eq. unfold getPeer.
  destruct (JsMap.get (rooms w) roomId) as [room|] eqn:Hroom; simpl.
  2: { left. by rewrite Hroom. }
  destruct (JsMap.get (peers room) peerId) as [peer|] eqn:Hpeer; simpl.
  2: { left. by rewrite Hroom. }
  right. destruct (Nat.eqb _ 0).
  - unfold teardown, removeRouter. simpl.
    destruct (routers _ !! roomId); simpl; by rewrite get_delete_eq.
  - unfold afterPeerDelete. simpl. rewrite get_set_eq. simpl. apply get_delete_eq.
Qed.

(** A [leaveRoom] that returns [true] found the peer and removed it. *)
Lemma leaveRoom_true_removes roomId peerId w :
  fst (leaveRoom roomId peerId w) = true →
  is_Some (getPeer roomId peerId w) ∧
  getPeer roomId peerId (snd (leaveRoom roomId peerId w)) = None ∧
  In (PeerDelete roomId peerId) (newEffects w (snd (leaveRoom roomId peerId w))).
Proof.
  intros Htrue.
  assert (∃ room peer, getRoom roomId w = Some room ∧
                       JsMap.get (peers room) peerId = Some peer)
    as (room & peer & Hroom & Hpeer).
  { revert Htrue. rewrite leaveRoom_eq. unfold getRoom.
    destruct (JsMap.get (rooms w) roomId) as [room|]; [|done].
    destruct (JsMap.get (peers room) peerId) as [peer|] eqn:Hpeer; [|done].
    intros _. by exists room, peer. }
  split_and!.
  - unfold getPeer. unfold getRoom in Hroom. rewrite Hroom, Hpeer. eauto.
  - destruct (getPeer_after_leaveRoom roomId peerId w) as [Heq|Hnone]; [|done].
    revert Heq. rewrite leaveRoom_eq. unfold getPeer, getRoom in *.
    rewrite Hroom, Hpeer. simpl. destruct (Nat.eqb _ 0).
    + unfold teardown, removeRouter. simpl.
      destruct (routers _ !! roomId); simpl; by rewrite get_delete_eq.
    + unfold afterPeerDelete. simpl. rewrite get_set_eq. simpl.
      by rewrite get_delete_eq.
  - destruct (leaveRoom_trace roomId peerId room peer w Hroom Hpeer) as [rest Htr].
    rewrite (newEffects_app _ _ _ Htr). rewrite in_app_iff. right. by left.
Qed.

(** C10. If the room is not registered or the peer is not in its peer
    map, [leaveRoom] returns [false] and the whole state, trace included, is
    as before: no room or peer removed, nothing closed.  When it returns
    [true], the peer was in the room, is no longer, and its removal is in
    the trace. *)
Theorem leaveRoom_false_without_change roomId peerId w :
  (absent roomId peerId w → leaveRoom roomId peerId w = (false, w)) ∧
  (fst (leaveRoom roomId peerId w) = true →
     is_Some (getPeer roomId peerId w) ∧
     getPeer roomId peerId (snd (leaveRoom roomId peerId w)) = None ∧
     In (PeerDelete roomId peerId) (newEffects w (snd (leaveRoom roomId peerId w)))).
Proof.
  split.
  - unfold absent, getRoom. rewrite leaveRoom_eq.
    intros [H|(room & H1 & H2)].
    + by rewrite H.
    + by rewrite H1, H2.
  - apply leaveRoom_true_removes.
Qed.

(** C7. A successful [leaveRoom] calls [close()] on every transport, every
    producer and every consumer in the peer's maps before it deletes the
    peer from the room's peer map; afterwards the peer is not in the room. *)
Theorem leaveRoom_closes_before_removal roomId peerId room peer w :
  getRoom roomId w = Some room →
  JsMap.get (peers room) peerId = Some peer →
  let w' := snd (leaveRoom roomId peerId w) in
  let removal := PeerDelete roomId peerId in
  fst (leaveRoom roomId peerId w) = true ∧
  getPeer roomId peerId w' = None ∧
  (∀ t, In t (JsMap.values (transports peer)) →
        precedes (TransportClose (transport_id t)) removal (newEffects w w')) ∧
  (∀ p, In p (JsMap.values (producers peer)) →
        precedes (ProducerClose (producer_id p)) removal (newEffects w w')) ∧
  (∀ c, In c (JsMap.values (consumers peer)) →
        precedes (ConsumerClose (consumer_id c)) removal (newEffects w w')).
Proof.
  intros Hroom Hpeer w' removal.
  assert (fst (leaveRoom roomId peerId w) = true) as Htrue.
  { rewrite leaveRoom_eq. unfold getRoom in Hroom. by rewrite Hroom, Hpeer. }
  destruct (leaveRoom_true_removes roomId peerId w Htrue) as (_ & Hgone & _).
  destruct (leaveRoom_trace roomId peerId room peer w Hroom Hpeer) as [rest Htr].
  assert (∀ e, In e (closeAll peer) → precedes e removal (newEffects w w')) as Hprec.
  { intros e He. exists (closeAll peer), rest. split_and!.
    - by apply newEffects_app.
    - done.
    - apply closeAll_no_PeerDelete. }
  split_and!; [done|done|..]; intros x Hx; apply Hprec; unfold closeAll;
    rewrite !in_app_iff, !in_map_iff; eauto 6.
Qed.

(* ===================================================================== *)
(** ** Joins and leaves on one room *)
(* ===================================================================== *)

Lemma createRoom_ok roomId roomName engine w0 room w1 :
  createRoom roomId roomName engine w0 = (Ok room, w1) →
  getRoom roomId w1 = Some room ∧ peers room = [] ∧ is_Some (routers w1 !! roomId).
Proof.
  unfold createRoom, createRouter, getRoom.
  destruct (routers w0 !! roomId) as [r|] eqn:Hr.
  - intros [= <- <-]. simpl. rewrite get_set_eq, Hr. eauto.
  - destruct engine as [r|e]; [|done]. intros [= <- <-]. simpl.
    rewrite get_set_eq, lookup_insert_eq. eauto.
Qed.

Lemma joinRoom_spec roomId peerId peerName w :
  match joinRoom roomId peerId peerName w with
  | (Throw _, w') =>
      w' = w ∧ (getRoom roomId w = None ∨
                ∃ room, getRoom roomId w = Some room ∧
                        is_Some (JsMap.get (peers room) peerId))
  | (Ok peer, w') =>
      ∃ room, getRoom roomId w = Some room ∧
              JsMap.get (peers room) peerId = None ∧
              getRoom roomId w' =
                Some (set_peers (fun ps => JsMap.set ps peerId peer) room) ∧
              routers w' = routers w ∧
              trace w' = trace w ++ [PeerSet roomId peerId]
  end.
Proof.
  unfold joinRoom, getRoom, JsMap.has.
  destruct (JsMap.get (rooms w) roomId) as [room|] eqn:Hroom; [|by auto].
  destruct (JsMap.get (peers room) peerId) eqn:Hpeer.
  - split; [done|]. right. exists room. eauto.
  - exists room. simpl. by rewrite get_set_eq.
Qed.

Lemma routers_teardown roomId w : routers (teardown roomId w) !! roomId = None.
Proof.
  unfold teardown, removeRouter. simpl.
  destruct (routers w !! roomId) eqn:E; simpl; [apply lookup_delete_eq|done].
Qed.

Lemma getRoom_teardown roomId w : getRoom roomId (teardown roomId w) = None.
Proof.
  unfold teardown, removeRouter, getRoom. simpl.
  destruct (routers w !! roomId); simpl; apply get_delete_eq.
Qed.

Lemma CountInv_step roomId w1 s op :
  CountInv roomId w1 s → CountInv roomId w1 (applyOp roomId s op).
Proof.
  destruct s as [w t]. intros (es & Htr & Hle & Hcase).
  destruct op as [peerId peerName|peerId]; simpl.
  - (* joinRoom *)
    pose proof (joinRoom_spec roomId peerId peerName w) as Hj.
    destruct (joinRoom roomId peerId peerName w) as [[peer|e] w'].
    + destruct Hj as (room & Hroom & Hfree & Hroom' & Hrt & Htr').
      exists (es ++ [PeerSet roomId peerId]). simpl.
      split_and!; [by rewrite Htr', Htr, app_assoc|lia|].
      destruct Hcase as [(room0 & Hroom0 & Hwf & Hsz & Hrouter & Hnc & Hz)|(Hnone & _)];
        [|congruence].
      left. rewrite Hroom in Hroom0. injection Hroom0 as <-.
      eexists. split_and!; [done|..].
      * simpl. by apply wf_set.
      * simpl. rewrite size_set_absent by done. lia.
      * by rewrite Hrt.
      * rewrite in_app_iff. intros [?|[?|[]]]; [done|discriminate].
      * unfold reachedZero. cbn [joins leaves]. apply andb_false_iff. right.
        apply Nat.eqb_neq. lia.
    + destruct Hj as [-> _]. exists es. eauto.
  - (* leaveRoom *)
    rewrite leaveRoom_eq.
    destruct Hcase as [(room & Hroom & Hwf & Hsz & Hrouter & Hnc & Hz)|Hdead].
    2: { destruct Hdead as (Hnone & ?). pose proof Hnone as Hnone'.
         unfold getRoom in Hnone'. rewrite Hnone'.
         exists es. split_and!; [done..|]. by right. }
    pose proof Hroom as Hroom'. unfold getRoom in Hroom'. rewrite Hroom'.
    destruct (JsMap.get (peers room) peerId) as [peer|] eqn:Hpeer.
    2: { exists es. split_and!; [done..|]. left. by exists room. }
    assert (S (JsMap.size (JsMap.delete (peers room) peerId)) = JsMap.size (peers room))
      as Hdel by (apply size_delete_present; eauto).
    simpl. destruct (Nat.eqb _ 0) eqn:Hempty.
    + apply Nat.eqb_eq in Hempty.
      eexists. split_and!.
      * rewrite trace_teardown, trace_afterPeerDelete, Htr.
        rewrite <- !app_assoc. reflexivity.
      * simpl. lia.
      * right. split_and!.
        -- apply getRoom_teardown.
        -- apply routers_teardown.
        -- unfold afterPeerDelete. simpl. destruct Hrouter as [r ->].
           rewrite !in_app_iff. simpl. tauto.
        -- unfold reachedZero. cbn [joins leaves]. apply andb_true_iff.
           split; [apply Nat.ltb_lt|apply Nat.eqb_eq]; lia.
    + apply Nat.eqb_neq in Hempty.
      exists (es ++ closeAll peer ++ [PeerDelete roomId peerId]). split_and!.
      * by rewrite trace_afterPeerDelete, Htr, <- app_assoc.
      * simpl. lia.
      * left. eexists. split_and!.
        -- unfold getRoom, afterPeerDelete. simpl. apply get_set_eq.
        -- simpl. by apply wf_delete.
        -- simpl. lia.
        -- done.
        -- rewrite !in_app_iff. intros [?|[Hc|[?|[]]]]; [done| |discriminate].
           revert Hc. unfold closeAll. rewrite !in_app_iff, !in_map_iff.
           intros [[? [? _]]|[[? [? _]]|[? [? _]]]]; discriminate.
        -- unfold reachedZero. cbn [joins leaves]. apply andb_false_iff. right.
           apply Nat.eqb_neq. lia.
Qed.

Lemma CountInv_run roomId w1 ops s :
  CountInv roomId w1 s → CountInv roomId w1 (runOps roomId ops s).
Proof.
  revert s. induction ops as [|op ops IH]; intros s Hs; [done|].
  simpl. apply IH. by apply CountInv_step.
Qed.

(** C1. A room just created, then any sequence of [joinRoom] and
    [leaveRoom] calls on it: the room's peers number the successful joins
    minus the successful leaves, and the room is torn down (out of the
    registry, router closed and unregistered) exactly when successful
    leaves brought that count down to zero; otherwise room and router are
    registered and the router is open. *)
Theorem peer_count_is_joins_minus_leaves w0 roomId roomName engine room w1 ops w t :
  createRoom roomId roomName engine w0 = (Ok room, w1) →
  runOps roomId ops (w1, noOps) = (w, t) →
  leaves t ≤ joins t ∧
  length (getRoomPeers roomId w) = joins t - leaves t ∧
  (if reachedZero t then tornDown roomId w1 w else registered roomId w1 w).
Proof.
  intros Hcreate Hrun.
  destruct (createRoom_ok _ _ _ _ _ _ Hcreate) as (Hroom & Hempty & Hrouter).
  assert (CountInv roomId w1 (w1, noOps)) as Hinit.
  { exists []. split_and!; [by rewrite app_nil_r|done|]. left. exists room.
    split_and!; try done.
    - rewrite Hempty. apply wf_empty.
    - by rewrite Hempty.
    - by intros []. }
  apply (CountInv_run roomId w1 ops) in Hinit. rewrite Hrun in Hinit.
  destruct Hinit as (es & Htr & Hle & Hcase).
  apply newEffects_app in Htr.
  split; [done|].
  destruct Hcase as [(room' & Hroom' & Hwf & Hsz & Hr & Hnc & Hz)|(Hnone & Hr & Hc & Hz)].
  - rewrite Hz. split.
    + unfold getRoomPeers. unfold getRoom in Hroom'. rewrite Hroom'.
      unfold JsMap.values. rewrite length_map. exact Hsz.
    + unfold registered. rewrite Htr, Hroom'. eauto.
  - rewrite Hz. split.
    + unfold getRoomPeers. unfold getRoom in Hnone. rewrite Hnone. simpl.
      unfold reachedZero in Hz. apply andb_true_iff in Hz as [_ Hz].
      apply Nat.eqb_eq in Hz. lia.
    + unfold tornDown. by rewrite Htr.
Qed.

(** [closeRoom] always returns: it is the loop of [leaveRoom]s, then the
    teardown. *)
Lemma closeRoomLoop_eq fuel roomId ps w :
  closeRoomLoop (leaveRoom_fuel (S (S fuel)) roomId) ps w =
  Some (fold_left (fun w p => snd (leaveRoom roomId (peer_id p) w)) ps w).
Proof.
  revert w. induction ps as [|p ps IH]; intros w; [done|].
  cbn [closeRoomLoop fold_left]. rewrite leaveRoom_fuel_enough.
  destruct (leaveRoom roomId (peer_id p) w) as [b w']. apply IH.
Qed.

Lemma closeRoom_fuel_enough fuel roomId w :
  closeRoom_fuel (S (S (S fuel))) roomId w = Some (closeRoom roomId w).
Proof.
  unfold closeRoom. cbn [closeRoom_fuel].
  destruct (JsMap.get (rooms w) roomId); [|done].
  by rewrite !closeRoomLoop_eq.
Qed.

Lemma closeRoom_eq roomId w :
  closeRoom roomId w =
    match JsMap.get (rooms w) roomId with
    | None => (false, w)
    | Some room =>
        (true,
         teardown roomId
           (fold_left (fun w p => snd (leaveRoom roomId (peer_id p) w))
                      (JsMap.values (peers room)) w))
    end.
Proof.
  unfold closeRoom. cbn [closeRoom_fuel].
  destruct (JsMap.get (rooms w) roomId); [|done].
  by rewrite closeRoomLoop_eq.
Qed.

(* ===================================================================== *)
(** ** Recording *)
(* ===================================================================== *)

(** *** Operations that leave recordings and recording flags alone *)

Lemma sameFlags_refl w : sameFlags w w.
Proof. split; eauto. Qed.

Lemma sameFlags_trans w1 w2 w3 : sameFlags w1 w2 → sameFlags w2 w3 → sameFlags w1 w3.
Proof.
  intros [Hr1 H1] [Hr2 H2]. split; [congruence|].
  intros roomId room3 H3. destruct (H2 _ _ H3) as (room2 & Hg2 & He2).
  destruct (H1 _ _ Hg2) as (room1 & Hg1 & He1). exists room1. split; congruence.
Qed.

Lemma sameFlags_log es w : sameFlags w (log es w).
Proof. split; eauto. Qed.

(** Replacing a registered room by one with the same recording state. *)
Lemma sameFlags_set_room roomId room room' w :
  getRoom roomId w = Some room → recording room' = recording room →
  sameFlags w (set_rooms (fun rs => JsMap.set rs roomId room') w).
Proof.
  intros Hroom Hrec. split; [done|]. intros rid r. unfold getRoom in *. simpl.
  destruct (decide (roomId = rid)) as [<-|Hne].
  - rewrite get_set_eq. intros [= <-]. eauto.
  - rewrite get_set_ne by done. eauto.
Qed.

Lemma sameFlags_delete_room roomId w :
  sameFlags w (set_rooms (fun rs => JsMap.delete rs roomId) w).
Proof.
  split; [done|]. intros rid r. unfold getRoom. simpl.
  destruct (decide (roomId = rid)) as [<-|Hne].
  - by rewrite get_delete_eq.
  - rewrite get_delete_ne by done. eauto.
Qed.

Lemma sameFlags_removeRouter roomId w : sameFlags w (removeRouter roomId w).
Proof. unfold removeRouter. destruct (routers w !! roomId); split; eauto. Qed.

Lemma sameFlags_teardown roomId w : sameFlags w (teardown roomId w).
Proof.
  unfold teardown. eapply sameFlags_trans; [apply sameFlags_removeRouter|].
  eapply sameFlags_trans; [apply sameFlags_delete_room|]. apply sameFlags_log.
Qed.

Lemma sameFlags_joinRoom roomId peerId peerName w :
  sameFlags w (snd (joinRoom roomId peerId peerName w)).
Proof.
  unfold joinRoom. destruct (JsMap.get (rooms w) roomId) as [room|] eqn:Hroom;
    [|apply sameFlags_refl].
  destruct (JsMap.has _ _); [apply sameFlags_refl|]. simpl.
  eapply sameFlags_trans; [|apply sameFlags_log].
  by eapply sameFlags_set_room.
Qed.

Lemma sameFlags_leaveRoom roomId peerId w :
  sameFlags w (snd (leaveRoom roomId peerId w)).
Proof.
  rewrite leaveRoom_eq.
  destruct (JsMap.get (rooms w) roomId) as [room|] eqn:Hroom; [|apply sameFlags_refl].
  destruct (JsMap.get (peers room) peerId) as [peer|]; [|apply sameFlags_refl].
  assert (sameFlags w (afterPeerDelete roomId peerId room peer w)) as Hdel.
  { unfold afterPeerDelete.
    eapply sameFlags_trans; [apply (sameFlags_log (closeAll peer))|].
    eapply sameFlags_trans; [|apply sameFlags_log].
    by eapply sameFlags_set_room. }
  simpl. destruct (Nat.eqb _ 0); [|done].
  eapply sameFlags_trans; [exact Hdel|apply sameFlags_teardown].
Qed.

Lemma sameFlags_closeRoom roomId w : sameFlags w (snd (closeRoom roomId w)).
Proof.
  rewrite closeRoom_eq.
  destruct (JsMap.get (rooms w) roomId) as [room|]; [|apply sameFlags_refl]. simpl.
  eapply sameFlags_trans; [|apply sameFlags_teardown].
  generalize (JsMap.values (peers room)) as ps. intros ps. revert w.
  induction ps as [|p ps IH]; intros w; [apply sameFlags_refl|]. simpl.
  eapply sameFlags_trans; [apply sameFlags_leaveRoom|apply IH].
Qed.

Lemma sameFlags_updatePeer roomId peerId f w : sameFlags w (updatePeer roomId peerId f w).
Proof.
  unfold updatePeer.
  destruct (JsMap.get (rooms w) roomId) as [room|] eqn:Hroom; [|apply sameFlags_refl].
  destruct (JsMap.get (peers room) peerId); [|apply sameFlags_refl].
  by eapply sameFlags_set_room.
Qed.

Lemma RecInv_sameFlags w w' : RecInv w → sameFlags w w' → RecInv w'.
Proof.
  intros (Hwf & Ha & Hb) [Hrec Hrooms]. unfold RecInv. rewrite Hrec.
  split_and!; [done| |done].
  intros id r room' Hr Hst Hroom'.
  destruct (Hrooms _ _ Hroom') as (room & Hroom & ->). eauto.
Qed.

(** *** The recording operations keep the invariant *)

Lemma RecInv_ext w w' :
  recordings w' = recordings w → rooms w' = rooms w → RecInv w → RecInv w'.
Proof. unfold RecInv, getRoom. by intros -> ->. Qed.

Lemma RecInv_start w w' roomId room recordingId info rr :
  RecInv w → getRoom roomId w = Some room → isRecording (recording room) = false →
  rec_roomId info = roomId → isRecording rr = true →
  recordings w' = JsMap.set (recordings w) recordingId info →
  rooms w' = JsMap.set (rooms w) roomId (set_recording rr room) →
  RecInv w'.
Proof.
  intros (Hwf & Ha & Hb) Hroom Hflag Hinfo Hrr Hrecs Hrooms.
  unfold RecInv, getRoom in *. rewrite Hrecs, Hrooms.
  assert (∀ id r, id ≠ recordingId → JsMap.get (recordings w) id = Some r →
                  rec_status r = SRecording → rec_roomId r ≠ roomId) as Hold.
  { intros id r _ Hr Hst Heq. rewrite <- Heq in Hroom.
    specialize (Ha _ _ _ Hr Hst Hroom). congruence. }
  split_and!.
  - by apply wf_set.
  - intros id r room0 Hr Hst Hroom0.
    destruct (decide (rec_roomId r = roomId)) as [Heq|Hne].
    + rewrite Heq, get_set_eq in Hroom0. by injection Hroom0 as <-.
    + rewrite get_set_ne in Hroom0 by done.
      destruct (decide (recordingId = id)) as [<-|Hid].
      * rewrite get_set_eq in Hr. injection Hr as <-. done.
      * rewrite get_set_ne in Hr by done. eauto.
  - intros id1 id2 r1 r2 H1 H2 Hs1 Hs2 Heq.
    destruct (decide (recordingId = id1)) as [<-|Hid1];
      destruct (decide (recordingId = id2)) as [<-|Hid2]; [done|..].
    + rewrite get_set_eq in H1. injection H1 as <-.
      rewrite get_set_ne in H2 by done.
      exfalso. eapply (Hold id2 r2); eauto. congruence.
    + rewrite get_set_eq in H2. injection H2 as <-.
      rewrite get_set_ne in H1 by done.
      exfalso. eapply (Hold id1 r1); eauto. congruence.
    + rewrite get_set_ne in H1, H2 by done. eauto.
Qed.

Lemma RecInv_stop w w' id recording r' :
  RecInv w → JsMap.get (recordings w) id = Some recording →
  rec_status recording = SRecording → rec_status r' ≠ SRecording →
  recordings w' = JsMap.set (recordings w) id r' →
  (rooms w' = rooms w ∨
   ∃ room rr, rooms w' = JsMap.set (rooms w) (rec_roomId recording)
                                   (set_recording rr room)) →
  RecInv w'.
Proof.
  intros (Hwf & Ha & Hb) Hrec Hst Hst' Hrecs Hrooms.
  unfold RecInv, getRoom in *. rewrite Hrecs.
  assert (∀ id0 r0, JsMap.get (JsMap.set (recordings w) id r') id0 = Some r0 →
                    rec_status r0 = SRecording →
                    id0 ≠ id ∧ JsMap.get (recordings w) id0 = Some r0) as Hold.
  { intros id0 r0 Hr0 Hs0. destruct (decide (id = id0)) as [<-|Hne].
    - rewrite get_set_eq in Hr0. by injection Hr0 as <-.
    - rewrite get_set_ne in Hr0 by done. done. }
  split_and!.
  - by apply wf_set.
  - intros id0 r0 room0 Hr0 Hs0 Hroom0.
    destruct (Hold _ _ Hr0 Hs0) as [Hne Hr0'].
    destruct Hrooms as [Hsame|(room & rr & Hset)].
    + rewrite Hsame in Hroom0. eauto.
    + rewrite Hset in Hroom0.
      destruct (decide (rec_roomId recording = rec_roomId r0)) as [Heq|Hnr].
      * exfalso. apply Hne. by eapply (Hb id0 id).
      * rewrite get_set_ne in Hroom0 by done. eauto.
  - intros id1 id2 r1 r2 H1 H2 Hs1 Hs2 Heq.
    destruct (Hold _ _ H1 Hs1) as [_ H1']. destruct (Hold _ _ H2 Hs2) as [_ H2'].
    eauto.
Qed.

Lemma RecInv_set_inactive w w' id r' :
  RecInv w → rec_status r' ≠ SRecording →
  recordings w' = JsMap.set (recordings w) id r' → rooms w' = rooms w →
  RecInv w'.
Proof.
  intros (Hwf & Ha & Hb) Hst' Hrecs Hrooms.
  unfold RecInv, getRoom in *. rewrite Hrecs, Hrooms.
  assert (∀ id0 r0, JsMap.get (JsMap.set (recordings w) id r') id0 = Some r0 →
                    rec_status r0 = SRecording →
                    JsMap.get (recordings w) id0 = Some r0) as Hold.
  { intros id0 r0 Hr0 Hs0. destruct (decide (id = id0)) as [<-|Hne].
    - rewrite get_set_eq in Hr0. by injection Hr0 as <-.
    - rewrite get_set_ne in Hr0 by done. done. }
  split_and!; [by apply wf_set|eauto..].
Qed.

Lemma RecInv_delete w w' id :
  RecInv w → recordings w' = JsMap.delete (recordings w) id → rooms w' = rooms w →
  RecInv w'.
Proof.
  intros (Hwf & Ha & Hb) Hrecs Hrooms.
  unfold RecInv, getRoom in *. rewrite Hrecs, Hrooms.
  assert (∀ id0 r0, JsMap.get (JsMap.delete (recordings w) id) id0 = Some r0 →
                    JsMap.get (recordings w) id0 = Some r0) as Hold.
  { intros id0 r0 Hr0. destruct (decide (id = id0)) as [<-|Hne].
    - by rewrite get_delete_eq in Hr0.
    - by rewrite get_delete_ne in Hr0. }
  split_and!; [by apply wf_delete|eauto..].
Qed.

Lemma updateRoomRecordingStatus_rooms roomId b rid fp now w :
  recordings (updateRoomRecordingStatus roomId b rid fp now w) = recordings w ∧
  (rooms (updateRoomRecordingStatus roomId b rid fp now w) = rooms w ∧
   getRoom roomId w = None
   ∨ ∃ room rr, getRoom roomId w = Some room ∧ isRecording rr = b ∧
                rooms (updateRoomRecordingStatus roomId b rid fp now w) =
                JsMap.set (rooms w) roomId (set_recording rr room)).
Proof.
  unfold updateRoomRecordingStatus, getRoom.
  destruct (JsMap.get (rooms w) roomId) as [room|]; [|by auto].
  split; [done|]. right. eexists room, _. split_and!; [done| |done]. done.
Qed.

(** A [startRecording] that throws stores nothing and flags nothing. *)
Lemma startRecording_throw outputPath format roomId recordingId isoTime now plain
    outcome w e w' :
  startRecording outputPath format roomId recordingId isoTime now plain outcome w
    = (Throw e, w') →
  recordings w' = recordings w ∧ rooms w' = rooms w.
Proof.
  unfold startRecording.
  destruct (getRoom roomId w) as [room|]; [|by intros [= _ <-]].
  destruct (isRoomRecording roomId w); [by intros [= _ <-]|].
  destruct plain as [pt|e']; [|by intros [= _ <-]].
  destruct outcome; simpl; [done|by intros [= _ <-]..].
Qed.

Lemma RecInv_startRecording outputPath format roomId recordingId isoTime now plain
    outcome w :
  RecInv w →
  RecInv (snd (startRecording outputPath format roomId recordingId isoTime now plain
                              outcome w)).
Proof.
  intros Hinv.
  destruct (startRecording outputPath format roomId recordingId isoTime now plain
                           outcome w) as [[info|e] w'] eqn:Hstart; simpl.
  2: { apply startRecording_throw in Hstart as [Hr Hrm]. by eapply RecInv_ext. }
  revert Hstart. unfold startRecording.
  destruct (getRoom roomId w) as [room|] eqn:Hroom; [|done].
  destruct (isRoomRecording roomId w) eqn:Hflag; [done|].
  destruct plain as [pt|e']; [|done].
  destruct outcome; simpl; [|done..].
  intros [= <- <-].
  match goal with
  | |- RecInv (updateRoomRecordingStatus ?r ?b ?i ?f ?n ?w0) =>
      destruct (updateRoomRecordingStatus_rooms r b i f n w0)
        as [Hrecs [[_ Hnone]|(room' & rr & Hroom' & Hrr & Hrooms)]]
  end.
  - unfold getRoom in *. simpl in Hnone. congruence.
  - unfold getRoom in Hroom'. simpl in Hroom'. unfold getRoom in Hroom.
    rewrite Hroom in Hroom'. injection Hroom' as <-.
    eapply (RecInv_start w) with (roomId := roomId) (room := room) (rr := rr).
    6: { rewrite Hrecs. simpl. reflexivity. }
    6: { rewrite Hrooms. simpl. reflexivity. }
    + done.
    + exact Hroom.
    + unfold isRoomRecording in Hflag. by rewrite Hroom in Hflag.
    + done.
    + exact Hrr.
Qed.

Lemma RecInv_stopRecording recordingId now kill w :
  RecInv w → RecInv (snd (stopRecording recordingId now kill w)).
Proof.
  intros Hinv. unfold stopRecording.
  destruct (JsMap.get (recordings w) recordingId) as [recording|] eqn:Hrec; [|done].
  destruct (decide (rec_status recording = SRecording)) as [Hst|Hst]; [|done].
  assert (∀ w1, recordings w1 = recordings w → rooms w1 = rooms w →
            RecInv (updateRoomRecordingStatus (rec_roomId recording) false None None now
                      (set_recordings
                         (fun rs => JsMap.set rs recordingId
                                      (set_status SStopped (set_endTime now recording)))
                         w1))) as Hok.
  { intros w1 Hr1 Hrm1.
    match goal with
    | |- RecInv (updateRoomRecordingStatus ?r ?b ?i ?f ?n ?w0) =>
        destruct (updateRoomRecordingStatus_rooms r b i f n w0)
          as [Hrecs [[Hrooms _]|(room' & rr & _ & _ & Hrooms)]]
    end.
    - eapply (RecInv_stop w) with (r' := set_status SStopped (set_endTime now recording));
        [done|exact Hrec|exact Hst| | |left].
      + simpl. done.
      + rewrite Hrecs. simpl. by rewrite Hr1.
      + rewrite Hrooms. simpl. done.
    - eapply (RecInv_stop w) with (r' := set_status SStopped (set_endTime now recording));
        [done|exact Hrec|exact Hst| | |right].
      + simpl. done.
      + rewrite Hrecs. simpl. by rewrite Hr1.
      + exists room', rr. rewrite Hrooms. simpl. by rewrite Hrm1. }
  destruct (activeRecorders w !! recordingId); [destruct kill|]; simpl.
  - by apply Hok.
  - eapply (RecInv_set_inactive w) with (r' := set_status SFailed recording);
      [done| |done..]. done.
  - by apply Hok.
Qed.

Lemma RecInv_deleteRecording recordingId now kill fileExists w :
  RecInv w → RecInv (snd (deleteRecording recordingId now kill fileExists w)).
Proof.
  intros Hinv. unfold deleteRecording.
  destruct (JsMap.get (recordings w) recordingId) as [recording|]; [|done]. simpl.
  set (w1 := if decide (rec_status recording = SRecording)
             then snd (stopRecording recordingId now kill w) else w).
  assert (RecInv w1) as H1.
  { unfold w1. destruct (decide _); [by apply RecInv_stopRecording|done]. }
  eapply (RecInv_delete (if fileExists then log _ w1 else w1)).
  - destruct fileExists; [|done]. by eapply RecInv_ext.
  - done.
  - done.
Qed.

Lemma RecInv_ffmpegEnd recordingId w : RecInv w → RecInv (ffmpegEnd recordingId w).
Proof.
  intros Hinv. unfold ffmpegEnd. simpl.
  destruct (JsMap.get (recordings w) recordingId) as [recording|]; [|done].
  destruct (decide _); [|done].
  by eapply (RecInv_set_inactive w) with (r' := set_status SCompleted recording).
Qed.

Lemma RecInv_createRoom roomId roomName engine w :
  freshRoomId roomId w → RecInv w → RecInv (snd (createRoom roomId roomName engine w)).
Proof.
  intros [Hnone Hfresh] (Hwf & Ha & Hb). unfold createRoom, createRouter.
  assert (∀ r w1, recordings w1 = recordings w → rooms w1 = rooms w →
            RecInv (set_rooms (fun rs => JsMap.set rs roomId r) w1)) as Hset.
  { intros r w1 Hr1 Hrm1. unfold RecInv, getRoom. simpl. rewrite Hr1, Hrm1.
    split_and!; [done| |done].
    intros id r0 room0 Hr0 Hs0 Hroom0.
    rewrite get_set_ne in Hroom0; [by eauto|].
    intros Heq. by eapply Hfresh. }
  destruct (routers w !! roomId); simpl; [by apply Hset|].
  destruct engine; simpl; [by apply Hset|done].
Qed.

Lemma RecInv_step outputPath format w w' :
  step outputPath format w w' → RecInv w → RecInv w'.
Proof.
  intros Hstep Hinv. destruct Hstep.
  - by apply RecInv_createRoom.
  - eapply RecInv_sameFlags; [done|apply sameFlags_joinRoom].
  - eapply RecInv_sameFlags; [done|apply sameFlags_leaveRoom].
  - eapply RecInv_sameFlags; [done|apply sameFlags_closeRoom].
  - eapply RecInv_sameFlags; [done|apply sameFlags_updatePeer].
  - eapply RecInv_sameFlags; [done|apply sameFlags_log].
  - by apply RecInv_startRecording.
  - by apply RecInv_stopRecording.
  - by apply RecInv_deleteRecording.
  - by apply RecInv_ffmpegEnd.
  - by eapply RecInv_ext.
Qed.

Lemma RecInv_reachable outputPath format w : reachable outputPath format w → RecInv w.
Proof.
  unfold reachable. intros Hr.
  assert (RecInv emptyWorld) as H0.
  { split_and!; [apply wf_empty|done..]. }
  induction Hr as [|w1 w2 w3 Hstep _ IH]; [done|].
  apply IH. by eapply RecInv_step.
Qed.

(** *** At most one active session per room *)

Lemma filter_none {A} (f : A → bool) (l : list A) :
  (∀ x, In x l → f x = false) → List.filter f l = [].
Proof.
  induction l as [|x l IH]; intros H; [done|]. simpl.
  rewrite (H x) by (by left). apply IH. intros y Hy. apply H. by right.
Qed.

Lemma filter_filter_andb {A} (f g : A → bool) (l : list A) :
  List.filter f (List.filter g l) = List.filter (fun x => g x && f x) l.
Proof.
  induction l as [|x l IH]; [done|]. simpl.
  destruct (g x); simpl; [destruct (f x)|]; by rewrite IH.
Qed.

Lemma filter_at_most_one {V} (P : V → bool) (m : JsMap.t V) :
  JsMap.wf m →
  (∀ k1 k2 v1 v2, JsMap.get m k1 = Some v1 → JsMap.get m k2 = Some v2 →
                  P v1 = true → P v2 = true → k1 = k2) →
  length (List.filter P (JsMap.values m)) ≤ 1.
Proof.
  induction m as [|[k v] m IH]; intros Hwf Huniq; [simpl; lia|].
  pose proof Hwf as Hwf'. unfold JsMap.wf in Hwf'. simpl in Hwf'.
  apply NoDup_cons in Hwf' as [Hk Hwfm].
  assert (∀ k' v', JsMap.get m k' = Some v' →
                   k ≠ k' ∧ JsMap.get ((k, v) :: m) k' = Some v') as Hlift.
  { intros k' v' Hget. assert (k ≠ k') as Hne.
    { intros <-. apply Hk, list_elem_of_In.
      apply get_Some_In in Hget. change k with (fst (k, v')). by apply in_map. }
    split; [done|]. simpl. by rewrite eqb_ne. }
  assert (length (List.filter P (JsMap.values m)) ≤ 1) as Hm.
  { apply IH; [done|]. intros k1 k2 v1 v2 H1 H2.
    apply Hlift in H1 as [_ H1]. apply Hlift in H2 as [_ H2]. eauto. }
  simpl. destruct (P v) eqn:HP; [|done].
  rewrite filter_none; [simpl; lia|].
  intros v' Hv'. destruct (P v') eqn:HP'; [|done]. exfalso.
  unfold JsMap.values in Hv'. apply in_map_iff in Hv' as ([k' v''] & Heq & Hin).
  simpl in Heq. subst v''.
  apply In_get_wf in Hin; [|done]. apply Hlift in Hin as [Hne Hin].
  apply Hne. apply (Huniq k k' v v'); [|done..]. simpl. by rewrite eqb_refl_s.
Qed.

Lemma RecInv_at_most_one roomId w : RecInv w → length (activeRecordings roomId w) ≤ 1.
Proof.
  intros (Hwf & _ & Hb). unfold activeRecordings, getRoomRecordings.
  rewrite filter_filter_andb. apply filter_at_most_one; [done|].
  intros k1 k2 v1 v2 H1 H2 HP1 HP2.
  apply andb_true_iff in HP1 as [Hr1 Hs1]. apply andb_true_iff in HP2 as [Hr2 Hs2].
  apply String.eqb_eq in Hr1, Hr2. apply bool_decide_eq_true in Hs1, Hs2.
  eapply Hb; eauto. congruence.
Qed.

(** Calls that run one at a time keep the room-level mutex.  In every
    state reached that way no room has two stored sessions with status
    ['recording']; and while a session with that status is stored for a
    room, [startRecording] for that room throws and returns the state it
    was given, trace included.  Calls that overlap are another matter
    ([startRecording_begin], [startRecording_resume]). *)
Lemma one_at_a_time_start_rejected outputPath format w :
  reachable outputPath format w →
  (∀ roomId, length (activeRecordings roomId w) ≤ 1) ∧
  (∀ id r recordingId isoTime now plain outcome,
     getRecording id w = Some r → rec_status r = SRecording →
     ∃ e, startRecording outputPath format (rec_roomId r) recordingId isoTime now
                         plain outcome w = (Throw e, w)).
Proof.
  intros Hreach. apply RecInv_reachable in Hreach as Hinv. split.
  - intros roomId. by apply RecInv_at_most_one.
  - intros id r recordingId isoTime now plain outcome Hr Hst.
    destruct Hinv as (_ & Ha & _). unfold startRecording, isRoomRecording.
    destruct (getRoom (rec_roomId r) w) as [room|] eqn:Hroom; [|eauto].
    unfold getRoom in Hroom. rewrite Hroom.
    rewrite (Ha _ _ _ Hr Hst Hroom). eauto.
Qed.

(** C6. [stopRecording] on a stored recording whose status is not
    ['recording'] throws and returns the state it was given: status,
    end time and file path of the recording and the room's recording state
    are as before. *)
Theorem stopRecording_inactive_rejected recordingId recording now kill w :
  getRecording recordingId w = Some recording →
  rec_status recording ≠ SRecording →
  stopRecording recordingId now kill w =
    (Throw ("Recording " +:+ recordingId +:+ " is not active"), w).
Proof.
  unfold getRecording, stopRecording. intros -> Hst.
  by destruct (decide (rec_status recording = SRecording)).
Qed.

(** *** The signaling handlers stay within the reachable states *)

Section HandlersReachable.
Variable outputPath : string.
Variable format : string.
Local Abbreviation reach := (reachable outputPath format).
Local Abbreviation stp := (step outputPath format).

Lemma reachable_step w w' : reach w → stp w w' → reach w'.
Proof. intros Hr Hs. by eapply rtc_r. Qed.

Lemma reachable_emit tgt msg w : reach w → reach (emit tgt msg w).
Proof. intros Hr. eapply reachable_step; [done|]. apply step_log. Qed.

Lemma reachable_joinRoom roomId peerId peerName w :
  reach w → reach (snd (joinRoom roomId peerId peerName w)).
Proof. intros Hr. eapply reachable_step; [done|]. apply step_joinRoom. Qed.

Lemma handleDisconnect_reachable socket w :
  reach w → reach (handleDisconnect socket w).
Proof.
  intros Hr. unfold handleDisconnect.
  destruct (data_roomId socket) as [roomId|]; [|done].
  destruct (_ && _)%bool; [|done].
  apply reachable_emit. eapply reachable_step; [done|]. apply step_leaveRoom.
Qed.

Lemma handleJoin_reachable socket roomName peerName newRoomId engine w :
  freshRoomId newRoomId w → reach w →
  reach (snd (handleJoin socket roomName peerName newRoomId engine w)).
Proof.
  intros Hfresh Hr. unfold handleJoin.
  set (found := match getRoomByName roomName w with
                | Some room => (Ok room, w)
                | None => createRoom newRoomId roomName engine w
                end).
  assert (reach (snd found)) as Hfound.
  { unfold found. destruct (getRoomByName roomName w); [done|].
    eapply reachable_step; [done|]. by apply step_createRoom. }
  destruct found as [[room|e] w1]; simpl in Hfound.
  2: { simpl. by apply reachable_emit. }
  pose proof (reachable_joinRoom (room_id room) (data_peerId socket) peerName w1 Hfound)
    as Hjoin.
  destruct (joinRoom _ _ _ w1) as [[peer|e] w2]; simpl in *.
  - by do 3 apply reachable_emit.
  - by apply reachable_emit.
Qed.

Lemma handleCreateTransport_reachable socket peerId d engine w :
  reach w → reach (handleCreateTransport socket peerId d engine w).
Proof.
  intros Hr. unfold handleCreateTransport.
  destruct (_ ≫= _) as [[roomId room]|]; [|by apply reachable_emit].
  destruct (getPeer roomId peerId w); [|by apply reachable_emit].
  assert (reach (log [WebRtcTransportCreate roomId d] w)) as H1.
  { eapply reachable_step; [done|]. apply step_log. }
  destruct engine; apply reachable_emit; [|done].
  eapply reachable_step; [done|]. apply step_updatePeer.
Qed.

Lemma handleProduce_reachable socket peerId transportId kind engine w :
  reach w → reach (handleProduce socket peerId transportId kind engine w).
Proof.
  intros Hr. unfold handleProduce.
  destruct (_ ≫= _) as [[roomId peer]|]; [|by apply reachable_emit].
  destruct (JsMap.get _ _); [|by apply reachable_emit].
  destruct engine; [|by apply reachable_emit].
  do 2 apply reachable_emit.
  eapply reachable_step; [done|]. apply step_updatePeer.
Qed.

Lemma handleConsume_reachable socket peerId producerId canConsume engine w :
  reach w → reach (handleConsume socket peerId producerId canConsume engine w).
Proof.
  intros Hr. unfold handleConsume.
  destruct (_ ≫= _) as [[[roomId room] peer]|]; [|by apply reachable_emit].
  destruct (List.find _ (getRoomPeers roomId w)); [|by apply reachable_emit].
  destruct (JsMap.get _ _) as [producer|]; [|by apply reachable_emit].
  destruct (negb canConsume); [by apply reachable_emit|].
  destruct (List.find _ _) as [recvTransport|]; [|by apply reachable_emit].
  assert (reach (log [ConsumerCreate (transport_id recvTransport)
                                     (producer_id producer)] w))
    as H1.
  { eapply reachable_step; [done|]. apply step_log. }
  destruct engine; apply reachable_emit; [|done].
  eapply reachable_step; [done|]. apply step_updatePeer.
Qed.

Lemma handleStartRecording_reachable socket recordingId isoTime now plain outcome w :
  reach w →
  reach (handleStartRecording outputPath format socket recordingId isoTime now
                              plain outcome w).
Proof.
  intros Hr. unfold handleStartRecording.
  destruct (data_roomId socket) as [roomId|]; [|by apply reachable_emit].
  assert (reach (snd (startRecording outputPath format roomId recordingId isoTime now
                                     plain outcome w))) as H1.
  { eapply reachable_step; [done|]. apply step_startRecording. }
  destruct (startRecording _ _ _ _ _ _ _ _ _) as [[recording|e] w1];
    by apply reachable_emit.
Qed.

Lemma handleStopRecording_reachable socket recordingId now kill w :
  reach w → reach (handleStopRecording socket recordingId now kill w).
Proof.
  intros Hr. unfold handleStopRecording.
  assert (reach (snd (stopRecording recordingId now kill w))) as H1.
  { eapply reachable_step; [done|]. apply step_stopRecording. }
  destruct (stopRecording _ _ _ _) as [[recording|e] w1]; by apply reachable_emit.
Qed.
End HandlersReachable.

(* ===================================================================== *)
(** ** Signaling *)
(* ===================================================================== *)

Lemma trace_createRoom roomId roomName engine w :
  ∃ pre, trace (snd (createRoom roomId roomName engine w)) = trace w ++ pre ∧
         noEmissions pre.
Proof.
  unfold createRoom, createRouter.
  destruct (routers w !! roomId); simpl.
  - exists []. split; [by rewrite app_nil_r|]. by intros ? ? [].
  - destruct engine; simpl.
    + exists [RouterCreate roomId]. split; [done|]. intros ? ? [?|[]]. discriminate.
    + exists []. split; [by rewrite app_nil_r|]. by intros ? ? [].
Qed.

Lemma getPeer_emit roomId peerId tgt msg w :
  getPeer roomId peerId (emit tgt msg w) = getPeer roomId peerId w.
Proof. done. Qed.

(** C9. [handleJoin] either fails, and then its one emission is an
    [error] to the requester, or succeeds: the peer is in the room, and the
    handler's emissions are, in this order, [joined] with the peer's own id
    to the joining socket, [peerJoined] naming that peer to the others in
    the room, [existingPeers] to the joining socket.  So the direct response
    is emitted before the broadcast. *)
Theorem joined_emitted_before_peerJoined socket roomName peerName newRoomId engine w :
  let peerId := data_peerId socket in
  let socket' := fst (handleJoin socket roomName peerName newRoomId engine w) in
  let w' := snd (handleJoin socket roomName peerName newRoomId engine w) in
  (∃ e pre, socket' = socket ∧ noEmissions pre ∧
            newEffects w w' = pre ++ [Emit (ToSocket peerId) (MError e)])
  ∨
  (∃ roomId caps isRec existing pre,
      socket' = {| data_peerId := peerId; data_roomId := Some roomId |} ∧
      is_Some (getPeer roomId peerId w') ∧
      noEmissions pre ∧
      newEffects w w' =
        pre ++ [Emit (ToSocket peerId) (MJoined peerId roomId caps isRec);
                Emit (ToRoomExcept roomId peerId) (MPeerJoined peerId peerName);
                Emit (ToSocket peerId) (MExistingPeers existing)]).
Proof.
  intros peerId socket' w'. subst socket' w'. unfold handleJoin. fold peerId.
  set (found := match getRoomByName roomName w with
                | Some room => (Ok room, w)
                | None => createRoom newRoomId roomName engine w
                end).
  assert (∃ pre, trace (snd found) = trace w ++ pre ∧ noEmissions pre)
    as (pre1 & Htr1 & Hpre1).
  { unfold found. destruct (getRoomByName roomName w).
    - exists []. split; [by rewrite app_nil_r|]. by intros ? ? [].
    - apply trace_createRoom. }
  destruct found as [[room|e] w1]; simpl in Htr1.
  2: { left. exists e, pre1. split_and!; [done..|].
       apply newEffects_app. simpl. by rewrite Htr1, <- app_assoc. }
  pose proof (joinRoom_spec (room_id room) peerId peerName w1) as Hj.
  destruct (joinRoom (room_id room) peerId peerName w1) as [[peer|e] w2].
  - right. destruct Hj as (room0 & Hroom0 & Hfree & Hroom' & _ & Htr2).
    eexists (room_id room), _, _, _, (pre1 ++ [PeerSet (room_id room) peerId]).
    split_and!.
    + done.
    + simpl. rewrite !getPeer_emit. unfold getPeer. unfold getRoom in Hroom'.
      rewrite Hroom'. simpl. rewrite get_set_eq. eauto.
    + intros t m Hin. apply in_app_iff in Hin as [Hin|[?|[]]]; [|discriminate].
      by eapply Hpre1.
    + apply newEffects_app. simpl. rewrite Htr2, Htr1.
      rewrite <- !app_assoc. simpl. reflexivity.
  - left. destruct Hj as [-> _]. exists e, pre1. split_and!; [done..|].
    apply newEffects_app. simpl. by rewrite Htr1, <- app_assoc.
Qed.

Lemma getPeer_updatePeer roomId peerId f peer w :
  getPeer roomId peerId w = Some peer →
  getPeer roomId peerId (updatePeer roomId peerId f w) = Some (f peer).
Proof.
  unfold getPeer, updatePeer.
  destruct (JsMap.get (rooms w) roomId) as [room|] eqn:Hroom; [|done].
  intros Hpeer. rewrite Hpeer. simpl. rewrite get_set_eq. simpl. apply get_set_eq.
Qed.

Lemma getPeer_Some_getRoom roomId peerId peer w :
  getPeer roomId peerId w = Some peer → is_Some (getRoom roomId w).
Proof. unfold getPeer, getRoom. destruct (JsMap.get (rooms w) roomId); eauto. done. Qed.

(** C4, as the code has it.  The gateway keeps a peer's transports by
    transport id and looks at no direction: for a peer that is in the
    socket's room, a [createTransport] request whose engine allocation
    succeeds stores the new transport next to whatever the peer holds and
    answers [transportCreated]; an [error] is the answer, with no room or
    peer changed, only if the peer is not found in the socket's room or the
    allocation throws. *)
Theorem createTransport_ignores_direction socket peerId d engine w :
  let w' := handleCreateTransport socket peerId d engine w in
  (∀ roomId peer transport,
     data_roomId socket = Some roomId → getPeer roomId peerId w = Some peer →
     engine = Ok transport →
     getPeer roomId peerId w' = Some (addTransport transport peer) ∧
     newEffects w w' =
       [WebRtcTransportCreate roomId d;
        Emit (ToSocket (data_peerId socket))
             (MTransportCreated (transport_id transport))]) ∧
  (∀ e, In (Emit (ToSocket (data_peerId socket)) (MError e)) (newEffects w w') →
        rooms w' = rooms w ∧
        ((∀ roomId, data_roomId socket = Some roomId →
                    getPeer roomId peerId w = None)
         ∨ is_throw engine = true)).
Proof.
  intros w'. subst w'. unfold handleCreateTransport. split.
  - intros roomId peer transport -> Hpeer ->.
    destruct (getPeer_Some_getRoom _ _ _ _ Hpeer) as [room Hroom].
    simpl. rewrite Hroom. simpl. rewrite Hpeer. split.
    + rewrite getPeer_emit. by apply (getPeer_updatePeer _ _ _ peer).
    + apply newEffects_app. simpl.
      assert (∀ f w0, trace (updatePeer roomId peerId f w0) = trace w0) as ->.
      { intros f w0. unfold updatePeer. destruct (JsMap.get _ _) as [r|]; [|done].
        by destruct (JsMap.get (peers r) peerId). }
      simpl. by rewrite <- app_assoc.
  - intros e.
    destruct (data_roomId socket) as [roomId|] eqn:Hsock; simpl.
    2: { intros _. split; [done|]. left. by intros ? [=]. }
    destruct (getRoom roomId w) as [room|] eqn:Hroom; simpl.
    2: { intros _. split; [done|]. left. intros ? [= <-]. unfold getPeer.
         unfold getRoom in Hroom. by rewrite Hroom. }
    destruct (getPeer roomId peerId w) as [peer|] eqn:Hpeer.
    2: { intros _. split; [done|]. left. by intros ? [= <-]. }
    destruct engine as [transport|e']; [|intros _; split; [done|by right]].
    intros Hin. exfalso. revert Hin.
    unfold newEffects, emit. simpl.
    assert (∀ f w0, trace (updatePeer roomId peerId f w0) = trace w0) as ->.
    { intros f w0. unfold updatePeer. destruct (JsMap.get _ _) as [r|]; [|done].
      by destruct (JsMap.get (peers r) peerId). }
    simpl. rewrite <- app_assoc, drop_app_length. simpl.
    intros [?|[?|[]]]; discriminate.
Qed.

(** C4, the claim as stated, at a concrete input.  Alice holds the send
    transport "t-send" and asks for a send transport again: the request is
    answered with [transportCreated], not with an error, and she holds two
    send transports. *)
Lemma second_send_transport_accepted :
  JsMap.values <$> (transports <$> getPeer "room-1" "peer-a" Example.wSend)
    = Some [Example.sendTransport] ∧
  newEffects Example.wSend Example.wSendTwice =
    [WebRtcTransportCreate "room-1" Send;
     Emit (ToSocket "peer-a") (MTransportCreated "t-send-2")] ∧
  JsMap.values <$> (transports <$> getPeer "room-1" "peer-a" Example.wSendTwice)
    = Some [Example.sendTransport; Example.sendTransport2].
Proof. vm_compute. done. Qed.

(** [handleConsume] never compares the owner of the producer with the
    requester.  In a state in which Alice, who produces "p1", held a
    transport marked ['recv'] (the gateway stores none, see [Untagged]), her
    request to consume "p1" would be served: no error, the engine asked for
    the consumer, the consumer of her own producer stored and announced. *)
Lemma marked_transport_would_serve_own_producer :
  JsMap.keys <$> (producers <$> getPeer "room-1" "peer-a" Example.wProduced)
    = Some ["p1"] ∧
  newEffects Example.wProduced Example.wSelfConsumed =
    [ConsumerCreate "t-recv" "p1";
     Emit (ToSocket "peer-a") (MConsumed "c1" "p1" Video "rtp")] ∧
  consumers <$> getPeer "room-1" "peer-a" Example.wSelfConsumed
    = Some [("c1", Example.ownConsumer)].
Proof. vm_compute. done. Qed.

(** C5, at concrete inputs.  When the plain transport cannot be
    allocated, or FFmpeg fails to start, the requester gets the [error], and
    no session is stored: [getRecording] finds nothing under the id and
    [getAllRecordings] is empty; the room is not flagged as recording. *)
Theorem failed_start_leaves_no_session :
  (newEffects Example.wA Example.wNoPlainTransport =
     [PlainTransportCreate "room-1";
      Emit (ToSocket "peer-a") (MError "no port available")] ∧
   getRecording "rec-1" Example.wNoPlainTransport = None ∧
   getAllRecordings Example.wNoPlainTransport = [] ∧
   isRoomRecording "room-1" Example.wNoPlainTransport = false) ∧
  (newEffects Example.wA Example.wFfmpegFailed =
     [PlainTransportCreate "room-1";
      FfmpegRun "rec-1" 4004
                "recordings/recording-standup-2024-05-01T10-00-00-000Z.mp4";
      Emit (ToSocket "peer-a") (MError "ffmpeg exited with code 1")] ∧
   getRecording "rec-1" Example.wFfmpegFailed = None ∧
   getAllRecordings Example.wFfmpegFailed = [] ∧
   isRoomRecording "room-1" Example.wFfmpegFailed = false).
Proof. vm_compute. done. Qed.

(* ===================================================================== *)
(** ** The client's participant list *)
(* ===================================================================== *)

Module ClientFacts.
Import Client.

Lemma filter_all {A} (f : A → bool) (l : list A) :
  (∀ x, f x = true) → List.filter f l = l.
Proof. intros H. induction l as [|x l IH]; [done|]. simpl. by rewrite H, IH. Qed.

Lemma safeguard_null next : safeguard None next = next.
Proof. by apply filter_all. Qed.

Lemma safeguard_differs captured next p :
  In p (safeguard captured next) → differs (peerInfo_id p) captured = true.
Proof. unfold safeguard. rewrite filter_In. tauto. Qed.

Lemma safeguard_incl captured next p : In p (safeguard captured next) → In p next.
Proof. unfold safeguard. rewrite filter_In. tauto. Qed.

Lemma onPeerJoined_allDiffer captured peer s :
  allDiffer captured s → allDiffer captured (onPeerJoined captured peer s).
Proof.
  intros Hs. unfold onPeerJoined. case_bool_decide; [done|].
  unfold setParticipantsWithLogging.
  destruct (falsy captured); [|destruct (negb _); [|destruct (existsb _ _)]];
    intros p Hp; simpl in Hp; by eapply safeguard_differs.
Qed.

Lemma dispatch_allDiffer captured s i :
  allDiffer captured s → allDiffer captured (dispatch captured s i).
Proof.
  intros Hs. destruct i as [peerId|peers|peer|peerId|peers|peerId kind|peerId]; simpl.
  - done.
  - revert s Hs. induction peers as [|p peers IH]; intros s Hs; [done|].
    simpl. apply IH. by apply onPeerJoined_allDiffer.
  - by apply onPeerJoined_allDiffer.
  - intros p Hp. simpl in Hp. by eapply safeguard_differs.
  - intros p Hp. simpl in Hp. by eapply safeguard_differs.
  - done.
  - done.
Qed.

Lemma run_allDiffer captured inputs s :
  allDiffer captured s → allDiffer captured (run captured inputs s).
Proof.
  revert s. induction inputs as [|i inputs IH]; intros s Hs; [done|].
  simpl. apply IH. by apply dispatch_allDiffer.
Qed.

(** Handlers that captured [null] add nobody: [onPeerJoined] gives up at
    [if (!localPeerId)]. *)
Lemma onPeerJoined_null peer s :
  participants (onPeerJoined None peer s) = participants s.
Proof.
  unfold onPeerJoined. case_bool_decide; [done|].
  unfold setParticipantsWithLogging. simpl. apply safeguard_null.
Qed.

Lemma dispatch_null s i p :
  fromGateway i = true →
  In p (participants (dispatch None s i)) → In p (participants s).
Proof.
  destruct i as [peerId|peers|peer|peerId|peers|peerId kind|peerId]; simpl;
    intros Hi; try done.
  - revert s. induction peers as [|q peers IH]; intros s; [done|].
    simpl. intros Hp. apply IH in Hp. by rewrite onPeerJoined_null in Hp.
  - by rewrite onPeerJoined_null.
  - rewrite safeguard_null, filter_In. tauto.
Qed.

Lemma run_null inputs s p :
  forallb fromGateway inputs = true →
  In p (participants (run None inputs s)) → In p (participants s).
Proof.
  revert s. induction inputs as [|i inputs IH]; intros s Hin; [done|].
  simpl in *. apply andb_true_iff in Hin as [Hi Hin].
  intros Hp. apply IH in Hp; [|done]. by eapply dispatch_null.
Qed.

(** The component as mounted shows no remote participant at all. *)
Lemma mounted_list_stays_empty inputs :
  forallb fromGateway inputs = true →
  participants (run mountCaptured inputs initial) = [].
Proof.
  unfold mountCaptured. intros Hin.
  destruct (participants _) as [|p l] eqn:E; [done|].
  exfalso. apply (run_null inputs initial p Hin). rewrite E. by left.
Qed.

(** Feed the component the gateway's events ([joined], [existingPeers],
    [peerJoined], [peerLeft]) and the expiry of its own timers, in any order
    and with any payload.  If its handlers captured [null] (the mounted
    component) or the very id that the join acknowledgement assigned, no
    entry of the participant list has the local peer id.  Handlers that
    captured another id are another matter ([mountThenClick]). *)
Lemma current_handlers_never_list_local_peer captured inputs :
  let s := run captured inputs initial in
  forallb fromGateway inputs = true →
  captured = mountCaptured ∨ captured = localPeerId s →
  ∀ p, In p (participants s) → Some (peerInfo_id p) ≠ localPeerId s.
Proof.
  intros s Hin [->|Hcap] p Hp.
  - exfalso. by eapply (run_null inputs initial p Hin).
  - apply (run_allDiffer captured inputs initial) in Hp; [|by intros ? []].
    fold s in Hp. rewrite Hcap in Hp. unfold differs in Hp.
    destruct (localPeerId s) as [l|]; [|done].
    intros [= Heq]. by rewrite Heq, eqb_refl_s in Hp.
Qed.
End ClientFacts.

(* ===================================================================== *)
(** ** The theorems at the example session *)
(* ===================================================================== *)

Section Instances.
Import Example.

Lemma peer_count_is_joins_minus_leaves_witness :
  2 ≤ 2 ∧ length (getRoomPeers "room-1" wFinal) = 2 - 2 ∧
  tornDown "room-1" wCreated wFinal.
Proof.
  apply (peer_count_is_joins_minus_leaves
           emptyWorld "room-1" "standup" (Ok exRouter) roomCreated wCreated ops
           wFinal {| joins := 2; leaves := 2 |}).
  - vm_compute. reflexivity.
  - vm_compute. reflexivity.
Defined.

Lemma leaveRoom_closes_before_removal_witness :
  fst (leaveRoom "room-1" "peer-a" wSelfConsumed) = true ∧
  getPeer "room-1" "peer-a" (snd (leaveRoom "room-1" "peer-a" wSelfConsumed)) = None ∧
  (∀ t, In t (JsMap.values (transports aliceFull)) →
        precedes (TransportClose (transport_id t)) (PeerDelete "room-1" "peer-a")
                 (newEffects wSelfConsumed
                             (snd (leaveRoom "room-1" "peer-a" wSelfConsumed)))) ∧
  (∀ p, In p (JsMap.values (producers aliceFull)) →
        precedes (ProducerClose (producer_id p)) (PeerDelete "room-1" "peer-a")
                 (newEffects wSelfConsumed
                             (snd (leaveRoom "room-1" "peer-a" wSelfConsumed)))) ∧
  (∀ c, In c (JsMap.values (consumers aliceFull)) →
        precedes (ConsumerClose (consumer_id c)) (PeerDelete "room-1" "peer-a")
                 (newEffects wSelfConsumed
                             (snd (leaveRoom "room-1" "peer-a" wSelfConsumed)))).
Proof.
  apply (leaveRoom_closes_before_removal "room-1" "peer-a" roomFull aliceFull
                                         wSelfConsumed).
  - vm_compute. reflexivity.
  - vm_compute. reflexivity.
Defined.

Lemma leaveRoom_false_without_change_witness :
  leaveRoom "room-9" "peer-a" wAB = (false, wAB) ∧
  leaveRoom "room-1" "peer-c" wAB = (false, wAB) ∧
  (is_Some (getPeer "room-1" "peer-a" wAB) ∧
   getPeer "room-1" "peer-a" (snd (leaveRoom "room-1" "peer-a" wAB)) = None ∧
   In (PeerDelete "room-1" "peer-a")
      (newEffects wAB (snd (leaveRoom "room-1" "peer-a" wAB)))).
Proof.
  split; [|split].
  - apply (proj1 (leaveRoom_false_without_change "room-9" "peer-a" wAB)).
    left. vm_compute. reflexivity.
  - apply (proj1 (leaveRoom_false_without_change "room-1" "peer-c" wAB)).
    right. exists (default roomCreated (getRoom "room-1" wAB)).
    split; vm_compute; reflexivity.
  - apply (proj2 (leaveRoom_false_without_change "room-1" "peer-a" wAB)).
    vm_compute. reflexivity.
Defined.

Lemma wRecording_reachable : reachable "recordings" "mp4" wRecording.
Proof.
  apply handleStartRecording_reachable. apply handleJoin_reachable.
  - split; [done|]. intros id r. done.
  - apply rtc_refl.
Qed.

Lemma stopRecording_inactive_rejected_witness :
  stopRecording "rec-1" 300 (Ok tt) wStopped =
    (Throw "Recording rec-1 is not active", wStopped).
Proof.
  apply (stopRecording_inactive_rejected "rec-1" stoppedSession 300 (Ok tt) wStopped).
  - vm_compute. reflexivity.
  - discriminate.
Defined.

Lemma createTransport_ignores_direction_witness :
  getPeer "room-1" "peer-a" wSendTwice = Some (addTransport sendTransport2 aliceWithSend) ∧
  newEffects wSend wSendTwice =
    [WebRtcTransportCreate "room-1" Send;
     Emit (ToSocket "peer-a") (MTransportCreated "t-send-2")].
Proof.
  apply (proj1 (createTransport_ignores_direction socketA' "peer-a" Send
                  (Ok sendTransport2) wSend) "room-1" aliceWithSend sendTransport2).
  - reflexivity.
  - vm_compute. reflexivity.
  - reflexivity.
Defined.
End Instances.

(* ===================================================================== *)
(** ** Further properties of the room registry *)
(* ===================================================================== *)

Section JsMapMore.
Context {V : Type}.
Implicit Types (m : JsMap.t V) (k : string) (v : V).

Lemma set_get_id m k v : JsMap.get m k = Some v → JsMap.set m k v = m.
Proof.
  induction m as [|[k' v'] m IH]; simpl; [done|].
  destruct (String.eqb k' k) eqn:E.
  - apply String.eqb_eq in E as ->. by intros [= ->].
  - intros H. by rewrite IH.
Qed.

Lemma set_set m k v v' : JsMap.set (JsMap.set m k v) k v' = JsMap.set m k v'.
Proof.
  induction m as [|[k0 v0] m IH]; simpl.
  - by rewrite eqb_refl_s.
  - destruct (String.eqb k0 k) eqn:E; simpl.
    + by rewrite eqb_refl_s.
    + by rewrite E, IH.
Qed.

Lemma delete_set_absent m k v :
  JsMap.get m k = None → JsMap.delete (JsMap.set m k v) k = m.
Proof.
  induction m as [|[k0 v0] m IH]; simpl.
  - by rewrite eqb_refl_s.
  - destruct (String.eqb k0 k) eqn:E; [done|]. simpl. rewrite E.
    intros H. by rewrite IH.
Qed.

Lemma size_set_ge m k v : JsMap.size m ≤ JsMap.size (JsMap.set m k v).
Proof.
  destruct (JsMap.get m k) eqn:E.
  - rewrite size_set_present; eauto.
  - rewrite size_set_absent; [lia|done].
Qed.
End JsMapMore.

(** X1. [joinRoom] throws exactly when the room is not registered or
    already has the peer, and then it changes nothing; its messages name
    the room, respectively the peer. *)
Theorem joinRoom_throws_iff roomId peerId peerName w :
  (is_throw (fst (joinRoom roomId peerId peerName w)) = true ↔
     getRoom roomId w = None ∨ is_Some (getPeer roomId peerId w)) ∧
  (is_throw (fst (joinRoom roomId peerId peerName w)) = true →
     snd (joinRoom roomId peerId peerName w) = w) ∧
  (getRoom roomId w = None →
     fst (joinRoom roomId peerId peerName w)
       = Throw ("Room " +:+ roomId +:+ " not found")) ∧
  (is_Some (getPeer roomId peerId w) →
     fst (joinRoom roomId peerId peerName w)
       = Throw ("Peer " +:+ peerId +:+ " already in room")).
Proof.
  unfold joinRoom, getRoom, getPeer, JsMap.has.
  destruct (JsMap.get (rooms w) roomId) as [room|] eqn:Hroom.
  - destruct (JsMap.get (peers room) peerId) as [peer|] eqn:Hpeer; simpl;
      split_and!; try done; try (by intros [? ?]).
    + split; [|done]. intros _. right. eauto.
    + split; [done|]. intros [?|[? ?]]; done.
  - simpl. split_and!; try done; try (by intros [? ?]).
    split; [|done]. intros _. by left.
Qed.

(** X2. After a successful [joinRoom] the peer is in the room with its
    name and with empty transport, producer and consumer maps; every other
    peer, in this room or another, is as before. *)
Theorem joinRoom_adds_fresh_peer roomId peerId peerName w :
  is_throw (fst (joinRoom roomId peerId peerName w)) = false →
  let w' := snd (joinRoom roomId peerId peerName w) in
  getPeer roomId peerId w' =
    Some {| peer_id := peerId; peer_name := peerName; transports := JsMap.empty;
            producers := JsMap.empty; consumers := JsMap.empty |} ∧
  (∀ roomId' peerId', (roomId', peerId') ≠ (roomId, peerId) →
                      getPeer roomId' peerId' w' = getPeer roomId' peerId' w).
Proof.
  unfold joinRoom, getPeer, JsMap.has.
  destruct (JsMap.get (rooms w) roomId) as [room|] eqn:Hroom; [|done].
  destruct (JsMap.get (peers room) peerId) as [peer|] eqn:Hpeer; [done|].
  intros _. simpl. split.
  - rewrite get_set_eq. simpl. apply get_set_eq.
  - intros roomId' peerId' Hne.
    destruct (decide (roomId = roomId')) as [<-|Hr].
    + rewrite get_set_eq, Hroom. simpl. apply get_set_ne. congruence.
    + by rewrite get_set_ne.
Qed.

(** X3. Round trip: a peer joins a room that already has somebody and
    leaves again; [leaveRoom] returns [true] and rooms, routers and
    recordings are what they were before the join. *)
Theorem join_then_leave_restores roomId peerId peerName room w :
  getRoom roomId w = Some room →
  JsMap.get (peers room) peerId = None →
  peers room ≠ [] →
  let w1 := snd (joinRoom roomId peerId peerName w) in
  let w2 := snd (leaveRoom roomId peerId w1) in
  fst (leaveRoom roomId peerId w1) = true ∧
  rooms w2 = rooms w ∧ routers w2 = routers w ∧ recordings w2 = recordings w.
Proof.
  intros Hroom Hfree Hne. unfold getRoom in Hroom.
  unfold joinRoom, JsMap.has. rewrite Hroom, Hfree. cbn [snd].
  rewrite leaveRoom_eq. cbn [rooms log set_rooms]. rewrite get_set_eq.
  cbn [peers set_peers]. rewrite get_set_eq. cbn [fst snd].
  rewrite delete_set_absent by done.
  destruct (Nat.eqb (JsMap.size (peers room)) 0) eqn:Hsz.
  { apply Nat.eqb_eq, size_0_empty in Hsz. done. }
  split; [done|]. unfold afterPeerDelete. cbn.
  rewrite set_set. split_and!; [|done..].
  apply set_get_id. rewrite Hroom. f_equal.
  unfold set_peers. cbn. rewrite delete_set_absent by done. by destruct room.
Qed.

Lemma rooms_teardown roomId w :
  rooms (teardown roomId w) = JsMap.delete (rooms w) roomId.
Proof. unfold teardown, removeRouter. by destruct (routers w !! roomId). Qed.

Lemma routers_teardown_eq roomId w :
  routers (teardown roomId w) = base.delete roomId (routers w).
Proof.
  unfold teardown, removeRouter. destruct (routers w !! roomId) eqn:E; simpl; [done|].
  symmetry. by apply delete_id.
Qed.

Lemma recordings_teardown roomId w : recordings (teardown roomId w) = recordings w.
Proof. unfold teardown, removeRouter. by destruct (routers w !! roomId). Qed.

(** What a successful [leaveRoom] touches. *)
Lemma leaveRoom_local roomId peerId peer w :
  getPeer roomId peerId w = Some peer →
  let w' := snd (leaveRoom roomId peerId w) in
  (∀ roomId', roomId' ≠ roomId →
     getRoom roomId' w' = getRoom roomId' w ∧
     routers w' !! roomId' = routers w !! roomId') ∧
  (∀ peerId', peerId' ≠ peerId → is_Some (getRoom roomId w') →
     getPeer roomId peerId' w' = getPeer roomId peerId' w) ∧
  recordings w' = recordings w ∧
  (∀ e, In e (newEffects w w') →
        In e (closeAll peer) ∨ e = PeerDelete roomId peerId ∨
        e = RouterClose roomId ∨ e = RoomDelete roomId).
Proof.
  unfold getPeer. intros Hpeer.
  destruct (JsMap.get (rooms w) roomId) as [room|] eqn:Hroom; [|done].
  rewrite leaveRoom_eq, Hroom, Hpeer. cbn [snd].
  set (w2 := afterPeerDelete roomId peerId room peer w).
  assert (rooms w2 = JsMap.set (rooms w) roomId
                       (set_peers (fun ps => JsMap.delete ps peerId) room)) as Hrooms2
    by done.
  destruct (Nat.eqb _ 0) eqn:Hsz; split_and!.
  - intros roomId' Hne. unfold getRoom.
    rewrite rooms_teardown, routers_teardown_eq, Hrooms2.
    rewrite get_delete_ne, get_set_ne, lookup_delete_ne by done. done.
  - intros peerId' _ [r Hr]. unfold getRoom in Hr.
    by rewrite rooms_teardown, get_delete_eq in Hr.
  - by rewrite recordings_teardown.
  - intros e. rewrite (newEffects_app w _ (closeAll peer ++ [PeerDelete roomId peerId]
        ++ match routers w !! roomId with Some _ => [RouterClose roomId] | None => [] end
        ++ [RoomDelete roomId])).
    + rewrite !in_app_iff. simpl. destruct (routers w !! roomId); simpl; intuition (subst; auto 6).
    + rewrite trace_teardown. unfold w2. rewrite trace_afterPeerDelete.
      by rewrite <- !app_assoc.
  - intros roomId' Hne. unfold getRoom. rewrite Hrooms2.
    by rewrite get_set_ne.
  - intros peerId' Hne _. rewrite Hrooms2, get_set_eq. simpl.
    by apply get_delete_ne.
  - done.
  - intros e. rewrite (newEffects_app w _ (closeAll peer ++ [PeerDelete roomId peerId])).
    + rewrite !in_app_iff. simpl. intuition (subst; auto 6).
    + unfold w2. by rewrite trace_afterPeerDelete.
Qed.

(** X4. A successful [leaveRoom] is local to the peer: other rooms and
    their routers are untouched, the other peers of the room are untouched
    as long as the room stays, recordings are untouched, and the only things
    logged are the close calls on this peer's own objects, its removal and,
    if the room became empty, the router close and the room removal. *)
Theorem leaveRoom_is_local roomId peerId peer w :
  getPeer roomId peerId w = Some peer →
  let w' := snd (leaveRoom roomId peerId w) in
  (∀ roomId', roomId' ≠ roomId →
     getRoom roomId' w' = getRoom roomId' w ∧
     routers w' !! roomId' = routers w !! roomId') ∧
  (∀ peerId', peerId' ≠ peerId → is_Some (getRoom roomId w') →
     getPeer roomId peerId' w' = getPeer roomId peerId' w) ∧
  recordings w' = recordings w ∧
  (∀ e, In e (newEffects w w') →
        In e (closeAll peer) ∨ e = PeerDelete roomId peerId ∨
        e = RouterClose roomId ∨ e = RoomDelete roomId).
Proof. apply leaveRoom_local. Qed.

(** The loop of [closeRoom] over a room whose peers sit under their ids:
    one departure per peer, in order. *)
Lemma closeRoom_loop_trace roomId :
  ∀ (l : JsMap.t PeerInfo) room w,
    getRoom roomId w = Some room → peers room = l → keyedPeers room →
    ∃ rest,
      trace (fold_left (fun w p => snd (leaveRoom roomId (peer_id p) w))
                       (JsMap.values l) w)
      = trace w ++ concat (map (departure roomId) (JsMap.values l)) ++ rest.
Proof.
  induction l as [|[k p] l IH]; intros room w Hroom Hl [Hwf Hkeyed].
  { exists []. simpl. by rewrite app_nil_r. }
  assert (peer_id p = k) as Hk by (apply Hkeyed; rewrite Hl; by left).
  assert (JsMap.get l k = None) as Hfree.
  { apply get_None_keys. unfold JsMap.wf in Hwf. rewrite Hl in Hwf. simpl in Hwf.
    apply NoDup_cons_1_1 in Hwf. intros Hin. apply Hwf. by apply list_elem_of_In. }
  assert (JsMap.delete (peers room) k = l) as Hdel.
  { rewrite Hl. simpl. rewrite eqb_refl_s. by apply delete_absent. }
  cbn [JsMap.values map fold_left snd concat]. rewrite Hk.
  rewrite leaveRoom_eq. unfold getRoom in Hroom. rewrite Hroom.
  assert (JsMap.get (peers room) k = Some p) as Hget.
  { rewrite Hl. simpl. by rewrite eqb_refl_s. }
  rewrite Hget. cbn [snd]. rewrite Hdel.
  destruct (Nat.eqb (JsMap.size l) 0) eqn:Hsz.
  - apply Nat.eqb_eq, size_0_empty in Hsz. rewrite Hsz.
    cbn [JsMap.values map fold_left concat].
    eexists. rewrite trace_teardown, trace_afterPeerDelete.
    unfold departure. rewrite Hk. rewrite <- !app_assoc. simpl. reflexivity.
  - set (w2 := afterPeerDelete roomId k room p w).
    destruct (IH (set_peers (fun ps => JsMap.delete ps k) room) w2) as [rest Hrest].
    + unfold getRoom, w2, afterPeerDelete. simpl. apply get_set_eq.
    + done.
    + split.
      * simpl. rewrite Hdel. unfold JsMap.wf in *. rewrite Hl in Hwf. simpl in Hwf.
        by apply NoDup_cons_1_2 in Hwf.
      * simpl. rewrite Hdel. intros k' p' Hin. apply Hkeyed. rewrite Hl. by right.
    + exists rest. unfold JsMap.values in Hrest. rewrite Hrest.
      unfold w2. rewrite trace_afterPeerDelete. unfold departure at 2. rewrite Hk.
      by rewrite <- !app_assoc.
Qed.

Lemma closeRoom_loop_frame roomId ps :
  ∀ w, let w' := fold_left (fun w p => snd (leaveRoom roomId (peer_id p) w)) ps w in
       recordings w' = recordings w ∧
       ∀ roomId', roomId' ≠ roomId →
                  getRoom roomId' w' = getRoom roomId' w ∧
                  routers w' !! roomId' = routers w !! roomId'.
Proof.
  induction ps as [|p ps IH]; intros w; [done|]. cbn [fold_left].
  destruct (IH (snd (leaveRoom roomId (peer_id p) w))) as [Hrec Hother].
  assert (recordings (snd (leaveRoom roomId (peer_id p) w)) = recordings w ∧
          ∀ roomId', roomId' ≠ roomId →
            getRoom roomId' (snd (leaveRoom roomId (peer_id p) w)) = getRoom roomId' w ∧
            routers (snd (leaveRoom roomId (peer_id p) w)) !! roomId'
              = routers w !! roomId') as [Hrec1 Hother1].
  { destruct (getPeer roomId (peer_id p) w) as [peer|] eqn:Hpeer.
    - destruct (leaveRoom_local roomId (peer_id p) peer w Hpeer) as (H1 & _ & H3 & _).
      done.
    - assert (leaveRoom roomId (peer_id p) w = (false, w)) as ->; [|done].
      rewrite leaveRoom_eq. unfold getPeer in Hpeer.
      destruct (JsMap.get (rooms w) roomId); [|done]. by rewrite Hpeer. }
  split; [congruence|]. intros roomId' Hne.
  destruct (Hother roomId' Hne) as [-> ->]. by apply Hother1.
Qed.

(** X5. [closeRoom] on an unknown room returns [false] and changes
    nothing.  On a registered room it returns [true]; afterwards the room
    and its router are out of their registries, while every other room,
    every other router and all recordings (an active one of this room
    included) are as before. *)
Theorem closeRoom_removes_only_the_room roomId w :
  (getRoom roomId w = None → closeRoom roomId w = (false, w)) ∧
  (is_Some (getRoom roomId w) →
     let w' := snd (closeRoom roomId w) in
     fst (closeRoom roomId w) = true ∧
     getRoom roomId w' = None ∧ routers w' !! roomId = None ∧
     recordings w' = recordings w ∧
     ∀ roomId', roomId' ≠ roomId →
                getRoom roomId' w' = getRoom roomId' w ∧
                routers w' !! roomId' = routers w !! roomId').
Proof.
  rewrite closeRoom_eq. unfold getRoom at 1 2. split.
  - by intros ->.
  - intros [room Hroom]. rewrite Hroom. cbn [fst snd].
    set (w1 := fold_left _ _ w).
    destruct (closeRoom_loop_frame roomId (JsMap.values (peers room)) w)
      as [Hrec Hother]. fold w1 in Hrec, Hother.
    split_and!; [done|apply getRoom_teardown|apply routers_teardown| |].
    + by rewrite recordings_teardown.
    + intros roomId' Hne. destruct (Hother roomId' Hne) as [<- <-].
      unfold getRoom. rewrite rooms_teardown, routers_teardown_eq.
      by rewrite get_delete_ne, lookup_delete_ne.
Qed.

(** X6. [closeRoom] on a room whose peers sit under their ids makes every
    peer leave, in the order of the peer map: for each one the close calls
    on its transports, producers and consumers, then its removal. *)
Theorem closeRoom_makes_every_peer_leave roomId room w :
  getRoom roomId w = Some room → keyedPeers room →
  ∃ rest, newEffects w (snd (closeRoom roomId w)) =
          concat (map (departure roomId) (JsMap.values (peers room))) ++ rest.
Proof.
  intros Hroom Hkeyed. rewrite closeRoom_eq. pose proof Hroom as Hroom'.
  unfold getRoom in Hroom'. rewrite Hroom'. cbn [snd].
  destruct (closeRoom_loop_trace roomId (peers room) room w Hroom eq_refl Hkeyed)
    as [rest Hrest].
  eexists. apply newEffects_app. rewrite trace_teardown, Hrest.
  rewrite <- !app_assoc. reflexivity.
Qed.

(* ===================================================================== *)
(** ** Rooms and routers *)
(* ===================================================================== *)

Lemma RouterInv_ext w w' :
  rooms w' = rooms w → routers w' = routers w → RouterInv w → RouterInv w'.
Proof. unfold RouterInv, getRoom. by intros -> ->. Qed.

Lemma RouterInv_set_room roomId room room' w w' :
  RouterInv w → getRoom roomId w = Some room → router room' = router room →
  rooms w' = JsMap.set (rooms w) roomId room' → routers w' = routers w →
  RouterInv w'.
Proof.
  intros [H1 H2] Hroom Hrouter Hrooms Hrouters. unfold RouterInv, getRoom in *.
  rewrite Hrooms, Hrouters. split.
  - intros rid r. destruct (decide (roomId = rid)) as [<-|Hne].
    + rewrite get_set_eq. intros [= <-]. rewrite Hrouter. eauto.
    + rewrite get_set_ne by done. eauto.
  - intros rid Hr. destruct (decide (roomId = rid)) as [<-|Hne].
    + rewrite get_set_eq. eauto.
    + rewrite get_set_ne by done. eauto.
Qed.

Lemma RouterInv_teardown roomId w : RouterInv w → RouterInv (teardown roomId w).
Proof.
  intros [H1 H2]. unfold RouterInv, getRoom in *.
  rewrite rooms_teardown, routers_teardown_eq. split.
  - intros rid r. destruct (decide (roomId = rid)) as [<-|Hne].
    + by rewrite get_delete_eq.
    + rewrite get_delete_ne, lookup_delete_ne by done. eauto.
  - intros rid. destruct (decide (roomId = rid)) as [<-|Hne].
    + rewrite lookup_delete_eq. by intros [? ?].
    + rewrite get_delete_ne, lookup_delete_ne by done. eauto.
Qed.

Ltac router_set roomId room Hinv Hroom :=
  eapply (RouterInv_set_room roomId room);
  [exact Hinv|exact Hroom| |simpl; reflexivity|reflexivity]; reflexivity.

Lemma RouterInv_joinRoom roomId peerId peerName w :
  RouterInv w → RouterInv (snd (joinRoom roomId peerId peerName w)).
Proof.
  intros Hinv. unfold joinRoom.
  destruct (JsMap.get (rooms w) roomId) as [room|] eqn:Hroom; [|done].
  destruct (JsMap.has _ _); [done|]. router_set roomId room Hinv Hroom.
Qed.

Lemma RouterInv_leaveRoom roomId peerId w :
  RouterInv w → RouterInv (snd (leaveRoom roomId peerId w)).
Proof.
  intros Hinv. rewrite leaveRoom_eq.
  destruct (JsMap.get (rooms w) roomId) as [room|] eqn:Hroom; [|done].
  destruct (JsMap.get (peers room) peerId) as [peer|]; [|done]. cbn [snd].
  assert (RouterInv (afterPeerDelete roomId peerId room peer w)) as H2
    by (router_set roomId room Hinv Hroom).
  destruct (Nat.eqb _ 0); [by apply RouterInv_teardown|done].
Qed.

Lemma RouterInv_closeRoom roomId w :
  RouterInv w → RouterInv (snd (closeRoom roomId w)).
Proof.
  intros Hinv. rewrite closeRoom_eq.
  destruct (JsMap.get (rooms w) roomId) as [room|]; [|done]. cbn [snd].
  apply RouterInv_teardown.
  generalize (JsMap.values (peers room)) as ps. intros ps. revert w Hinv.
  induction ps as [|p ps IH]; intros w Hinv; [done|]. simpl.
  apply IH. by apply RouterInv_leaveRoom.
Qed.

Lemma RouterInv_updatePeer roomId peerId f w :
  RouterInv w → RouterInv (updatePeer roomId peerId f w).
Proof.
  intros Hinv. unfold updatePeer.
  destruct (JsMap.get (rooms w) roomId) as [room|] eqn:Hroom; [|done].
  destruct (JsMap.get (peers room) peerId); [|done].
  router_set roomId room Hinv Hroom.
Qed.

Lemma RouterInv_updateRoomRecordingStatus roomId b rid fp now w :
  RouterInv w → RouterInv (updateRoomRecordingStatus roomId b rid fp now w).
Proof.
  intros Hinv. unfold updateRoomRecordingStatus.
  destruct (JsMap.get (rooms w) roomId) as [room|] eqn:Hroom; [|done].
  router_set roomId room Hinv Hroom.
Qed.

Lemma RouterInv_createRoom roomId roomName engine w :
  RouterInv w → RouterInv (snd (createRoom roomId roomName engine w)).
Proof.
  intros [H1 H2]. unfold createRoom, createRouter.
  destruct (routers w !! roomId) as [r|] eqn:Hr; simpl.
  - destruct (H2 roomId) as [room Hroom]; [by eauto|].
    eapply (RouterInv_set_room roomId room);
      [by split|exact Hroom| |simpl; reflexivity|reflexivity].
    simpl. apply H1 in Hroom. congruence.
  - destruct engine as [r|e]; [|done]. simpl.
    unfold RouterInv, getRoom in *. simpl. split.
    + intros rid room. destruct (decide (roomId = rid)) as [<-|Hne].
      * rewrite get_set_eq, lookup_insert_eq. by intros [= <-].
      * rewrite get_set_ne, lookup_insert_ne by done. eauto.
    + intros rid. destruct (decide (roomId = rid)) as [<-|Hne].
      * rewrite get_set_eq. eauto.
      * rewrite get_set_ne, lookup_insert_ne by done. eauto.
Qed.

Lemma RouterInv_startRecording outputPath format roomId recordingId isoTime now plain
    outcome w :
  RouterInv w →
  RouterInv (snd (startRecording outputPath format roomId recordingId isoTime now plain
                                 outcome w)).
Proof.
  intros Hinv. unfold startRecording.
  destruct (getRoom roomId w); [|done].
  destruct (isRoomRecording roomId w); [done|].
  destruct plain; [|by eapply RouterInv_ext].
  destruct outcome; simpl; [|by eapply RouterInv_ext..].
  apply RouterInv_updateRoomRecordingStatus. by eapply RouterInv_ext.
Qed.

Lemma RouterInv_stopRecording recordingId now kill w :
  RouterInv w → RouterInv (snd (stopRecording recordingId now kill w)).
Proof.
  intros Hinv. unfold stopRecording.
  destruct (JsMap.get (recordings w) recordingId); [|done].
  destruct (decide _); [|done].
  destruct (activeRecorders w !! recordingId); [destruct kill|]; simpl;
    try (apply RouterInv_updateRoomRecordingStatus); by eapply RouterInv_ext.
Qed.

Lemma RouterInv_deleteRecording recordingId now kill fileExists w :
  RouterInv w → RouterInv (snd (deleteRecording recordingId now kill fileExists w)).
Proof.
  intros Hinv. unfold deleteRecording.
  destruct (JsMap.get (recordings w) recordingId) as [recording|]; [|done]. simpl.
  assert (RouterInv (if decide (rec_status recording = SRecording)
                     then snd (stopRecording recordingId now kill w) else w)) as H1.
  { destruct (decide _); [by apply RouterInv_stopRecording|done]. }
  destruct fileExists; by eapply RouterInv_ext.
Qed.

Lemma RouterInv_ffmpegEnd recordingId w : RouterInv w → RouterInv (ffmpegEnd recordingId w).
Proof.
  intros Hinv. unfold ffmpegEnd. simpl.
  destruct (JsMap.get (recordings w) recordingId) as [recording|]; [|by eapply RouterInv_ext].
  destruct (decide _); by eapply RouterInv_ext.
Qed.

Lemma RouterInv_reachable outputPath format w :
  reachable outputPath format w → RouterInv w.
Proof.
  unfold reachable. intros Hr.
  assert (RouterInv emptyWorld) as H0.
  { split; [done|]. intros rid [r Hr']. cbn [routers emptyWorld] in Hr'.
    by rewrite lookup_empty in Hr'. }
  induction Hr as [|w1 w2 w3 Hstep _ IH]; [done|].
  apply IH. destruct Hstep.
  - by apply RouterInv_createRoom.
  - by apply RouterInv_joinRoom.
  - by apply RouterInv_leaveRoom.
  - by apply RouterInv_closeRoom.
  - by apply RouterInv_updatePeer.
  - by eapply RouterInv_ext.
  - by apply RouterInv_startRecording.
  - by apply RouterInv_stopRecording.
  - by apply RouterInv_deleteRecording.
  - by apply RouterInv_ffmpegEnd.
  - by eapply RouterInv_ext.
Qed.

(** X7. In every state the services reach, rooms and routers are
    registered together: a registered room has its own router registered
    under the room id, and no router is registered without its room. *)
Theorem rooms_and_routers_go_together outputPath format w :
  reachable outputPath format w →
  (∀ roomId room, getRoom roomId w = Some room →
                  getRouter roomId w = Some (router room)) ∧
  (∀ roomId, is_Some (getRouter roomId w) → is_Some (getRoom roomId w)).
Proof. intros Hr. by apply RouterInv_reachable in Hr. Qed.

(* ===================================================================== *)
(** ** Further properties of the signaling handlers *)
(* ===================================================================== *)

Lemma createRoom_Ok_id roomId roomName engine w room w1 :
  createRoom roomId roomName engine w = (Ok room, w1) →
  room_id room = roomId ∧ room_name room = roomName ∧
  recordings w1 = recordings w ∧ activeRecorders w1 = activeRecorders w.
Proof.
  unfold createRoom, createRouter.
  destruct (routers w !! roomId); [by intros [= <- <-]|].
  destruct engine; [by intros [= <- <-]|done].
Qed.

Lemma createRoom_Throw roomId roomName engine w e w1 :
  createRoom roomId roomName engine w = (Throw e, w1) → w1 = w.
Proof.
  unfold createRoom, createRouter.
  destruct (routers w !! roomId); [done|].
  destruct engine; [done|by intros [= _ <-]].
Qed.

(** The two ways [handleJoin] ends. *)
Lemma handleJoin_cases socket roomName peerName newRoomId engine w :
  let peerId := data_peerId socket in
  (∃ e, handleJoin socket roomName peerName newRoomId engine w
        = (socket, emit (ToSocket peerId) (MError e) w))
  ∨
  (∃ room w1 peer w2,
      foundOrCreated roomName newRoomId engine w room w1 ∧
      joinRoom (room_id room) peerId peerName w1 = (Ok peer, w2) ∧
      handleJoin socket roomName peerName newRoomId engine w
      = ({| data_peerId := peerId; data_roomId := Some (room_id room) |},
         joinEmissions peerId peerName room w2)).
Proof.
  intros peerId. unfold handleJoin. fold peerId.
  destruct (getRoomByName roomName w) as [room|] eqn:Hfound.
  - pose proof (joinRoom_spec (room_id room) peerId peerName w) as Hj.
    destruct (joinRoom (room_id room) peerId peerName w) as [[peer|e] w2] eqn:Hjoin.
    + right. exists room, w, peer, w2. split_and!; [by left|done|done].
    + left. destruct Hj as [-> _]. by exists e.
  - destruct (createRoom newRoomId roomName engine w) as [[room|e] w1] eqn:Hcreate.
    + destruct (createRoom_ok _ _ _ _ _ _ Hcreate) as (Hroom & Hempty & _).
      destruct (createRoom_Ok_id _ _ _ _ _ _ Hcreate) as (Hid & _).
      pose proof (joinRoom_spec (room_id room) peerId peerName w1) as Hj.
      destruct (joinRoom (room_id room) peerId peerName w1) as [[peer|e] w2] eqn:Hjoin.
      * right. exists room, w1, peer, w2. split_and!; [by right|done|done].
      * exfalso. destruct Hj as [_ [Hnone|(room0 & Hroom0 & [p Hp])]].
        -- rewrite Hid in Hnone. congruence.
        -- rewrite Hid, Hroom in Hroom0. injection Hroom0 as <-.
           by rewrite Hempty in Hp.
    + left. apply createRoom_Throw in Hcreate as ->. by exists e.
Qed.

(** X8. A [join] that is answered with an [error] changed nothing: the
    socket is not bound to a room, and rooms, routers and recordings are as
    before; the [error] is the handler's only trace. *)
Theorem handleJoin_error_changes_nothing socket roomName peerName newRoomId engine w e :
  let w' := snd (handleJoin socket roomName peerName newRoomId engine w) in
  In (Emit (ToSocket (data_peerId socket)) (MError e)) (newEffects w w') →
  fst (handleJoin socket roomName peerName newRoomId engine w) = socket ∧
  rooms w' = rooms w ∧ routers w' = routers w ∧ recordings w' = recordings w ∧
  newEffects w w' = [Emit (ToSocket (data_peerId socket)) (MError e)].
Proof.
  intros w'. subst w'.
  destruct (handleJoin_cases socket roomName peerName newRoomId engine w)
    as [[e' ->]|(room & w1 & peer & w2 & Hfc & Hjoin & ->)]; cbn [fst snd].
  - rewrite (newEffects_app w _ [Emit (ToSocket (data_peerId socket)) (MError e')])
      by done.
    intros [[= <-]|[]]. done.
  - intros Hin. exfalso.
    pose proof (joinRoom_spec (room_id room) (data_peerId socket) peerName w1) as Hj.
    rewrite Hjoin in Hj. destruct Hj as (_ & _ & _ & _ & _ & Htr2).
    assert (∃ pre, trace w1 = trace w ++ pre ∧ noEmissions pre) as (pre & Htr1 & Hpre).
    { destruct Hfc as [[_ ->]|[_ Hc]].
      - exists []. split; [by rewrite app_nil_r|]. by intros ? ? [].
      - pose proof (trace_createRoom newRoomId roomName engine w) as Ht.
        by rewrite Hc in Ht. }
    revert Hin. erewrite newEffects_app.
    2: { unfold joinEmissions. simpl. rewrite Htr2, Htr1.
         rewrite <- !app_assoc. reflexivity. }
    rewrite in_app_iff. simpl. intros [Hin|Hin].
    + by eapply Hpre.
    + intuition discriminate.
Qed.

Lemma joinRoom_Ok_eq roomId peerId peerName w peer w2 :
  joinRoom roomId peerId peerName w = (Ok peer, w2) →
  ∃ room0,
    getRoom roomId w = Some room0 ∧ JsMap.get (peers room0) peerId = None ∧
    peer = {| peer_id := peerId; peer_name := peerName; transports := JsMap.empty;
              producers := JsMap.empty; consumers := JsMap.empty |} ∧
    rooms w2 = JsMap.set (rooms w) roomId
                 (set_peers (fun ps => JsMap.set ps peerId peer) room0) ∧
    routers w2 = routers w ∧ recordings w2 = recordings w ∧
    trace w2 = trace w ++ [PeerSet roomId peerId].
Proof.
  unfold joinRoom, getRoom, JsMap.has.
  destruct (JsMap.get (rooms w) roomId) as [room|]; [|done].
  destruct (JsMap.get (peers room) peerId) eqn:Hpeer; [done|].
  intros [= <- <-]. by exists room.
Qed.

Lemma foundOrCreated_trace roomName newRoomId engine w room w1 :
  foundOrCreated roomName newRoomId engine w room w1 →
  ∃ pre, trace w1 = trace w ++ pre ∧ noEmissions pre.
Proof.
  intros [[_ ->]|[_ Hc]].
  - exists []. split; [by rewrite app_nil_r|]. by intros ? ? [].
  - pose proof (trace_createRoom newRoomId roomName engine w) as Ht.
    by rewrite Hc in Ht.
Qed.

(** What a successful [handleJoin] logs. *)
Lemma joinEmissions_effects roomName newRoomId engine w room w1 peerId peerName peer w2 :
  foundOrCreated roomName newRoomId engine w room w1 →
  joinRoom (room_id room) peerId peerName w1 = (Ok peer, w2) →
  ∃ pre, noEmissions pre ∧
    newEffects w (joinEmissions peerId peerName room w2) =
    pre ++ [Emit (ToSocket peerId)
                 (MJoined peerId (room_id room)
                          (getRouterRtpCapabilities (room_id room) w2)
                          (isRecording (recording room)));
            Emit (ToRoomExcept (room_id room) peerId) (MPeerJoined peerId peerName);
            Emit (ToSocket peerId)
                 (MExistingPeers
                    (map (fun p => (peer_id p, peer_name p))
                         (getRoomPeersExcept (room_id room) peerId w2)))].
Proof.
  intros Hfc Hjoin.
  destruct (foundOrCreated_trace _ _ _ _ _ _ Hfc) as (pre & Htr1 & Hpre).
  apply joinRoom_Ok_eq in Hjoin as (_ & _ & _ & _ & _ & _ & _ & Htr2).
  exists (pre ++ [PeerSet (room_id room) peerId]). split.
  - intros t m Hin. apply in_app_iff in Hin as [Hin|[?|[]]]; [|discriminate].
    by eapply Hpre.
  - apply newEffects_app. unfold joinEmissions. simpl. rewrite Htr2, Htr1.
    rewrite <- !app_assoc. reflexivity.
Qed.

(** An emission found among the effects of a successful [handleJoin] is one
    of the three. *)
Lemma joinEmissions_In roomName newRoomId engine w room w1 peerId peerName peer w2 tgt msg :
  foundOrCreated roomName newRoomId engine w room w1 →
  joinRoom (room_id room) peerId peerName w1 = (Ok peer, w2) →
  In (Emit tgt msg) (newEffects w (joinEmissions peerId peerName room w2)) →
  (tgt = ToSocket peerId ∧
   msg = MJoined peerId (room_id room) (getRouterRtpCapabilities (room_id room) w2)
                 (isRecording (recording room))) ∨
  (tgt = ToRoomExcept (room_id room) peerId ∧ msg = MPeerJoined peerId peerName) ∨
  (tgt = ToSocket peerId ∧
   msg = MExistingPeers (map (fun p => (peer_id p, peer_name p))
                             (getRoomPeersExcept (room_id room) peerId w2))).
Proof.
  intros Hfc Hjoin.
  destruct (joinEmissions_effects _ _ _ _ _ _ _ _ _ _ Hfc Hjoin) as (pre & Hpre & ->).
  rewrite in_app_iff. simpl. intros [Hin|[Hin|[Hin|[Hin|[]]]]].
  - by apply Hpre in Hin.
  - injection Hin as <- <-. by left.
  - injection Hin as <- <-. right. by left.
  - injection Hin as <- <-. right. by right.
Qed.

(** X9. [handleJoin] gets or creates.  If a room has the name, no room and
    no router is added and the engine is not asked.  If none has it and the
    engine gives a router, the join succeeds: the socket is bound to the new
    room id, under which a room of that name with a router is registered,
    holding the joiner alone. *)
Theorem handleJoin_gets_or_creates socket roomName peerName newRoomId engine w :
  let res := handleJoin socket roomName peerName newRoomId engine w in
  (is_Some (getRoomByName roomName w) →
     JsMap.keys (rooms (snd res)) = JsMap.keys (rooms w) ∧
     routers (snd res) = routers w ∧
     ∀ newRoomId' engine',
       handleJoin socket roomName peerName newRoomId' engine' w = res) ∧
  (getRoomByName roomName w = None → is_throw engine = false →
     data_roomId (fst res) = Some newRoomId ∧
     is_Some (getRouter newRoomId (snd res)) ∧
     ∃ room, getRoom newRoomId (snd res) = Some room ∧
             room_name room = roomName ∧
             JsMap.keys (peers room) = [data_peerId socket]).
Proof.
  intros res. subst res. split.
  - intros [room Hfound].
    assert (JsMap.keys (rooms (snd (handleJoin socket roomName peerName newRoomId
                                               engine w))) = JsMap.keys (rooms w) ∧
            routers (snd (handleJoin socket roomName peerName newRoomId engine w))
              = routers w) as [Hkeys Hrouters].
    { destruct (handleJoin_cases socket roomName peerName newRoomId engine w)
        as [[e ->]|(room' & w1 & peer & w2 & Hfc & Hjoin & ->)]; [done|].
      destruct Hfc as [[_ ->]|[Hnone _]]; [|congruence].
      apply joinRoom_Ok_eq in Hjoin as (room0 & Hroom0 & _ & _ & Hrooms & Hr & _).
      cbn. rewrite Hrooms, Hr. split; [|done]. apply keys_set_present.
      unfold getRoom in Hroom0. rewrite Hroom0. eauto. }
    split_and!; [done|done|].
    + intros newRoomId' engine'. unfold handleJoin. by rewrite Hfound.
  - intros Hnone Hengine. destruct engine as [r|e]; [|done].
    unfold handleJoin. rewrite Hnone.
    destruct (createRoom newRoomId roomName (Ok r) w) as [[room|e] w1] eqn:Hcreate.
    2: { exfalso. revert Hcreate. unfold createRoom, createRouter.
         by destruct (routers w !! newRoomId). }
    destruct (createRoom_ok _ _ _ _ _ _ Hcreate) as (Hroom & Hempty & Hrouter).
    destruct (createRoom_Ok_id _ _ _ _ _ _ Hcreate) as (Hid & Hname & _).
    rewrite Hid. unfold joinRoom, JsMap.has. unfold getRoom in Hroom.
    rewrite Hroom, Hempty. cbn. split_and!; [done|done|].
    rewrite get_set_eq. eexists. split; [done|]. cbn. by rewrite Hempty.
Qed.


Lemma values_set_absent {V} (m : JsMap.t V) k v :
  JsMap.get m k = None → JsMap.values (JsMap.set m k v) = JsMap.values m ++ [v].
Proof.
  unfold JsMap.values. induction m as [|[k' v'] m IH]; simpl; [done|].
  destruct (String.eqb k' k) eqn:E; [done|]. simpl. intros H. by rewrite IH.
Qed.

Lemma filter_id_in {A} (f : A → bool) (l : list A) :
  (∀ x, In x l → f x = true) → List.filter f l = l.
Proof.
  induction l as [|x l IH]; intros H; [done|]. simpl.
  rewrite (H x) by (by left). f_equal. apply IH. intros y Hy. apply H. by right.
Qed.

Lemma filter_keyed_others (l : JsMap.t PeerInfo) peerId :
  JsMap.get l peerId = None → (∀ k p, In (k, p) l → peer_id p = k) →
  List.filter (fun peer => negb (String.eqb (peer_id peer) peerId)) (JsMap.values l)
  = JsMap.values l.
Proof.
  intros Hfree Hkeyed. apply filter_id_in. intros p Hp.
  unfold JsMap.values in Hp. apply in_map_iff in Hp as ([k p'] & Heq & Hin).
  simpl in Heq. subst p'. rewrite (Hkeyed _ _ Hin).
  apply negb_true_iff, String.eqb_neq. intros ->.
  apply get_None_keys in Hfree. apply Hfree. unfold JsMap.keys.
  change peerId with (fst (peerId, p)). by apply in_map.
Qed.

(** X11. The [existingPeers] snapshot sent by [handleJoin] never names
    the joiner.  For a room created by this join it is empty; for a room
    found by name, registered under its id with its peers under theirs, it
    lists exactly the peers the room had before the join, in map order. *)
Theorem existingPeers_is_the_room_before socket roomName peerName newRoomId engine w
    existing :
  let peerId := data_peerId socket in
  let w' := snd (handleJoin socket roomName peerName newRoomId engine w) in
  In (Emit (ToSocket peerId) (MExistingPeers existing)) (newEffects w w') →
  ¬ In peerId (map fst existing) ∧
  (getRoomByName roomName w = None → existing = []) ∧
  (∀ room room0,
     getRoomByName roomName w = Some room → getRoom (room_id room) w = Some room0 →
     keyedPeers room0 →
     existing = map (fun p => (peer_id p, peer_name p)) (JsMap.values (peers room0))).
Proof.
  intros peerId w'. subst w'. intros Hin.
  destruct (handleJoin_cases socket roomName peerName newRoomId engine w)
    as [[e Heq]|(room & w1 & peer & w2 & Hfc & Hjoin & Heq)];
    rewrite Heq in Hin; cbn [snd] in Hin.
  { rewrite (newEffects_app w _ [Emit (ToSocket (data_peerId socket)) (MError e)])
      in Hin by done.
    destruct Hin as [?|[]]; discriminate. }
  fold peerId in Hjoin.
  apply (joinEmissions_In _ _ _ _ _ _ _ _ _ _ _ _ Hfc Hjoin) in Hin
    as [[_ Hm]|[[_ Hm]|[_ Hm]]]; try discriminate.
  injection Hm as ->.
  apply joinRoom_Ok_eq in Hjoin as (room1 & Hroom1 & Hfree & Hpeer & Hrooms & _).
  assert (getRoomPeersExcept (room_id room) peerId w2 =
          List.filter (fun p => negb (String.eqb (peer_id p) peerId))
                      (JsMap.values (peers room1))) as Hexcept.
  { unfold getRoomPeersExcept. rewrite Hrooms, get_set_eq. cbn [peers set_peers].
    rewrite values_set_absent by done. rewrite List.filter_app. simpl.
    rewrite Hpeer. cbn [peer_id]. rewrite eqb_refl_s. simpl. apply app_nil_r. }
  rewrite Hexcept. split_and!.
  - rewrite map_map. simpl. rewrite in_map_iff. intros (p & Hid & Hp).
    apply filter_In in Hp as [_ Hp]. rewrite Hid, eqb_refl_s in Hp. done.
  - intros Hnone. destruct Hfc as [[Hsome _]|[_ Hc]]; [congruence|].
    destruct (createRoom_ok _ _ _ _ _ _ Hc) as (Hroom & Hempty & _).
    destruct (createRoom_Ok_id _ _ _ _ _ _ Hc) as (Hid & _).
    rewrite Hid, Hroom in Hroom1. injection Hroom1 as <-. by rewrite Hempty.
  - intros room' room0 Hfound Hroom0 [_ Hkeyed].
    destruct Hfc as [[Hsome ->]|[Hnone _]]; [|congruence].
    rewrite Hfound in Hsome. injection Hsome as ->.
    rewrite Hroom0 in Hroom1. injection Hroom1 as <-.
    by rewrite filter_keyed_others.
Qed.

(** X12. [handleDisconnect] of a socket that never joined changes
    nothing.  For a joined socket the peer is out of the room afterwards,
    the last thing logged is [peerLeft] for it, addressed to the rest of the
    room, and nothing is emitted to the leaving socket. *)
Theorem handleDisconnect_removes_and_announces socket w :
  (data_roomId socket = None → handleDisconnect socket w = w) ∧
  (∀ roomId, data_roomId socket = Some roomId →
     truthy roomId = true → truthy (data_peerId socket) = true →
     let w' := handleDisconnect socket w in
     getPeer roomId (data_peerId socket) w' = None ∧
     (∃ pre, noEmissions pre ∧
             newEffects w w' =
             pre ++ [Emit (ToRoomExcept roomId (data_peerId socket))
                          (MPeerLeft (data_peerId socket))])).
Proof.
  unfold handleDisconnect. split; [by intros ->|].
  intros roomId -> -> ->. cbn [andb].
  set (peerId := data_peerId socket). split.
  - rewrite getPeer_emit.
    destruct (getPeer_after_leaveRoom roomId peerId w) as [Heq|Hnone]; [|done].
    destruct (getPeer roomId peerId w) as [peer|] eqn:Hpeer; [|done].
    assert (fst (leaveRoom roomId peerId w) = true) as Htrue.
    { rewrite leaveRoom_eq. unfold getPeer in Hpeer.
      destruct (JsMap.get (rooms w) roomId); [|done]. by rewrite Hpeer. }
    by apply leaveRoom_true_removes in Htrue as (_ & Hgone & _).
  - destruct (getPeer roomId peerId w) as [peer|] eqn:Hpeer.
    + destruct (leaveRoom_local roomId peerId peer w Hpeer) as (_ & _ & _ & Heff).
      exists (newEffects w (snd (leaveRoom roomId peerId w))). split.
      * intros t m Hin. apply Heff in Hin as [Hin|[?|[?|?]]]; try discriminate.
        revert Hin. unfold closeAll. rewrite !in_app_iff, !in_map_iff.
        intros [[? [? _]]|[[? [? _]]|[? [? _]]]]; discriminate.
      * unfold getPeer in Hpeer.
        destruct (JsMap.get (rooms w) roomId) as [room|] eqn:Hroom; [|done].
        destruct (leaveRoom_trace roomId peerId room peer w Hroom Hpeer) as [rest Htr].
        rewrite (newEffects_app _ _ _ Htr).
        apply newEffects_app. simpl. rewrite Htr. by rewrite <- !app_assoc.
    + assert (leaveRoom roomId peerId w = (false, w)) as ->.
      { rewrite leaveRoom_eq. unfold getPeer in Hpeer.
        destruct (JsMap.get (rooms w) roomId); [|done]. by rewrite Hpeer. }
      exists []. split; [by intros ? ? []|]. by apply newEffects_app.
Qed.

Lemma trace_updatePeer roomId peerId f w : trace (updatePeer roomId peerId f w) = trace w.
Proof.
  unfold updatePeer. destruct (JsMap.get _ _) as [r|]; [|done].
  by destruct (JsMap.get (peers r) peerId).
Qed.

Lemma newEffects_emit_only w tgt msg e tgt' :
  In (Emit tgt' (MError e)) (newEffects w (emit tgt msg w)) → msg = MError e.
Proof.
  rewrite (newEffects_app w _ [Emit tgt msg]) by done.
  intros [[= _ <-]|[]]. done.
Qed.

(** X13. [handleProduce]: for a peer found in the socket's room that
    holds the named transport and an engine that returns a producer, the
    producer is stored under its id in that peer's producer map, [produced]
    goes to the requester and then [newProducer] to the rest of the room,
    not to the requester.  A transport the peer does not hold gives
    ['Transport not found'].  Whenever an [error] is emitted, no room or
    peer has changed. *)
Theorem handleProduce_stores_and_announces socket peerId transportId kind engine w :
  let w' := handleProduce socket peerId transportId kind engine w in
  let self := data_peerId socket in
  (∀ roomId peer transport producer,
     data_roomId socket = Some roomId → getPeer roomId peerId w = Some peer →
     JsMap.get (transports peer) transportId = Some transport →
     engine = Ok producer →
     getPeer roomId peerId w' = Some (addProducer producer peer) ∧
     newEffects w w' =
       [Emit (ToSocket self) (MProduced (producer_id producer));
        Emit (ToRoomExcept roomId self)
             (MNewProducer peerId (producer_id producer) kind)]) ∧
  (∀ roomId peer,
     data_roomId socket = Some roomId → getPeer roomId peerId w = Some peer →
     JsMap.get (transports peer) transportId = None →
     w' = emit (ToSocket self) (MError "Transport not found") w) ∧
  (∀ e, In (Emit (ToSocket self) (MError e)) (newEffects w w') → rooms w' = rooms w).
Proof.
  intros w' self. subst w'. unfold handleProduce. fold self. split_and!.
  - intros roomId peer transport producer -> Hpeer Htr ->.
    simpl. rewrite Hpeer. simpl. rewrite Htr. split.
    + rewrite !getPeer_emit. by apply (getPeer_updatePeer _ _ _ peer).
    + apply newEffects_app. simpl. rewrite trace_updatePeer.
      by rewrite <- app_assoc.
  - intros roomId peer -> Hpeer Htr. simpl. rewrite Hpeer. simpl. by rewrite Htr.
  - intros e.
    destruct (data_roomId socket ≫= _) as [[roomId peer]|]; [|done].
    destruct (JsMap.get (transports peer) transportId); [|done].
    destruct engine as [producer|e']; [|done].
    intros Hin. exfalso. revert Hin.
    erewrite newEffects_app.
    2: { simpl. rewrite trace_updatePeer. rewrite <- app_assoc. reflexivity. }
    simpl. intuition discriminate.
Qed.

(** X14. [handleConsume]: when every check passes and the engine returns
    a consumer, the consumer is stored under its id in the requesting
    peer's consumer map and [consumed] goes to the requester alone.  A
    producer id that no peer of the room holds gives ['Producer not found'],
    a peer without a receive transport gives ['Receive transport not
    found'].  Whenever an [error] is emitted, no room or peer has changed. *)
Theorem handleConsume_stores_or_rejects socket peerId producerId canConsume engine w :
  let w' := handleConsume socket peerId producerId canConsume engine w in
  let self := data_peerId socket in
  (∀ roomId peer producerPeer producer recvTransport consumer,
     data_roomId socket = Some roomId → getPeer roomId peerId w = Some peer →
     List.find (fun p => JsMap.has (producers p) producerId) (getRoomPeers roomId w)
       = Some producerPeer →
     JsMap.get (producers producerPeer) producerId = Some producer →
     canConsume = true →
     List.find isRecv (JsMap.values (transports peer)) = Some recvTransport →
     engine = Ok consumer →
     getPeer roomId peerId w' = Some (addConsumer consumer peer) ∧
     newEffects w w' =
       [ConsumerCreate (transport_id recvTransport) (producer_id producer);
        Emit (ToSocket self)
             (MConsumed (consumer_id consumer) (producer_id producer)
                        (consumer_kind consumer) (consumer_rtpParameters consumer))]) ∧
  (∀ roomId peer,
     data_roomId socket = Some roomId → getPeer roomId peerId w = Some peer →
     ¬ producerInRoom roomId producerId w →
     w' = emit (ToSocket self) (MError "Producer not found") w) ∧
  (∀ roomId peer,
     data_roomId socket = Some roomId → getPeer roomId peerId w = Some peer →
     producerInRoom roomId producerId w → canConsume = true →
     List.find isRecv (JsMap.values (transports peer)) = None →
     w' = emit (ToSocket self) (MError "Receive transport not found") w) ∧
  (∀ e, In (Emit (ToSocket self) (MError e)) (newEffects w w') → rooms w' = rooms w).
Proof.
  intros w' self. subst w'. unfold handleConsume. fold self.
  change (fun t => match transport_appData_direction t with
                   | Some Recv => true
                   | _ => false
                   end) with isRecv.
  split_and!.
  - intros roomId peer producerPeer producer recvTransport consumer
           -> Hpeer Hfind Hprod -> Hrecv ->.
    destruct (getPeer_Some_getRoom _ _ _ _ Hpeer) as [room Hroom].
    simpl. rewrite Hroom. simpl. rewrite Hpeer. simpl.
    rewrite Hfind, Hprod. simpl. rewrite Hrecv. split.
    + rewrite getPeer_emit. by apply (getPeer_updatePeer _ _ _ peer).
    + apply newEffects_app. simpl. rewrite trace_updatePeer. simpl.
      by rewrite <- app_assoc.
  - intros roomId peer -> Hpeer Hnot.
    destruct (getPeer_Some_getRoom _ _ _ _ Hpeer) as [room Hroom].
    simpl. rewrite Hroom. simpl. rewrite Hpeer. simpl.
    destruct (List.find _ (getRoomPeers roomId w)) as [pp|] eqn:Hfind; [|done].
    exfalso. apply Hnot. apply find_some in Hfind. by exists pp.
  - intros roomId peer -> Hpeer (pp & Hpp & Hhas) -> Hrecv.
    destruct (getPeer_Some_getRoom _ _ _ _ Hpeer) as [room Hroom].
    simpl. rewrite Hroom. simpl. rewrite Hpeer. simpl.
    destruct (List.find _ (getRoomPeers roomId w)) as [pp'|] eqn:Hfind.
    2: { eapply find_none in Hfind; [|exact Hpp]. simpl in Hfind. congruence. }
    apply find_some in Hfind as [_ Hhas']. unfold JsMap.has in Hhas'.
    destruct (JsMap.get (producers pp') producerId); [|done].
    simpl. by rewrite Hrecv.
  - intros e.
    destruct (data_roomId socket ≫= _) as [[[roomId room] peer]|]; [|done].
    destruct (List.find _ (getRoomPeers roomId w)) as [pp|]; [|done].
    destruct (JsMap.get (producers pp) producerId) as [producer|]; [|done].
    destruct (negb canConsume); [done|].
    destruct (List.find isRecv _) as [recvTransport|]; [|done].
    destruct engine as [consumer|e']; [|done].
    intros Hin. exfalso. revert Hin.
    erewrite newEffects_app.
    2: { simpl. rewrite trace_updatePeer. simpl. rewrite <- app_assoc. reflexivity. }
    simpl. intuition discriminate.
Qed.

(* ===================================================================== *)
(** ** Further properties of recording *)
(* ===================================================================== *)

Lemma isRoomRecording_update roomId b rid fp now w :
  isRoomRecording roomId (updateRoomRecordingStatus roomId b rid fp now w)
  = (b && bool_decide (is_Some (getRoom roomId w)))%bool.
Proof.
  unfold isRoomRecording, updateRoomRecordingStatus, getRoom.
  destruct (JsMap.get (rooms w) roomId) as [room|] eqn:Hroom.
  - cbn [rooms set_rooms]. rewrite get_set_eq. cbn. by rewrite andb_true_r.
  - rewrite Hroom. cbn. by rewrite andb_false_r.
Qed.

Lemma recordings_update roomId b rid fp now w :
  recordings (updateRoomRecordingStatus roomId b rid fp now w) = recordings w.
Proof. apply updateRoomRecordingStatus_rooms. Qed.

Lemma trace_update roomId b rid fp now w :
  trace (updateRoomRecordingStatus roomId b rid fp now w) = trace w.
Proof.
  unfold updateRoomRecordingStatus. by destruct (JsMap.get (rooms w) roomId).
Qed.

Lemma activeRecorders_update roomId b rid fp now w :
  activeRecorders (updateRoomRecordingStatus roomId b rid fp now w) = activeRecorders w.
Proof.
  unfold updateRoomRecordingStatus. by destruct (JsMap.get (rooms w) roomId).
Qed.

(** When and how [startRecording] succeeds. *)
Lemma startRecording_Ok outputPath format roomId recordingId isoTime now plain outcome w :
  let res := startRecording outputPath format roomId recordingId isoTime now plain
                            outcome w in
  (is_throw (fst res) = false ↔
     is_Some (getRoom roomId w) ∧ isRoomRecording roomId w = false ∧
     is_throw plain = false ∧ outcome = FfmpegStarted) ∧
  (is_throw (fst res) = false →
     ∃ room, getRoom roomId w = Some room ∧
       let info := newSession outputPath format roomId recordingId isoTime now room in
       fst res = Ok info ∧
       getRecording recordingId (snd res) = Some info ∧
       isRoomRecording roomId (snd res) = true ∧
       is_Some (activeRecorders (snd res) !! recordingId) ∧
       (∀ id, id ≠ recordingId → getRecording id (snd res) = getRecording id w)).
Proof.
  intros res. subst res. unfold startRecording.
  destruct (getRoom roomId w) as [room|] eqn:Hroom.
  2: { simpl. split; [|done]. split; [done|]. by intros [[? ?] _]. }
  destruct (isRoomRecording roomId w) eqn:Hflag.
  { simpl. split; [|done]. split; [done|]. by intros (_ & ? & _). }
  destruct plain as [pt|e].
  2: { simpl. split; [|done]. split; [done|]. by intros (_ & _ & ? & _). }
  destruct outcome; simpl.
  - split; [split; eauto|]. intros _. exists room. split; [done|].
    unfold getRecording. split_and!.
    + done.
    + rewrite recordings_update. simpl. apply get_set_eq.
    + rewrite isRoomRecording_update. simpl. apply bool_decide_eq_true_2.
      unfold getRoom in *. simpl. eauto.
    + rewrite activeRecorders_update. simpl. rewrite lookup_insert_eq. eauto.
    + intros id Hne. rewrite recordings_update. simpl. by apply get_set_ne.
  - split; [|done]. split; [done|]. by intros (_ & _ & _ & ?).
  - split; [|done]. split; [done|]. by intros (_ & _ & _ & ?).
Qed.

(** X15. [startRecording] succeeds exactly when the room is registered
    and not flagged as recording, the plain transport is allocated and
    FFmpeg reports its start.  Then the session it returns is stored under
    the new id with status ['recording'], the file path that [path.join]
    gives for the output directory and the room's file name,
    and the ids of the room's peers; the room is flagged, the FFmpeg
    command is registered, and the other recordings are untouched. *)
Theorem startRecording_succeeds_iff outputPath format roomId recordingId isoTime now
    plain outcome w :
  let res := startRecording outputPath format roomId recordingId isoTime now plain
                            outcome w in
  (is_throw (fst res) = false ↔
     is_Some (getRoom roomId w) ∧ isRoomRecording roomId w = false ∧
     is_throw plain = false ∧ outcome = FfmpegStarted) ∧
  (is_throw (fst res) = false →
     ∃ room, getRoom roomId w = Some room ∧
       let info := newSession outputPath format roomId recordingId isoTime now room in
       fst res = Ok info ∧
       getRecording recordingId (snd res) = Some info ∧
       isRoomRecording roomId (snd res) = true ∧
       is_Some (activeRecorders (snd res) !! recordingId) ∧
       (∀ id, id ≠ recordingId → getRecording id (snd res) = getRecording id w)).
Proof. apply startRecording_Ok. Qed.

(** How [stopRecording] stops an active session. *)
Lemma stopRecording_Ok recordingId recording now kill w :
  getRecording recordingId w = Some recording →
  rec_status recording = SRecording →
  killPasses recordingId kill w →
  let res := stopRecording recordingId now kill w in
  let stopped := set_status SStopped (set_endTime now recording) in
  fst res = Ok stopped ∧
  getRecording recordingId (snd res) = Some stopped ∧
  isRoomRecording (rec_roomId recording) (snd res) = false ∧
  activeRecorders (snd res) !! recordingId = None ∧
  rooms (snd res) =
    rooms (updateRoomRecordingStatus (rec_roomId recording) false None None now w) ∧
  (∀ id, id ≠ recordingId → getRecording id (snd res) = getRecording id w).
Proof.
  unfold getRecording, stopRecording. intros Hrec Hst Hkill. rewrite Hrec.
  destruct (decide (rec_status recording = SRecording)); [|done].
  assert (∀ w1, recordings w1 = recordings w → rooms w1 = rooms w →
                activeRecorders w1 !! recordingId = None →
    let w3 := updateRoomRecordingStatus (rec_roomId recording) false None None now
                (set_recordings
                   (fun rs => JsMap.set rs recordingId
                                (set_status SStopped (set_endTime now recording))) w1) in
    JsMap.get (recordings w3) recordingId
      = Some (set_status SStopped (set_endTime now recording)) ∧
    isRoomRecording (rec_roomId recording) w3 = false ∧
    activeRecorders w3 !! recordingId = None ∧
    rooms w3 =
      rooms (updateRoomRecordingStatus (rec_roomId recording) false None None now w) ∧
    (∀ id, id ≠ recordingId →
           JsMap.get (recordings w3) id = JsMap.get (recordings w) id)) as Hok.
  { intros w1 Hr1 Hrm1 Har1 w3. subst w3. split_and!.
    - rewrite recordings_update. simpl. apply get_set_eq.
    - by rewrite isRoomRecording_update.
    - by rewrite activeRecorders_update.
    - unfold updateRoomRecordingStatus. simpl. rewrite Hrm1.
      destruct (JsMap.get (rooms w) (rec_roomId recording)); simpl; by rewrite Hrm1.
    - intros id Hne. rewrite recordings_update. simpl. rewrite Hr1.
      by apply get_set_ne. }
  destruct (activeRecorders w !! recordingId) eqn:Har.
  - destruct Hkill as [Hn|Hkill]; [congruence|]. destruct kill; [|by simpl in Hkill].
    cbn [fst snd]. split; [done|]. apply Hok; [done|done|].
    simpl. apply lookup_delete_eq.
  - cbn [fst snd]. split; [done|]. by apply Hok.
Qed.

(** X16. [stopRecording] on an active session whose FFmpeg command, if
    still registered, takes the kill: the session is returned and stored
    with status ['stopped'] and the end time, its other fields as they
    were; the room's recording flag is cleared, the command is unregistered,
    the other recordings are untouched.  An unknown id throws and changes
    nothing. *)
Theorem stopRecording_stops recordingId now kill w :
  (getRecording recordingId w = None →
     stopRecording recordingId now kill w =
       (Throw ("Recording " +:+ recordingId +:+ " not found"), w)) ∧
  (∀ recording,
     getRecording recordingId w = Some recording →
     rec_status recording = SRecording →
     killPasses recordingId kill w →
     let res := stopRecording recordingId now kill w in
     let stopped := set_status SStopped (set_endTime now recording) in
     fst res = Ok stopped ∧
     getRecording recordingId (snd res) = Some stopped ∧
     isRoomRecording (rec_roomId recording) (snd res) = false ∧
     activeRecorders (snd res) !! recordingId = None ∧
     (∀ id, id ≠ recordingId → getRecording id (snd res) = getRecording id w)).
Proof.
  split.
  - unfold getRecording, stopRecording. by intros ->.
  - intros recording Hrec Hst Hkill.
    destruct (stopRecording_Ok recordingId recording now kill w Hrec Hst Hkill)
      as (H1 & H2 & H3 & H4 & _ & H6). done.
Qed.

Lemma ffmpegEnd_get recordingId w :
  (∀ r, getRecording recordingId w = Some r →
        getRecording recordingId (ffmpegEnd recordingId w) =
        Some (if decide (rec_status r = SStopped) then set_status SCompleted r else r)) ∧
  (getRecording recordingId w = None →
     getRecording recordingId (ffmpegEnd recordingId w) = None) ∧
  (∀ id, id ≠ recordingId →
         getRecording id (ffmpegEnd recordingId w) = getRecording id w) ∧
  rooms (ffmpegEnd recordingId w) = rooms w ∧
  activeRecorders (ffmpegEnd recordingId w) = base.delete recordingId (activeRecorders w).
Proof.
  unfold getRecording, ffmpegEnd. cbn [recordings set_activeRecorders].
  destruct (JsMap.get (recordings w) recordingId) as [r|] eqn:Hr.
  - destruct (decide (rec_status r = SStopped)) as [Hs|Hs]; cbn; split_and!; try done.
    + intros r' [= <-]. rewrite decide_True by done. apply get_set_eq.
    + intros id Hne. by apply get_set_ne.
    + intros r' [= <-]. by rewrite decide_False.
  - cbn. split_and!; done.
Qed.

(** X17. The ['end'] event of FFmpeg turns a ['stopped'] session into a
    ['completed'] one and leaves a session with any other status, an active
    one included, as it is; it unregisters the command and touches no other
    recording and no room. *)
Theorem ffmpegEnd_completes_only_stopped recordingId w :
  let w' := ffmpegEnd recordingId w in
  (∀ r, getRecording recordingId w = Some r →
        getRecording recordingId w' =
        Some (if decide (rec_status r = SStopped) then set_status SCompleted r else r)) ∧
  (∀ id, id ≠ recordingId → getRecording id w' = getRecording id w) ∧
  rooms w' = rooms w ∧
  activeRecorders w' !! recordingId = None.
Proof.
  destruct (ffmpegEnd_get recordingId w) as (H1 & _ & H3 & H4 & H5).
  split_and!; [done..|]. rewrite H5. apply lookup_delete_eq.
Qed.

(** X18. The life of a recording: started in a registered room that is
    not being recorded, it is stored as ['recording'] and the room is
    flagged; stopped, it is ['stopped'] with the end time; when FFmpeg ends,
    it is ['completed'], with the file path and start time it was given at
    the start.  The room is then unflagged, no command is registered, and a
    new recording of the room can start. *)
Theorem recording_lifecycle outputPath format roomId room recordingId isoTime t0 t1 pt w :
  getRoom roomId w = Some room → isRoomRecording roomId w = false →
  let info := newSession outputPath format roomId recordingId isoTime t0 room in
  let w1 := snd (startRecording outputPath format roomId recordingId isoTime t0
                                (Ok pt) FfmpegStarted w) in
  let w2 := snd (stopRecording recordingId t1 (Ok tt) w1) in
  let w3 := ffmpegEnd recordingId w2 in
  getRecording recordingId w1 = Some info ∧ isRoomRecording roomId w1 = true ∧
  getRecording recordingId w2 = Some (set_status SStopped (set_endTime t1 info)) ∧
  getRecording recordingId w3 = Some (set_status SCompleted (set_endTime t1 info)) ∧
  isRoomRecording roomId w3 = false ∧
  activeRecorders w3 !! recordingId = None ∧
  ∀ recordingId' isoTime' t2 pt',
    is_throw (fst (startRecording outputPath format roomId recordingId' isoTime' t2
                                  (Ok pt') FfmpegStarted w3)) = false.
Proof.
  intros Hroom Hflag info w1 w2 w3.
  destruct (startRecording_Ok outputPath format roomId recordingId isoTime t0
                              (Ok pt) FfmpegStarted w) as [Hiff Hok].
  destruct Hok as (room' & Hroom' & _ & Hget1 & Hflag1 & _); [by apply Hiff; eauto|].
  rewrite Hroom in Hroom'. injection Hroom' as <-. fold w1 in Hget1, Hflag1.
  destruct (stopRecording_Ok recordingId info t1 (Ok tt) w1 Hget1 eq_refl)
    as (_ & Hget2 & Hflag2 & Har2 & Hrooms2 & _); [by right|].
  fold w2 in Hget2, Hflag2, Har2, Hrooms2. cbn [rec_roomId info newSession] in *.
  destruct (ffmpegEnd_get recordingId w2) as (Hget3 & _ & _ & Hrooms3 & Har3).
  fold w3 in Hget3, Hrooms3, Har3.
  assert (isRoomRecording roomId w3 = false) as Hflag3.
  { unfold isRoomRecording in *. by rewrite Hrooms3. }
  split_and!; [done|done|done| |done| |].
  - by rewrite (Hget3 _ Hget2).
  - rewrite Har3. apply lookup_delete_eq.
  - intros recordingId' isoTime' t2 pt'.
    apply (startRecording_Ok outputPath format roomId recordingId' isoTime' t2
                             (Ok pt') FfmpegStarted w3).
    split_and!; [|done..].
    unfold getRoom. rewrite Hrooms3, Hrooms2.
    unfold isRoomRecording in Hflag1.
    destruct (JsMap.get (rooms w1) roomId) as [r1|] eqn:Hr1; [|done].
    unfold updateRoomRecordingStatus. rewrite Hr1. cbn. rewrite get_set_eq. eauto.
Qed.

(** X19. [deleteRecording] returns [false] and changes nothing for an
    unknown id.  For a stored one it returns [true] and the recording is
    gone, while the other recordings stay, and the file is unlinked exactly
    when it exists.  A session that was active is stopped first: if no
    command is registered for it or the kill of its command returns, its
    room is no longer flagged; if the kill throws, the session is deleted
    all the same while its room stays flagged as recording and the command
    stays registered. *)
Theorem deleteRecording_removes recordingId now kill fileExists w :
  let res := deleteRecording recordingId now kill fileExists w in
  (getRecording recordingId w = None → res = (false, w)) ∧
  (∀ recording, getRecording recordingId w = Some recording →
     fst res = true ∧
     getRecording recordingId (snd res) = None ∧
     (∀ id, id ≠ recordingId → getRecording id (snd res) = getRecording id w) ∧
     (In (FileUnlink (rec_filePath recording)) (newEffects w (snd res))
        ↔ fileExists = true) ∧
     (rec_status recording = SRecording → killPasses recordingId kill w →
        isRoomRecording (rec_roomId recording) (snd res) = false) ∧
     (rec_status recording = SRecording →
      is_Some (activeRecorders w !! recordingId) → is_throw kill = true →
        rooms (snd res) = rooms w ∧
        activeRecorders (snd res) = activeRecorders w)).
Proof.
  intros res. subst res. unfold getRecording, deleteRecording. split; [by intros ->|].
  intros recording Hrec. rewrite Hrec. cbn [fst snd].
  set (w1 := if decide (rec_status recording = SRecording)
             then snd (stopRecording recordingId now kill w) else w).
  assert (∃ es, trace w1 = trace w ++ es ∧ ∀ p, ¬ In (FileUnlink p) es) as (es & Htr & Hes).
  { unfold w1. destruct (decide _) as [Hst|Hst].
    2: { exists []. split; [by rewrite app_nil_r|]. by intros ? []. }
    unfold stopRecording. rewrite Hrec.
    destruct (decide _) as [_|]; [|done].
    pose proof trace_update as Hupd.
    destruct (activeRecorders w !! recordingId); [destruct kill|]; cbn [snd];
      rewrite ?Hupd; simpl.
    - exists [FfmpegKill recordingId]. split; [done|]. intros p [?|[]]. discriminate.
    - exists [FfmpegKill recordingId]. split; [done|]. intros p [?|[]]. discriminate.
    - exists []. split; [by rewrite app_nil_r|]. by intros ? []. }
  assert (∀ id, id ≠ recordingId →
                JsMap.get (recordings w1) id = JsMap.get (recordings w) id) as Hothers.
  { intros id Hne. unfold w1. destruct (decide _) as [Hst|Hst]; [|done].
    unfold stopRecording. rewrite Hrec. destruct (decide _) as [_|]; [|done].
    destruct (activeRecorders w !! recordingId); [destruct kill|]; cbn [snd];
      rewrite ?recordings_update; simpl; by apply get_set_ne. }
  split_and!.
  - done.
  - simpl. apply get_delete_eq.
  - intros id Hne. simpl. rewrite get_delete_ne by done.
    destruct fileExists; simpl; by apply Hothers.
  - destruct fileExists.
    + split; [done|]. intros _.
      rewrite (newEffects_app w _ (es ++ [FileUnlink (rec_filePath recording)])).
      * rewrite in_app_iff. right. by left.
      * simpl. by rewrite Htr, <- app_assoc.
    + split; [|done]. rewrite (newEffects_app w _ es) by done. intros Hin.
      by apply Hes in Hin.
  - intros Hst Hkill.
    destruct (stopRecording_Ok recordingId recording now kill w Hrec Hst Hkill)
      as (_ & _ & Hflag & _).
    unfold w1. destruct (decide _); [|done].
    unfold isRoomRecording in *. by destruct fileExists.
  - intros Hst [cmd Hcmd] Hkill. unfold w1.
    destruct (decide _) as [_|]; [|done].
    unfold stopRecording. rewrite Hrec, Hcmd.
    destruct (decide _) as [_|]; [|done].
    destruct kill as [|e]; [done|]. by destruct fileExists.
Qed.

Lemma status_counts (l : list RecordingInfo) :
  let count st := length (List.filter (fun r => bool_decide (rec_status r = st)) l) in
  count SRecording + count SCompleted + count SFailed ≤ length l ∧
  (count SRecording + count SCompleted + count SFailed = length l ↔
   ∀ r, In r l → rec_status r ≠ SStopped ∧ rec_status r ≠ SProcessing).
Proof.
  induction l as [|x l [IHle IHeq]]; simpl.
  { split; [lia|]. split; [by intros _ ? []|done]. }
  assert ((∀ r, x = r ∨ In r l → rec_status r ≠ SStopped ∧ rec_status r ≠ SProcessing)
          ↔ (rec_status x ≠ SStopped ∧ rec_status x ≠ SProcessing) ∧
            ∀ r, In r l → rec_status r ≠ SStopped ∧ rec_status r ≠ SProcessing) as ->.
  { split.
    - intros H. split; [apply H; by left|]. intros r Hr. apply H. by right.
    - intros [Hx Hl] r [<-|Hr]; eauto. }
  rewrite <- IHeq.
  destruct (rec_status x) eqn:Hst; simpl; (split; [lia|]); split;
    try (intros ?; split; [done|lia]); try (intros [_ ?]; lia);
    try (intros ?; exfalso; lia); intros [[? ?] _]; congruence.
Qed.

(** X20. The numbers of [getRecordingStats]: [total] is the number of
    recordings listed; [active], [completed] and [failed] together do not
    exceed it, and they add up to it exactly when no session is ['stopped']
    or ['processing']. *)
Theorem recordingStats_add_up w :
  let s := getRecordingStats w in
  stats_total s = length (stats_recordings s) ∧
  stats_active s + stats_completed s + stats_failed s ≤ stats_total s ∧
  (stats_active s + stats_completed s + stats_failed s = stats_total s ↔
   ∀ r, In r (getAllRecordings w) →
        rec_status r ≠ SStopped ∧ rec_status r ≠ SProcessing).
Proof.
  cbn. unfold countStatus, JsMap.size, getAllRecordings.
  assert (length (recordings w) = length (JsMap.values (recordings w))) as ->.
  { unfold JsMap.values. by rewrite length_map. }
  split; [done|]. apply status_counts.
Qed.

Lemma replaceColonDot_fixed s : noColonDot s = true → replaceColonDot s = s.
Proof.
  induction s as [|c s IH]; [done|]. simpl.
  destruct (Ascii.eqb c ":" || Ascii.eqb c ".")%bool; [done|].
  simpl. intros H. by rewrite IH.
Qed.

Lemma replaceColonDot_clean s : noColonDot (replaceColonDot s) = true.
Proof.
  induction s as [|c s IH]; [done|]. simpl.
  destruct (Ascii.eqb c ":" || Ascii.eqb c ".")%bool eqn:E; simpl.
  - exact IH.
  - by rewrite E.
Qed.

(** X21. The time stamp that goes into a recording's file name:
    [replace(/[:.]/g, '-')] leaves no [':'] and no ['.'] in it, keeps its
    length, changes nothing in a string that has neither, and so does
    nothing when applied twice. *)
Theorem replaceColonDot_sanitizes s :
  noColonDot (replaceColonDot s) = true ∧
  String.length (replaceColonDot s) = String.length s ∧
  (noColonDot s = true → replaceColonDot s = s) ∧
  replaceColonDot (replaceColonDot s) = replaceColonDot s.
Proof.
  split_and!.
  - apply replaceColonDot_clean.
  - induction s as [|c s IH]; [done|]. simpl. by rewrite IH.
  - apply replaceColonDot_fixed.
  - apply replaceColonDot_fixed, replaceColonDot_clean.
Qed.

(* ===================================================================== *)
(** ** Further properties of the client's participant list *)
(* ===================================================================== *)

Module ClientMore.
Import Client.

Lemma keys_values_keyed (m : JsMap.t PeerInfo) : keyedC m → ids (JsMap.values m) = JsMap.keys m.
Proof.
  unfold ids, JsMap.values, JsMap.keys. induction m as [|[k p] m IH]; intros Hk; [done|].
  simpl. rewrite (Hk k p) by (by left). f_equal. apply IH.
  intros k' p' Hin. apply Hk. by right.
Qed.

Lemma In_set_inv {V} (m : JsMap.t V) k v k' v' :
  In (k', v') (JsMap.set m k v) → (k', v') = (k, v) ∨ In (k', v') m.
Proof.
  induction m as [|[k0 v0] m IH]; simpl.
  - intros [?|[]]. by left.
  - destruct (String.eqb k0 k); simpl; intros [?|?]; eauto.
    destruct (IH H); eauto.
Qed.

Lemma keyedC_set m p : keyedC m → keyedC (JsMap.set m (peerInfo_id p) p).
Proof.
  intros Hk k' p' Hin. apply In_set_inv in Hin as [[= -> ->]|Hin]; eauto.
Qed.

Lemma In_keys_set {V} (m : JsMap.t V) k v k' :
  In k' (JsMap.keys (JsMap.set m k v)) ↔ k' = k ∨ In k' (JsMap.keys m).
Proof.
  destruct (JsMap.get m k) as [v0|] eqn:E.
  - rewrite keys_set_present by eauto. split; [eauto|]. intros [->|?]; [|done].
    apply get_Some_In in E. unfold JsMap.keys. change k with (fst (k, v0)).
    by apply in_map.
  - rewrite keys_set_absent by done. rewrite in_app_iff. simpl.
    intuition (subst; auto).
Qed.

Lemma insertAll_spec l : ∀ m,
  JsMap.wf m → keyedC m →
  JsMap.wf (insertAll l m) ∧ keyedC (insertAll l m) ∧
  ∀ k, In k (JsMap.keys (insertAll l m)) ↔ In k (JsMap.keys m) ∨ In k (ids l).
Proof.
  induction l as [|p l IH]; intros m Hwf Hk.
  - simpl. split_and!; [done..|]. intros k. simpl. tauto.
  - cbn [insertAll fold_left].
    destruct (IH (JsMap.set m (peerInfo_id p) p)) as (H1 & H2 & H3).
    + by apply wf_set.
    + by apply keyedC_set.
    + split_and!; [done..|]. intros k. rewrite H3, In_keys_set. simpl.
      intuition (subst; auto).
Qed.

Lemma insertAll_nodup l : ∀ m,
  NoDup (JsMap.keys m ++ ids l) →
  insertAll l m = m ++ map (fun p => (peerInfo_id p, p)) l.
Proof.
  induction l as [|p l IH]; intros m Hnd.
  - simpl. by rewrite app_nil_r.
  - cbn [insertAll fold_left]. fold (insertAll l (JsMap.set m (peerInfo_id p) p)).
    assert (JsMap.get m (peerInfo_id p) = None) as Hfree.
    { apply get_None_keys. intros Hin. apply NoDup_app in Hnd as (_ & Hd & _).
      apply (Hd (peerInfo_id p)); [by apply list_elem_of_In|]. simpl. left. }
    assert (JsMap.set m (peerInfo_id p) p = m ++ [(peerInfo_id p, p)]) as Hset.
    { clear -Hfree. induction m as [|[k v] m IHm]; [done|]. simpl in *.
      destruct (String.eqb k (peerInfo_id p)); [done|]. by rewrite IHm. }
    rewrite IH.
    + rewrite Hset, <- app_assoc. done.
    + rewrite keys_set_absent by done. rewrite <- app_assoc. exact Hnd.
Qed.

(** What [dedupById] returns. *)
Lemma dedupById_spec l :
  NoDup (ids (dedupById l)) ∧
  (∀ i, In i (ids (dedupById l)) ↔ In i (ids l)) ∧
  (NoDup (ids l) → dedupById l = l) ∧
  dedupById (dedupById l) = dedupById l.
Proof.
  unfold dedupById. fold (insertAll l JsMap.empty).
  destruct (insertAll_spec l JsMap.empty) as (Hwf & Hk & Hin).
  { apply wf_empty. } { by intros ? ? []. }
  assert (∀ l', NoDup (ids l') →
                JsMap.values (fold_left (fun m p => JsMap.set m (peerInfo_id p) p)
                                        l' JsMap.empty) = l') as Hid.
  { intros l' Hnd. fold (insertAll l' JsMap.empty). rewrite insertAll_nodup by done.
    simpl. unfold JsMap.values. rewrite map_map. simpl. apply map_id. }
  assert (NoDup (ids (JsMap.values (insertAll l JsMap.empty)))) as Hnd.
  { by rewrite keys_values_keyed. }
  split_and!; [done| |apply Hid|by apply Hid].
  intros i. rewrite keys_values_keyed by done. rewrite Hin. simpl. tauto.
Qed.

(** X22. [dedupById] (the [new Map(...).values()] idiom): the result has
    every id once, has exactly the ids of the input, is the input itself
    when that has no repeated id, and so is stable under a second pass. *)
Theorem dedupById_dedups l :
  NoDup (ids (dedupById l)) ∧
  (∀ i, In i (ids (dedupById l)) ↔ In i (ids l)) ∧
  (NoDup (ids l) → dedupById l = l) ∧
  dedupById (dedupById l) = dedupById l.
Proof. apply dedupById_spec. Qed.

Lemma NoDup_ids_filter (f : PeerInfo → bool) l :
  NoDup (ids l) → NoDup (ids (List.filter f l)).
Proof.
  unfold ids. induction l as [|p l IH]; [done|]. simpl. intros Hnd.
  apply NoDup_cons in Hnd as [Hp Hl]. destruct (f p); simpl; [|by apply IH].
  apply NoDup_cons. split; [|by apply IH].
  intros Hin. apply Hp. apply list_elem_of_In in Hin. apply list_elem_of_In.
  apply in_map_iff in Hin as (q & Hq & Hin). apply filter_In in Hin as [Hin _].
  apply in_map_iff. eauto.
Qed.

Lemma onPeerJoined_nodup captured peer s :
  NoDup (ids (participants s)) →
  NoDup (ids (participants (onPeerJoined captured peer s))).
Proof.
  intros Hs. unfold onPeerJoined. case_bool_decide; [done|].
  unfold setParticipantsWithLogging.
  destruct (falsy captured); [|destruct (negb _); [|destruct (existsb _ _)]];
    simpl; apply NoDup_ids_filter; try done.
  apply dedupById_spec.
Qed.

Lemma dispatch_nodup captured s i :
  NoDup (ids (participants s)) → NoDup (ids (participants (dispatch captured s i))).
Proof.
  intros Hs. destruct i as [peerId|peers|peer|peerId|peers|peerId kind|peerId]; simpl;
    try done.
  - revert s Hs. induction peers as [|p peers IH]; intros s Hs; [done|].
    simpl. apply IH. by apply onPeerJoined_nodup.
  - by apply onPeerJoined_nodup.
  - by do 2 apply NoDup_ids_filter.
  - apply NoDup_ids_filter. apply dedupById_spec.
Qed.

(** X23. Whatever the component receives, in whatever order, and
    whatever its handlers captured: no two entries of the participant list
    have the same id. *)
Theorem participants_have_distinct_ids captured inputs :
  NoDup (ids (participants (run captured inputs initial))).
Proof.
  assert (NoDup (ids (participants initial))) as H0 by apply NoDup_nil_2.
  revert H0. generalize initial as s. unfold run.
  induction inputs as [|i inputs IH]; intros s Hs; [done|].
  simpl. apply IH. by apply dispatch_nodup.
Qed.

Lemma safeguard_idem captured l :
  safeguard captured (safeguard captured l) = safeguard captured l.
Proof.
  unfold safeguard. induction l as [|p l IH]; [done|]. simpl.
  destruct (differs (peerInfo_id p) captured) eqn:E; simpl; [|done].
  by rewrite E, IH.
Qed.

(** X24. Applying the same [peerJoined] twice is the same as applying it
    once: the second application leaves the whole state of the component
    as the first one made it. *)
Theorem onPeerJoined_idempotent captured peer s :
  onPeerJoined captured peer (onPeerJoined captured peer s)
  = onPeerJoined captured peer s.
Proof.
  unfold onPeerJoined at 2 3.
  case_bool_decide as Hrecent.
  { unfold onPeerJoined. by rewrite bool_decide_eq_true_2. }
  unfold setParticipantsWithLogging.
  assert (∀ l, existsb (fun p => String.eqb (peerInfo_id p) (peerInfo_id peer)) l = true →
               differs (peerInfo_id peer) captured = true →
               existsb (fun p => String.eqb (peerInfo_id p) (peerInfo_id peer))
                       (safeguard captured l) = true) as Hex.
  { intros l Hl Hd. apply existsb_exists in Hl as (p & Hp & Heq).
    apply existsb_exists. exists p. split; [|done].
    apply filter_In. split; [done|]. apply String.eqb_eq in Heq. by rewrite Heq. }
  destruct (falsy captured) eqn:Hf.
  { unfold onPeerJoined. simpl. rewrite bool_decide_eq_false_2 by done.
    unfold setParticipantsWithLogging. rewrite Hf. simpl.
    unfold with_participants. simpl. by rewrite safeguard_idem. }
  destruct (differs (peerInfo_id peer) captured) eqn:Hd; simpl.
  2: { unfold onPeerJoined. simpl. rewrite bool_decide_eq_false_2 by done.
       unfold setParticipantsWithLogging. rewrite Hf, Hd. simpl.
       unfold with_participants. simpl. by rewrite safeguard_idem. }
  destruct (existsb _ (participants s)) eqn:He.
  { unfold onPeerJoined. simpl. rewrite bool_decide_eq_false_2 by done.
    unfold setParticipantsWithLogging. rewrite Hf, Hd. simpl.
    rewrite Hex by done. unfold with_participants. simpl.
    by rewrite safeguard_idem. }
  unfold onPeerJoined. simpl. rewrite bool_decide_eq_true_2; [done|].
  set_solver.
Qed.

(** X25. Handlers that captured a real id do list a peer: after
    [peerJoined] for a peer whose id is neither the captured one nor among
    the recently processed, the peer's id is in the participant list. *)
Theorem peer_joined_is_listed captured peer s :
  falsy captured = false →
  differs (peerInfo_id peer) captured = true →
  peerInfo_id peer ∉ recentlyProcessedPeers s →
  In (peerInfo_id peer) (ids (participants (onPeerJoined captured peer s))).
Proof.
  intros Hf Hd Hrecent. unfold onPeerJoined.
  rewrite bool_decide_eq_false_2 by done.
  unfold setParticipantsWithLogging. rewrite Hf, Hd. simpl.
  assert (∀ l, In (peerInfo_id peer) (ids l) →
               In (peerInfo_id peer) (ids (safeguard captured l))) as Hkeep.
  { intros l Hin. unfold ids in *. apply in_map_iff in Hin as (p & Heq & Hp).
    apply in_map_iff. exists p. split; [done|]. apply filter_In. split; [done|].
    by rewrite Heq. }
  destruct (existsb _ (participants s)) eqn:He; simpl; apply Hkeep.
  - apply existsb_exists in He as (p & Hp & Heq). apply String.eqb_eq in Heq.
    unfold ids. apply in_map_iff. eauto.
  - apply dedupById_spec. unfold ids. rewrite map_app, in_app_iff. right. by left.
Qed.

(** X26. [peerLeft] forgets the peer: afterwards no participant has the
    id and no remote stream belongs to it, while the other participants
    (those that pass the final filter) and the other peers' streams are
    kept. *)
Theorem onPeerLeft_forgets_peer captured peerId s :
  let s' := onPeerLeft captured peerId s in
  ¬ In peerId (ids (participants s')) ∧
  (∀ k st, In (k, st) (remoteStreams s') → stream_peerId st ≠ peerId) ∧
  (∀ p, peerInfo_id p ≠ peerId →
        (In p (participants s') ↔ In p (safeguard captured (participants s)))) ∧
  (∀ k st, stream_peerId st ≠ peerId →
           (In (k, st) (remoteStreams s') ↔ In (k, st) (remoteStreams s))).
Proof.
  cbn. split_and!.
  - unfold ids. rewrite in_map_iff. intros (p & Heq & Hp).
    apply ClientFacts.safeguard_incl, filter_In in Hp as [_ Hp]. by rewrite Heq, eqb_refl_s in Hp.
  - intros k st Hin. apply filter_In in Hin as [_ Hin]. simpl in Hin.
    intros Heq. by rewrite Heq, eqb_refl_s in Hin.
  - intros p Hne. unfold safeguard. rewrite !filter_In.
    assert (negb (String.eqb (peerInfo_id p) peerId) = true) as ->
      by (by apply negb_true_iff, String.eqb_neq).
    tauto.
  - intros k st Hne. rewrite filter_In. simpl.
    assert (negb (String.eqb (stream_peerId st) peerId) = true) as ->
      by (by apply negb_true_iff, String.eqb_neq).
    tauto.
Qed.

Lemma get_map_snd {V} (g : V → V) (m : JsMap.t V) k :
  JsMap.get (map (fun kv => (fst kv, g (snd kv))) m) k = g <$> JsMap.get m k.
Proof.
  induction m as [|[k' v] m IH]; [done|]. simpl.
  by destruct (String.eqb k' k).
Qed.

(** X27. A stream that arrives before its peer is known is stored under
    [`${peerId}-${kind}`] with the peer id for a name, and no participant
    is made up for it; when the peer is then added by [peerJoined], the
    stored stream takes the peer's name. *)
Theorem early_stream_is_renamed captured peer kind s :
  falsy captured = false →
  differs (peerInfo_id peer) captured = true →
  peerInfo_id peer ∉ recentlyProcessedPeers s →
  existsb (fun p => String.eqb (peerInfo_id p) (peerInfo_id peer)) (participants s)
    = false →
  List.find (fun p => String.eqb (peerInfo_id p) (peerInfo_id peer)) (participantsRef s)
    = None →
  let s1 := onNewStream (peerInfo_id peer) kind s in
  let s2 := onPeerJoined captured peer s1 in
  participants s1 = participants s ∧
  JsMap.get (remoteStreams s1) (streamKey (peerInfo_id peer) kind) =
    Some {| stream_peerId := peerInfo_id peer; stream_kind := kind;
            stream_name := peerInfo_id peer |} ∧
  JsMap.get (remoteStreams s2) (streamKey (peerInfo_id peer) kind) =
    Some {| stream_peerId := peerInfo_id peer; stream_kind := kind;
            stream_name := peerInfo_name peer |}.
Proof.
  intros Hf Hd Hrecent He Hfind s1 s2. subst s1 s2.
  unfold onNewStream. rewrite Hfind. cbn [participants remoteStreams].
  split; [done|]. split; [apply get_set_eq|].
  unfold onPeerJoined. cbn [recentlyProcessedPeers].
  rewrite bool_decide_eq_false_2 by done.
  unfold setParticipantsWithLogging. rewrite Hf, Hd. cbn [negb participants].
  rewrite He. cbn [remoteStreams with_participants].
  erewrite map_ext.
  - rewrite (get_map_snd (fun stream =>
        if String.eqb (stream_peerId stream) (peerInfo_id peer)
        then {| stream_peerId := stream_peerId stream;
                stream_kind := stream_kind stream;
                stream_name := peerInfo_name peer |}
        else stream)).
    unfold streamKey. rewrite get_set_eq. simpl. by rewrite eqb_refl_s.
  - intros [k st]. simpl. by destruct (String.eqb _ _).
Qed.

(** X28. The component as mounted, fed the gateway's events: its
    participant list and its [participantsRef] stay empty, whatever arrives;
    its handlers captured [localPeerId = null] and [onPeerJoined] gives up
    at [if (!localPeerId)]. *)
Theorem mounted_component_lists_nobody inputs :
  forallb fromGateway inputs = true →
  participants (run mountCaptured inputs initial) = [] ∧
  participantsRef (run mountCaptured inputs initial) = [].
Proof.
  unfold mountCaptured.
  assert (participants initial = [] ∧ participantsRef initial = []) as H0 by done.
  revert H0. generalize initial as s. unfold run.
  induction inputs as [|i inputs IH]; intros s Hs Hin; [done|].
  simpl in Hin. apply andb_true_iff in Hin as [Hi Hin].
  simpl. apply IH; [|done]. clear IH Hin.
  assert (∀ p s0, participants s0 = [] ∧ participantsRef s0 = [] →
                  participants (onPeerJoined None p s0) = [] ∧
                  participantsRef (onPeerJoined None p s0) = []) as Hopj.
  { intros p s0 [Hp Hr]. unfold onPeerJoined. case_bool_decide; [done|].
    unfold setParticipantsWithLogging. simpl. by rewrite Hp. }
  destruct Hs as [Hp Hr].
  destruct i as [peerId|peers|peer|peerId|peers|peerId kind|peerId]; simpl; try done.
  - assert (participants s = [] ∧ participantsRef s = []) as Hs by done.
    clear Hp Hr Hi. revert s Hs.
    induction peers as [|p peers IHp]; intros s Hs; [done|].
    simpl. apply IHp. by apply Hopj.
  - by apply Hopj.
  - by rewrite Hp.
Qed.
End ClientMore.

(* ===================================================================== *)
(** ** The further properties at the example session *)
(* ===================================================================== *)

Section MoreInstances.
Import Example Example2.


Lemma keyedPeers_roomFull : keyedPeers roomFull.
Proof.
  split.
  - apply NoDup_singleton.
  - intros k p [[= <- <-]|[]]. reflexivity.
Defined.

Lemma joinRoom_throws_iff_witness :
  fst (joinRoom "room-1" "peer-a" "Alice" wA) = Throw "Peer peer-a already in room" ∧
  fst (joinRoom "room-9" "peer-a" "Alice" wA) = Throw "Room room-9 not found" ∧
  snd (joinRoom "room-1" "peer-a" "Alice" wA) = wA.
Proof.
  split; [|split].
  - apply (joinRoom_throws_iff "room-1" "peer-a" "Alice" wA). vm_compute. eauto.
  - apply (joinRoom_throws_iff "room-9" "peer-a" "Alice" wA). vm_compute. reflexivity.
  - apply (joinRoom_throws_iff "room-1" "peer-a" "Alice" wA). vm_compute. reflexivity.
Defined.

Lemma joinRoom_adds_fresh_peer_witness :
  getPeer "room-1" "peer-b" (snd (joinRoom "room-1" "peer-b" "Bob" wA)) = Some bobNew ∧
  (∀ roomId' peerId', (roomId', peerId') ≠ ("room-1", "peer-b") →
     getPeer roomId' peerId' (snd (joinRoom "room-1" "peer-b" "Bob" wA))
     = getPeer roomId' peerId' wA).
Proof.
  apply (joinRoom_adds_fresh_peer "room-1" "peer-b" "Bob" wA). vm_compute. reflexivity.
Defined.

Lemma join_then_leave_restores_witness :
  fst (leaveRoom "room-1" "peer-b" (snd (joinRoom "room-1" "peer-b" "Bob" wA))) = true ∧
  rooms (snd (leaveRoom "room-1" "peer-b" (snd (joinRoom "room-1" "peer-b" "Bob" wA))))
    = rooms wA ∧
  routers (snd (leaveRoom "room-1" "peer-b" (snd (joinRoom "room-1" "peer-b" "Bob" wA))))
    = routers wA ∧
  recordings (snd (leaveRoom "room-1" "peer-b" (snd (joinRoom "room-1" "peer-b" "Bob" wA))))
    = recordings wA.
Proof.
  apply (join_then_leave_restores "room-1" "peer-b" "Bob" roomA wA).
  - vm_compute. reflexivity.
  - vm_compute. reflexivity.
  - discriminate.
Defined.

Lemma leaveRoom_is_local_witness :
  getPeer "room-1" "peer-b" (snd (leaveRoom "room-1" "peer-a" wAB))
    = getPeer "room-1" "peer-b" wAB ∧
  recordings (snd (leaveRoom "room-1" "peer-a" wAB)) = recordings wAB.
Proof.
  destruct (leaveRoom_is_local "room-1" "peer-a" aliceNew wAB) as (_ & Hpeers & Hrec & _).
  - vm_compute. reflexivity.
  - split; [|exact Hrec]. apply Hpeers; [discriminate|]. vm_compute. eauto.
Defined.

Lemma closeRoom_removes_only_the_room_witness :
  closeRoom "room-9" wAB = (false, wAB) ∧
  fst (closeRoom "room-1" wAB) = true ∧
  getRoom "room-1" (snd (closeRoom "room-1" wAB)) = None ∧
  routers (snd (closeRoom "room-1" wAB)) !! "room-1" = None.
Proof.
  split.
  - apply (closeRoom_removes_only_the_room "room-9" wAB). vm_compute. reflexivity.
  - destruct (proj2 (closeRoom_removes_only_the_room "room-1" wAB))
      as (H1 & H2 & H3 & _).
    + vm_compute. eauto.
    + exact (conj H1 (conj H2 H3)).
Defined.

Lemma closeRoom_makes_every_peer_leave_witness :
  ∃ rest, newEffects wSelfConsumed (snd (closeRoom "room-1" wSelfConsumed)) =
          concat (map (departure "room-1") (JsMap.values (peers roomFull))) ++ rest.
Proof.
  apply (closeRoom_makes_every_peer_leave "room-1" roomFull wSelfConsumed).
  - vm_compute. reflexivity.
  - exact keyedPeers_roomFull.
Defined.

Lemma rooms_and_routers_go_together_witness :
  getRouter "room-1" wRecording = Some exRouter.
Proof.
  destruct (rooms_and_routers_go_together "recordings" "mp4" wRecording
              wRecording_reachable) as [H _].
  apply (H "room-1" (set_recording
                       {| isRecording := true; rr_recordingId := Some "rec-1";
                          rr_startTime := Some 100;
                          rr_filePath := Some (rec_filePath session) |} roomA)).
  vm_compute. reflexivity.
Defined.

Lemma handleJoin_error_changes_nothing_witness :
  fst (handleJoin socketA' "standup" "Alice" "room-3" (Ok exRouter) wA) = socketA' ∧
  rooms wJoinedTwice = rooms wA ∧ routers wJoinedTwice = routers wA ∧
  recordings wJoinedTwice = recordings wA ∧
  newEffects wA wJoinedTwice =
    [Emit (ToSocket "peer-a") (MError "Peer peer-a already in room")].
Proof.
  apply (handleJoin_error_changes_nothing socketA' "standup" "Alice" "room-3"
           (Ok exRouter) wA "Peer peer-a already in room").
  vm_compute. left. reflexivity.
Defined.

Lemma handleJoin_gets_or_creates_witness :
  (JsMap.keys (rooms wAB) = JsMap.keys (rooms wA) ∧ routers wAB = routers wA) ∧
  data_roomId socketA' = Some "room-1" ∧ is_Some (getRouter "room-1" wA).
Proof.
  split.
  - destruct (proj1 (handleJoin_gets_or_creates socketB "standup" "Bob" "room-2"
                       (Ok exRouter) wA)) as (H1 & H2 & _).
    + vm_compute. eauto.
    + exact (conj H1 H2).
  - destruct (proj2 (handleJoin_gets_or_creates socketA "standup" "Alice" "room-1"
                       (Ok exRouter) emptyWorld)) as (H1 & H2 & _).
    + reflexivity.
    + reflexivity.
    + exact (conj H1 H2).
Defined.


Lemma existingPeers_is_the_room_before_witness :
  ¬ In "peer-b" (map fst [("peer-a", "Alice")]) ∧
  [("peer-a", "Alice")]
  = map (fun p => (peer_id p, peer_name p)) (JsMap.values (peers roomA)).
Proof.
  destruct (existingPeers_is_the_room_before socketB "standup" "Bob" "room-2"
              (Ok exRouter) wA [("peer-a", "Alice")]) as (H1 & _ & H3).
  - vm_compute. do 3 right. left. reflexivity.
  - split; [exact H1|]. apply (H3 roomA roomA).
    + vm_compute. reflexivity.
    + vm_compute. reflexivity.
    + split; [apply NoDup_singleton|]. intros k p [[= <- <-]|[]]. reflexivity.
Defined.

Lemma handleDisconnect_removes_and_announces_witness :
  handleDisconnect socketA wAB = wAB ∧
  getPeer "room-1" "peer-a" (handleDisconnect socketA' wAB) = None.
Proof.
  split.
  - apply (handleDisconnect_removes_and_announces socketA wAB). reflexivity.
  - apply (proj2 (handleDisconnect_removes_and_announces socketA' wAB) "room-1");
      reflexivity.
Defined.

Lemma handleProduce_stores_and_announces_witness :
  getPeer "room-1" "peer-a" wAliceProduces = Some aliceProducing ∧
  newEffects wAliceSends wAliceProduces =
    [Emit (ToSocket "peer-a") (MProduced "p1");
     Emit (ToRoomExcept "room-1" "peer-a") (MNewProducer "peer-a" "p1" Video)].
Proof.
  apply (proj1 (handleProduce_stores_and_announces socketA' "peer-a" "t-send" Video
                  (Ok videoProducer) wAliceSends)
               "room-1" aliceSending sendTransport videoProducer).
  - reflexivity.
  - vm_compute. reflexivity.
  - reflexivity.
  - reflexivity.
Defined.

Lemma handleConsume_stores_or_rejects_witness :
  getPeer "room-1" "peer-b" wBobConsumes = Some (addConsumer bobConsumer bobReceiving) ∧
  newEffects wBobReceives wBobConsumes =
    [ConsumerCreate "t-recv-b" "p1";
     Emit (ToSocket "peer-b") (MConsumed "c-b" "p1" Video "rtp")].
Proof.
  apply (proj1 (handleConsume_stores_or_rejects socketB' "peer-b" "p1" true
                  (Ok bobConsumer) wBobReceives)
               "room-1" bobReceiving aliceProducing videoProducer recvTransportB
               bobConsumer).
  - reflexivity.
  - vm_compute. reflexivity.
  - vm_compute. reflexivity.
  - reflexivity.
  - reflexivity.
  - reflexivity.
  - reflexivity.
Defined.

Lemma startRecording_succeeds_iff_witness :
  is_throw (fst (startRecording "recordings" "mp4" "room-1" "rec-1" isoTime 100
                                (Ok plain) FfmpegStarted wA)) = false ∧
  getRecording "rec-1" wRecording = Some session.
Proof.
  destruct (startRecording_succeeds_iff "recordings" "mp4" "room-1" "rec-1" isoTime 100
              (Ok plain) FfmpegStarted wA) as [Hiff Hok].
  assert (Hno : is_throw (fst (startRecording "recordings" "mp4" "room-1" "rec-1"
                                 isoTime 100 (Ok plain) FfmpegStarted wA)) = false).
  { apply Hiff. vm_compute. eauto. }
  split; [exact Hno|].
  destruct (Hok Hno) as (room & Hroom & _ & Hget & _).
  vm_compute in Hroom. injection Hroom as <-. exact Hget.
Defined.

Lemma stopRecording_stops_witness :
  stopRecording "rec-9" 200 (Ok tt) wRecording
    = (Throw "Recording rec-9 not found", wRecording) ∧
  getRecording "rec-1" (snd (stopRecording "rec-1" 200 (Ok tt) wRecording))
    = Some stoppedSession ∧
  isRoomRecording "room-1" (snd (stopRecording "rec-1" 200 (Ok tt) wRecording)) = false.
Proof.
  destruct (stopRecording_stops "rec-9" 200 (Ok tt) wRecording) as [Hnone _].
  destruct (stopRecording_stops "rec-1" 200 (Ok tt) wRecording) as [_ Hsome].
  split.
  - apply Hnone. vm_compute. reflexivity.
  - destruct (Hsome session) as (_ & H2 & H3 & _).
    + vm_compute. reflexivity.
    + reflexivity.
    + right. reflexivity.
    + exact (conj H2 H3).
Defined.

Lemma ffmpegEnd_completes_only_stopped_witness :
  getRecording "rec-1" (ffmpegEnd "rec-1" wStopped)
    = Some (set_status SCompleted stoppedSession) ∧
  getRecording "rec-1" (ffmpegEnd "rec-1" wRecording) = Some session.
Proof.
  split.
  - apply (proj1 (ffmpegEnd_completes_only_stopped "rec-1" wStopped) stoppedSession).
    vm_compute. reflexivity.
  - apply (proj1 (ffmpegEnd_completes_only_stopped "rec-1" wRecording) session).
    vm_compute. reflexivity.
Defined.

Lemma recording_lifecycle_witness :
  getRecording "rec-1"
    (ffmpegEnd "rec-1" (snd (stopRecording "rec-1" 200 (Ok tt) wRecording)))
    = Some (set_status SCompleted stoppedSession) ∧
  isRoomRecording "room-1"
    (ffmpegEnd "rec-1" (snd (stopRecording "rec-1" 200 (Ok tt) wRecording))) = false.
Proof.
  destruct (recording_lifecycle "recordings" "mp4" "room-1" roomA "rec-1" isoTime
              100 200 plain wA) as (_ & _ & _ & H4 & H5 & _).
  - vm_compute. reflexivity.
  - vm_compute. reflexivity.
  - exact (conj H4 H5).
Defined.

Lemma deleteRecording_removes_witness :
  deleteRecording "rec-9" 200 (Ok tt) true wRecording = (false, wRecording) ∧
  getRecording "rec-1" (snd (deleteRecording "rec-1" 200 (Ok tt) true wRecording)) = None ∧
  isRoomRecording "room-1" (snd (deleteRecording "rec-1" 200 (Ok tt) true wRecording))
    = false ∧
  getRecording "rec-1" (snd (deleteRecording "rec-1" 200 (Throw "ESRCH") true wRecording))
    = None ∧
  isRoomRecording "room-1"
    (snd (deleteRecording "rec-1" 200 (Throw "ESRCH") true wRecording)) = true.
Proof.
  split.
  - apply (deleteRecording_removes "rec-9" 200 (Ok tt) true wRecording).
    vm_compute. reflexivity.
  - destruct (proj2 (deleteRecording_removes "rec-1" 200 (Ok tt) true wRecording) session)
      as (_ & H2 & _ & _ & H5 & _).
    + vm_compute. reflexivity.
    + destruct (proj2 (deleteRecording_removes "rec-1" 200 (Throw "ESRCH") true wRecording)
                      session) as (_ & H2' & _ & _ & _ & H6).
      * vm_compute. reflexivity.
      * split; [exact H2|]. split; [apply H5; [reflexivity|right; reflexivity]|].
        split; [exact H2'|].
        destruct H6 as [Hrooms _]; [reflexivity|vm_compute; eauto|reflexivity|].
        unfold isRoomRecording. rewrite Hrooms. vm_compute. reflexivity.
Defined.

Lemma replaceColonDot_sanitizes_witness :
  replaceColonDot "2024-05-01T10-00-00-000Z" = "2024-05-01T10-00-00-000Z".
Proof.
  destruct (replaceColonDot_sanitizes "2024-05-01T10-00-00-000Z") as (_ & _ & H & _).
  apply H. reflexivity.
Defined.

Lemma dedupById_dedups_witness :
  Client.dedupById [bob; me] = [bob; me] ∧
  (In "bob" (ids (Client.dedupById [bob; me; bobAgain])) ↔ In "bob" (ids [bob; me; bobAgain])).
Proof.
  split.
  - destruct (ClientMore.dedupById_dedups [bob; me]) as (_ & _ & H & _).
    apply H. apply NoDup_cons; split; [|apply NoDup_singleton].
    intros Hin%list_elem_of_singleton. discriminate.
  - apply (ClientMore.dedupById_dedups [bob; me; bobAgain]).
Defined.

Lemma peer_joined_is_listed_witness :
  In "bob" (ids (Client.participants
                   (Client.onPeerJoined (Some "me") bob Client.initial))).
Proof.
  apply (ClientMore.peer_joined_is_listed (Some "me") bob Client.initial).
  - reflexivity.
  - reflexivity.
  - apply not_elem_of_empty.
Defined.

Lemma onPeerLeft_forgets_peer_witness :
  ¬ In "bob" (ids (Client.participants
                     (Client.onPeerLeft (Some "me") "bob"
                        (Client.onPeerJoined (Some "me") bob Client.initial)))).
Proof.
  apply (ClientMore.onPeerLeft_forgets_peer (Some "me") "bob"
           (Client.onPeerJoined (Some "me") bob Client.initial)).
Defined.

Lemma early_stream_is_renamed_witness :
  JsMap.get (Client.remoteStreams (Client.onNewStream "bob" "video" Client.initial))
            "bob-video"
    = Some {| Client.stream_peerId := "bob"; Client.stream_kind := "video";
              Client.stream_name := "bob" |} ∧
  JsMap.get (Client.remoteStreams
               (Client.onPeerJoined (Some "me") bob
                  (Client.onNewStream "bob" "video" Client.initial)))
            "bob-video"
    = Some {| Client.stream_peerId := "bob"; Client.stream_kind := "video";
              Client.stream_name := "Bob" |}.
Proof.
  destruct (ClientMore.early_stream_is_renamed (Some "me") bob "video" Client.initial)
    as (_ & H2 & H3).
  - reflexivity.
  - reflexivity.
  - apply not_elem_of_empty.
  - reflexivity.
  - reflexivity.
  - exact (conj H2 H3).
Defined.

Lemma mounted_component_lists_nobody_witness :
  Client.participants (Client.run Client.mountCaptured inputs Client.initial) = [] ∧
  Client.participantsRef (Client.run Client.mountCaptured inputs Client.initial) = [].
Proof.
  apply (ClientMore.mounted_component_lists_nobody inputs). reflexivity.
Defined.
End MoreInstances.

(* ===================================================================== *)
(** ** The transports the gateway stores carry no direction *)
(* ===================================================================== *)

Lemma noNewPeer_refl w : noNewPeer w w.
Proof. by intros ? ? ?. Qed.

Lemma noNewPeer_rooms w w' : rooms w' = rooms w → noNewPeer w w'.
Proof. unfold noNewPeer, getPeer. by intros ->. Qed.

Lemma noNewPeer_trans w1 w2 w3 : noNewPeer w1 w2 → noNewPeer w2 w3 → noNewPeer w1 w3.
Proof. intros H12 H23 roomId peerId peer Hp. by apply H12, H23. Qed.

Lemma getPeer_update roomId b rid fp now w roomId' peerId :
  getPeer roomId' peerId (updateRoomRecordingStatus roomId b rid fp now w)
  = getPeer roomId' peerId w.
Proof.
  unfold getPeer, updateRoomRecordingStatus.
  destruct (JsMap.get (rooms w) roomId) as [room|] eqn:Hroom; [|done].
  cbn [rooms set_rooms].
  destruct (decide (roomId = roomId')) as [<-|Hne].
  - by rewrite get_set_eq, Hroom.
  - by rewrite get_set_ne.
Qed.

Lemma noNewPeer_update roomId b rid fp now w :
  noNewPeer w (updateRoomRecordingStatus roomId b rid fp now w).
Proof. intros roomId' peerId peer. by rewrite getPeer_update. Qed.

Lemma noNewPeer_createRoom roomId roomName engine w :
  noNewPeer w (snd (createRoom roomId roomName engine w)).
Proof.
  destruct (createRoom roomId roomName engine w) as [[room|e] w1] eqn:Hc; cbn [snd].
  2: { apply createRoom_Throw in Hc as ->. apply noNewPeer_refl. }
  intros roomId' peerId peer. revert Hc. unfold createRoom, createRouter, getPeer.
  destruct (routers w !! roomId); [|destruct engine; [|done]];
    intros [= <- <-]; cbn [rooms set_rooms log set_routers];
    (destruct (decide (roomId = roomId')) as [<-|Hne];
     [by rewrite get_set_eq|by rewrite get_set_ne]).
Qed.

Lemma noNewPeer_leaveRoom roomId peerId w :
  noNewPeer w (snd (leaveRoom roomId peerId w)).
Proof.
  destruct (getPeer roomId peerId w) as [peer|] eqn:Hpeer.
  - destruct (leaveRoom_local roomId peerId peer w Hpeer) as (Hother & Hsame & _).
    intros roomId' peerId' p Hp.
    destruct (decide (roomId' = roomId)) as [->|Hne].
    + destruct (decide (peerId' = peerId)) as [->|Hnp].
      * destruct (getPeer_after_leaveRoom roomId peerId w) as [H|H];
          rewrite H in Hp; done.
      * rewrite <- Hsame; [done|done|]. by eapply getPeer_Some_getRoom.
    + destruct (Hother roomId' Hne) as [Hr _]. unfold getPeer, getRoom in *.
      by rewrite <- Hr.
  - assert (leaveRoom roomId peerId w = (false, w)) as ->; [|apply noNewPeer_refl].
    rewrite leaveRoom_eq. unfold getPeer in Hpeer.
    destruct (JsMap.get (rooms w) roomId); [|done]. by rewrite Hpeer.
Qed.

Lemma noNewPeer_closeRoom roomId w : noNewPeer w (snd (closeRoom roomId w)).
Proof.
  rewrite closeRoom_eq.
  destruct (JsMap.get (rooms w) roomId) as [room|] eqn:Hroom; [|apply noNewPeer_refl].
  cbn [snd]. intros roomId' peerId peer. unfold getPeer.
  rewrite rooms_teardown.
  destruct (decide (roomId' = roomId)) as [->|Hne]; [by rewrite get_delete_eq|].
  rewrite get_delete_ne by done.
  destruct (closeRoom_loop_frame roomId (JsMap.values (peers room)) w) as [_ Hother].
  destruct (Hother roomId' Hne) as [Hr _]. unfold getRoom in Hr. by rewrite Hr.
Qed.

Lemma noNewPeer_stopRecording recordingId now kill w :
  noNewPeer w (snd (stopRecording recordingId now kill w)).
Proof.
  unfold stopRecording.
  destruct (JsMap.get (recordings w) recordingId) as [recording|];
    [|apply noNewPeer_refl].
  destruct (decide _); [|apply noNewPeer_refl].
  destruct (activeRecorders w !! recordingId); [destruct kill|]; cbn [snd];
    intros roomId peerId peer; rewrite ?getPeer_update; done.
Qed.

Lemma noNewPeer_resume recordingInfo now plain outcome w :
  noNewPeer w (snd (startRecording_resume recordingInfo now plain outcome w)).
Proof.
  unfold startRecording_resume, startFFmpegRecording.
  destruct plain as [plainTransport|e]; [|apply noNewPeer_refl].
  destruct outcome; cbn [snd]; try apply noNewPeer_refl.
  - intros roomId peerId peer. by rewrite getPeer_update.
  - by apply noNewPeer_rooms.
Qed.

Lemma noNewPeer_deleteRecording recordingId now kill fileExists w :
  noNewPeer w (snd (deleteRecording recordingId now kill fileExists w)).
Proof.
  unfold deleteRecording.
  destruct (JsMap.get (recordings w) recordingId) as [recording|];
    [|apply noNewPeer_refl].
  cbn [snd].
  set (w1 := if decide (rec_status recording = SRecording)
             then snd (stopRecording recordingId now kill w) else w).
  assert (noNewPeer w w1) as H1.
  { unfold w1. destruct (decide _); [apply noNewPeer_stopRecording|apply noNewPeer_refl]. }
  eapply noNewPeer_trans; [done|]. apply noNewPeer_rooms. by destruct fileExists.
Qed.

Lemma Untagged_noNewPeer w w' : Untagged w → noNewPeer w w' → Untagged w'.
Proof. intros Hw Hsub roomId peerId peer t Hp. by apply (Hw roomId peerId), Hsub. Qed.

Lemma Untagged_joinRoom roomId peerId peerName w :
  Untagged w → Untagged (snd (joinRoom roomId peerId peerName w)).
Proof.
  intros Hw. unfold joinRoom, JsMap.has.
  destruct (JsMap.get (rooms w) roomId) as [room|] eqn:Hroom; [|done].
  destruct (JsMap.get (peers room) peerId) eqn:Hpeer; [done|].
  cbn [snd]. intros roomId' peerId' peer t. unfold getPeer. cbn [rooms log set_rooms].
  destruct (decide (roomId = roomId')) as [<-|Hr].
  - rewrite get_set_eq. cbn [peers set_peers].
    destruct (decide (peerId = peerId')) as [<-|Hp].
    + rewrite get_set_eq. by intros [= <-] [].
    + rewrite get_set_ne by done. intros Hget. apply (Hw roomId peerId').
      unfold getPeer. by rewrite Hroom.
  - rewrite get_set_ne by done. apply (Hw roomId' peerId').
Qed.

Lemma Untagged_updatePeer roomId peerId f w :
  (∀ peer, (∀ t, In t (JsMap.values (transports peer)) →
                 transport_appData_direction t = None) →
           ∀ t, In t (JsMap.values (transports (f peer))) →
                transport_appData_direction t = None) →
  Untagged w → Untagged (updatePeer roomId peerId f w).
Proof.
  intros Hf Hw. unfold updatePeer.
  destruct (JsMap.get (rooms w) roomId) as [room|] eqn:Hroom; [|done].
  destruct (JsMap.get (peers room) peerId) as [peer0|] eqn:Hpeer; [|done].
  intros roomId' peerId' peer t. unfold getPeer. cbn [rooms set_rooms].
  destruct (decide (roomId = roomId')) as [<-|Hr].
  - rewrite get_set_eq. cbn [peers set_peers].
    destruct (decide (peerId = peerId')) as [<-|Hp].
    + rewrite get_set_eq. intros [= <-]. apply Hf. intros t'.
      apply (Hw roomId peerId peer0). unfold getPeer. by rewrite Hroom.
    + rewrite get_set_ne by done. intros Hget. apply (Hw roomId peerId').
      unfold getPeer. by rewrite Hroom.
  - rewrite get_set_ne by done. apply (Hw roomId' peerId').
Qed.

Lemma values_set_In {V} (m : JsMap.t V) k v x :
  In x (JsMap.values (JsMap.set m k v)) → x = v ∨ In x (JsMap.values m).
Proof.
  induction m as [|[k' v'] m IH]; simpl.
  - intros [<-|[]]. by left.
  - destruct (String.eqb k' k); simpl; intros [<-|Hin]; auto.
    destruct (IH Hin); auto.
Qed.

Lemma Untagged_serves w w' :
  serves w w' → Untagged w → Untagged w'.
Proof.
  intros Hstep Hw. destruct Hstep.
  - eapply Untagged_noNewPeer; [done|apply noNewPeer_createRoom].
  - by apply Untagged_joinRoom.
  - eapply Untagged_noNewPeer; [done|apply noNewPeer_leaveRoom].
  - eapply Untagged_noNewPeer; [done|apply noNewPeer_closeRoom].
  - apply Untagged_updatePeer; [|done]. intros peer Hpeer t. simpl.
    intros [->|Hin]%values_set_In; [|by apply Hpeer].
    destruct engine; [|done]. by injection H as <-.
  - apply Untagged_updatePeer; [|done]. intros peer Hpeer t. exact (Hpeer t).
  - apply Untagged_updatePeer; [|done]. intros peer Hpeer t. exact (Hpeer t).
  - eapply Untagged_noNewPeer; [done|by apply noNewPeer_rooms].
  - eapply Untagged_noNewPeer; [done|apply noNewPeer_resume].
  - eapply Untagged_noNewPeer; [done|apply noNewPeer_stopRecording].
  - eapply Untagged_noNewPeer; [done|apply noNewPeer_deleteRecording].
  - eapply Untagged_noNewPeer; [done|]. apply noNewPeer_rooms.
    apply (ffmpegEnd_get recordingId w).
  - eapply Untagged_noNewPeer; [done|by apply noNewPeer_rooms].
Qed.

Lemma Untagged_served w : served w → Untagged w.
Proof.
  unfold served. intros Hs.
  assert (Untagged emptyWorld) as H0 by (by intros roomId peerId peer t).
  induction Hs as [|w1 w2 w3 Hstep _ IH]; [done|].
  apply IH. by eapply Untagged_serves.
Qed.

(** *** The handlers stay within [served] *)

Lemma served_step w w' : served w → serves w w' → served w'.
Proof. intros Hs Hstep. by eapply rtc_r. Qed.

Lemma served_emit tgt msg w : served w → served (emit tgt msg w).
Proof. intros Hs. eapply served_step; [done|]. apply serves_log. Qed.

Lemma handleDisconnect_served socket w : served w → served (handleDisconnect socket w).
Proof.
  intros Hs. unfold handleDisconnect.
  destruct (data_roomId socket) as [roomId|]; [|done].
  destruct (_ && _)%bool; [|done].
  apply served_emit. eapply served_step; [done|]. apply serves_leaveRoom.
Qed.

Lemma handleJoin_served socket roomName peerName newRoomId engine w :
  served w → served (snd (handleJoin socket roomName peerName newRoomId engine w)).
Proof.
  intros Hs. unfold handleJoin.
  set (found := match getRoomByName roomName w with
                | Some room => (Ok room, w)
                | None => createRoom newRoomId roomName engine w
                end).
  assert (served (snd found)) as Hfound.
  { unfold found. destruct (getRoomByName roomName w); [done|].
    eapply served_step; [done|]. apply serves_createRoom. }
  destruct found as [[room|e] w1]; simpl in Hfound.
  2: { simpl. by apply served_emit. }
  assert (served (snd (joinRoom (room_id room) (data_peerId socket) peerName w1)))
    as Hjoin.
  { eapply served_step; [done|]. apply serves_joinRoom. }
  destruct (joinRoom _ _ _ w1) as [[peer|e] w2]; simpl in *.
  - by do 3 apply served_emit.
  - by apply served_emit.
Qed.

Lemma handleCreateTransport_served socket peerId d engine w :
  served w →
  served (handleCreateTransport socket peerId d (createWebRtcTransport d engine) w).
Proof.
  intros Hs. unfold handleCreateTransport.
  destruct (_ ≫= _) as [[roomId room]|]; [|by apply served_emit].
  destruct (getPeer roomId peerId w); [|by apply served_emit].
  assert (served (log [WebRtcTransportCreate roomId d] w)) as H1.
  { eapply served_step; [done|]. apply serves_log. }
  destruct (createWebRtcTransport d engine) as [transport|e] eqn:Hengine;
    apply served_emit; [|done].
  eapply served_step; [done|]. by apply (serves_storeTransport _ _ d engine transport).
Qed.

Lemma handleProduce_served socket peerId transportId kind engine w :
  served w → served (handleProduce socket peerId transportId kind engine w).
Proof.
  intros Hs. unfold handleProduce.
  destruct (_ ≫= _) as [[roomId peer]|]; [|by apply served_emit].
  destruct (JsMap.get _ _); [|by apply served_emit].
  destruct engine as [producer|e]; [|by apply served_emit].
  do 2 apply served_emit.
  eapply served_step; [done|]. apply (serves_storeProducer _ _ producer).
Qed.

Lemma handleConsume_served socket peerId producerId canConsume engine w :
  served w → served (handleConsume socket peerId producerId canConsume engine w).
Proof.
  intros Hs. unfold handleConsume.
  destruct (_ ≫= _) as [[[roomId room] peer]|]; [|by apply served_emit].
  destruct (List.find _ (getRoomPeers roomId w)); [|by apply served_emit].
  destruct (JsMap.get _ _) as [producer|]; [|by apply served_emit].
  destruct (negb canConsume); [by apply served_emit|].
  destruct (List.find _ _) as [recvTransport|]; [|by apply served_emit].
  assert (served (log [ConsumerCreate (transport_id recvTransport)
                                      (producer_id producer)] w)) as H1.
  { eapply served_step; [done|]. apply serves_log. }
  destruct engine as [consumer|e]; apply served_emit; [|done].
  eapply served_step; [done|]. apply (serves_storeConsumer _ _ consumer).
Qed.

(** [startRecording] is its two stretches, one after the other. *)
Lemma startRecording_begin_resume outputPath format roomId recordingId isoTime now
    plain outcome w :
  startRecording outputPath format roomId recordingId isoTime now plain outcome w =
  match startRecording_begin outputPath format roomId recordingId isoTime now w with
  | (Ok recordingInfo, w1) => startRecording_resume recordingInfo now plain outcome w1
  | (Throw e, w1) => (Throw e, w1)
  end.
Proof.
  unfold startRecording, startRecording_begin, startRecording_resume.
  destruct (getRoom roomId w) as [room|]; [|done].
  destruct (isRoomRecording roomId w); [done|].
  destruct plain as [plainTransport|e]; [|done]. done.
Qed.

Lemma startRecording_served outputPath format roomId recordingId isoTime now plain
    outcome w :
  served w →
  served (snd (startRecording outputPath format roomId recordingId isoTime now plain
                              outcome w)).
Proof.
  intros Hs. rewrite startRecording_begin_resume. unfold startRecording_begin.
  destruct (getRoom roomId w) as [room|]; [|done].
  destruct (isRoomRecording roomId w); [done|].
  eapply served_step; [|apply serves_startRecording_resume].
  eapply served_step; [done|]. apply serves_log.
Qed.

Lemma handleStartRecording_served outputPath format socket recordingId isoTime now
    plain outcome w :
  served w →
  served (handleStartRecording outputPath format socket recordingId isoTime now
                               plain outcome w).
Proof.
  intros Hs. unfold handleStartRecording.
  destruct (data_roomId socket) as [roomId|]; [|by apply served_emit].
  pose proof (startRecording_served outputPath format roomId recordingId isoTime now
                plain outcome w Hs) as H1.
  destruct (startRecording _ _ _ _ _ _ _ _ _) as [[recording|e] w1];
    by apply served_emit.
Qed.

Lemma handleStopRecording_served socket recordingId now kill w :
  served w → served (handleStopRecording socket recordingId now kill w).
Proof.
  intros Hs. unfold handleStopRecording.
  assert (served (snd (stopRecording recordingId now kill w))) as H1.
  { eapply served_step; [done|]. apply serves_stopRecording. }
  destruct (stopRecording _ _ _ _) as [[recording|e] w1]; by apply served_emit.
Qed.

(** *** No receive transport is ever found *)

Lemma find_isRecv_untagged (l : list Transport) :
  (∀ t, In t l → transport_appData_direction t = None) →
  List.find (fun t => match transport_appData_direction t with
                      | Some Recv => true
                      | _ => false
                      end) l = None.
Proof.
  induction l as [|t l IH]; intros Hl; [done|]. simpl.
  rewrite (Hl t) by (by left). apply IH. intros t' Ht'. apply Hl. by right.
Qed.

(** With no marked transport, every [consume] request of a peer of the
    socket's room ends in an [error], before the engine is asked. *)
Lemma handleConsume_untagged socket peerId producerId canConsume engine roomId peer w :
  Untagged w →
  data_roomId socket = Some roomId →
  getPeer roomId peerId w = Some peer →
  ∃ e, handleConsume socket peerId producerId canConsume engine w
       = emit (ToSocket (data_peerId socket)) (MError e) w ∧
       (e = "Producer not found" ∧
        (∀ p, In p (getRoomPeers roomId w) → JsMap.has (producers p) producerId = false)
        ∨ e = "Cannot consume" ∧ canConsume = false
        ∨ e = "Receive transport not found").
Proof.
  intros Hw Hsock Hpeer. unfold handleConsume. rewrite Hsock.
  destruct (getPeer_Some_getRoom _ _ _ _ Hpeer) as [room Hroom].
  cbn [mbind option_bind]. rewrite Hroom. cbn [mbind option_bind]. rewrite Hpeer.
  cbn [mbind option_bind].
  destruct (List.find _ (getRoomPeers roomId w)) as [producerPeer|] eqn:Hfind.
  2: { eexists. split; [done|]. left. split; [done|].
       intros p Hp. by apply (find_none _ _ Hfind). }
  apply find_some in Hfind as [_ Hhas]. unfold JsMap.has in Hhas.
  destruct (JsMap.get (producers producerPeer) producerId) as [producer|]; [|done].
  destruct canConsume; cbn [negb].
  2: { eexists. split; [done|]. right. by left. }
  rewrite find_isRecv_untagged by (intros t; apply (Hw roomId peerId peer t Hpeer)).
  eexists. split; [done|]. right. by right.
Qed.

(** C2. In every state the server can be in, a [consume] request of a
    peer of the socket's room that names a producer this very peer holds is
    answered with an [error] and nothing else: the engine is not asked for
    a consumer, and no room and no peer has changed, so no consumer is
    stored.  The request does not fail because the producer is the peer's
    own (that is never looked at): it fails when the router cannot consume,
    or else because no transport the gateway stores is marked as a receive
    transport. *)
Theorem own_producer_consume_rejected socket peerId producerId canConsume engine
    roomId peer w :
  served w →
  data_roomId socket = Some roomId →
  getPeer roomId peerId w = Some peer →
  JsMap.has (producers peer) producerId = true →
  let w' := handleConsume socket peerId producerId canConsume engine w in
  (∃ e, newEffects w w' = [Emit (ToSocket (data_peerId socket)) (MError e)] ∧
        (e = "Cannot consume" ∧ canConsume = false
         ∨ e = "Receive transport not found")) ∧
  rooms w' = rooms w ∧
  getPeer roomId peerId w' = Some peer.
Proof.
  intros Hs Hsock Hpeer Hown w'.
  destruct (handleConsume_untagged socket peerId producerId canConsume engine roomId
              peer w (Untagged_served w Hs) Hsock Hpeer) as (e & Heq & He).
  subst w'. rewrite Heq. split_and!.
  - exists e. split; [by apply newEffects_app|].
    destruct He as [[_ Hnone]|He]; [|done]. exfalso.
    assert (In peer (getRoomPeers roomId w)) as Hin.
    { unfold getPeer, getRoomPeers in *.
      destruct (JsMap.get (rooms w) roomId) as [room|]; [|done].
      apply get_Some_In in Hpeer. by apply (in_map snd) in Hpeer. }
    apply Hnone in Hin. congruence.
  - done.
  - by rewrite getPeer_emit.
Qed.

(* ===================================================================== *)
(** ** Two recordings of one room *)
(* ===================================================================== *)

(** C3, at a concrete input.  Alice and Bob are in the room and two
    [startRecording] requests for it arrive, the second while the first
    awaits its plain transport.  Both pass the check of the flag, both start
    FFmpeg, both are stored with status ['recording'] and both return their
    session.  When the first session is then stopped the flag is cleared
    although the second is still recording, and a third request, handled all
    by itself, starts a third FFmpeg next to it. *)
Theorem overlapping_starts_both_record :
  (fst Overlap.beginA = Ok Overlap.sessionA ∧
   fst Overlap.beginB = Ok Overlap.sessionB ∧
   fst Overlap.resumeA = Ok Overlap.sessionA ∧
   fst Overlap.resumeB = Ok Overlap.sessionB) ∧
  (activeRecordings "room-1" Overlap.wBoth = [Overlap.sessionA; Overlap.sessionB] ∧
   List.filter isFfmpegRun (newEffects Example.wAB Overlap.wBoth) =
     [FfmpegRun "rec-1" 4004
                "recordings/recording-standup-2024-05-01T10-00-00-000Z.mp4";
      FfmpegRun "rec-2" 4006
                "recordings/recording-standup-2024-05-01T10-00-00-050Z.mp4"]) ∧
  (activeRecordings "room-1" Overlap.wOneStopped = [Overlap.sessionB] ∧
   isRoomRecording "room-1" Overlap.wOneStopped = false ∧
   is_throw (fst Overlap.startC) = false ∧
   map rec_id (activeRecordings "room-1" (snd Overlap.startC)) = ["rec-2"; "rec-3"] ∧
   length (List.filter isFfmpegRun (newEffects Overlap.wOneStopped (snd Overlap.startC)))
     = 1).
Proof. vm_compute. done. Qed.

(* ===================================================================== *)
(** ** The client, started again *)
(* ===================================================================== *)

(** C8, at a concrete input.  The component is mounted and its
    connection is given the id "me-1"; the start button is clicked, the
    handlers of the new connection capture "me-1", and the new connection is
    given the id "me-2".  A [peerJoined] for "me-2" is then neither stopped
    by [peer.id === localPeerId] nor removed by the final filter, which both
    compare with "me-1": the participant list shows the local peer. *)
Theorem retried_start_lists_local_peer :
  fst (initializeWebRTC
         (Client.run Client.mountCaptured [Client.Joined "me-1"] Client.initial))
    = Some "me-1" ∧
  Client.localPeerId Retry.retried = Some "me-2" ∧
  Client.client_peerId Retry.retried = Some "me-2" ∧
  Client.participants Retry.retried = [Retry.me2].
Proof. vm_compute. done. Qed.

(* ===================================================================== *)
(** ** These theorems at the example session *)
(* ===================================================================== *)

Section ServedInstances.
Import Example Example3.

Lemma wProduced_served : served Example3.wProduced.
Proof.
  apply handleProduce_served.
  do 2 apply handleCreateTransport_served.
  apply handleJoin_served. apply rtc_refl.
Qed.

Lemma own_producer_consume_rejected_witness :
  newEffects Example3.wProduced Example3.wAsked =
    [Emit (ToSocket "peer-a") (MError "Receive transport not found")] ∧
  getPeer "room-1" "peer-a" Example3.wAsked = Some Example3.alice.
Proof.
  destruct (own_producer_consume_rejected socketA' "peer-a" "p1" true (Ok ownConsumer)
              "room-1" Example3.alice Example3.wProduced)
    as ((e & Heff & He) & _ & Hpeer).
  - exact wProduced_served.
  - reflexivity.
  - vm_compute. reflexivity.
  - reflexivity.
  - split; [|exact Hpeer].
    destruct He as [[_ Hc]|He]; [discriminate Hc|]. rewrite <- He. exact Heff.
Defined.
End ServedInstances.

(* ===================================================================== *)
(** ** The recording's file path *)
(* ===================================================================== *)

(** [path.join] normalises: a leading ['./'] and a doubled or trailing
    ['/'] of the output directory go, an empty output directory leaves the
    file name alone, and a room name with ['..'] in it takes segments
    away. *)
Lemma recordingFilePath_normalised :
  recordingFilePath "./recordings" "mp4" "standup" Example.isoTime
    = "recordings/recording-standup-2024-05-01T10-00-00-000Z.mp4" ∧
  recordingFilePath "/var//recordings/" "mp4" "standup" Example.isoTime
    = "/var/recordings/recording-standup-2024-05-01T10-00-00-000Z.mp4" ∧
  recordingFilePath "" "mp4" "standup" Example.isoTime
    = "recording-standup-2024-05-01T10-00-00-000Z.mp4" ∧
  recordingFilePath "recordings" "mp4" "/../../etc/x" Example.isoTime
    = "etc/x-2024-05-01T10-00-00-000Z.mp4".
Proof. vm_compute. done. Qed.
